(** * youtube-researcher: a shallow embedding of the streaming pipeline

    The first part translates the TypeScript sources, one module each:
    - [JsObject]: what a plain object inherits,
    - [Regex]: the regular expressions that the sources use,
    - [Sanitize]: [src/lib/sanitize.ts],
    - [RateLimit] and [ClientIdentifier]: [src/lib/rateLimit.ts],
    - [Loader]: [src/yt/loader.ts],
    - [Compression]: [src/lib/compression.ts],
    - [Rag]: [src/yt/rag.ts],
    - [Ask]: [pages/api/ask.ts],
    - [AgentManager]: [src/lib/agentManager.ts],
    - [Tools]: [src/lib/errors.ts], [src/lib/toolErrorHandler.ts] and the
      tools of [src/yt/agent.ts],
    - [Client]: the read loop of the page.
    The second part states and proves their properties, in the modules
    [JsStringFacts], [RegexFacts], [SanitizeFacts], [RateLimitFacts],
    [ExtractFacts], [FetchFacts], [RagFacts], [AskFacts] and
    [CompressionFacts], and further properties of the same code in
    [RateLimitExtras], [SanitizeExtras], [LoaderExtras],
    [CompressionExtras], [RagExtras], [AskExtras], [AgentManagerExtras],
    [ToolsExtras], [ClientIdentifierExtras] and [ClientExtras].

    JavaScript strings are modelled by [string]: a sequence of code units,
    here restricted to the range 0..255.  Numbers that the code only uses as
    integers (counters, millisecond clocks, lengths) are modelled by [Z] or
    [nat].  Objects used as dictionaries are [gmap]s of their own properties, read
    through the members that a plain object inherits; [Set]s are [gset]s.
    Calls to the outside world (clock, language model, transcript source,
    vector store) are inputs of the functions that perform them. *)

From Stdlib Require Import ZArith Lia Ascii String List Bool DecimalString.
From stdpp Require Import gmap strings list.

#[local] Set Warnings "-register-all".

#[local] Arguments String.append (_ _)%_string_scope : simpl nomatch.

(** ** JavaScript string helpers *)

Module JsString.

(** [Array.prototype.join] on strings *)
Fixpoint join (sep : string) (l : list string) : string :=
  match l with
  | [] => ""
  | [x] => x
  | x :: rest => x +:+ sep +:+ join sep rest
  end.

(** [String.prototype.startsWith] *)
Fixpoint startsWith (p s : string) : bool :=
  match p, s with
  | EmptyString, _ => true
  | String a p', String b s' => if Ascii.eqb a b then startsWith p' s' else false
  | String _ _, EmptyString => false
  end.

(** [String.prototype.includes] *)
Fixpoint includes (s needle : string) : bool :=
  startsWith needle s ||
  match s with
  | EmptyString => false
  | String _ s' => includes s' needle
  end.

(** [String.prototype.slice(0, n)] *)
Fixpoint take (n : nat) (s : string) : string :=
  match n, s with
  | O, _ => ""
  | S n', String c s' => String c (take n' s')
  | S _, EmptyString => ""
  end.

(** ASCII letters fold to lower case; so do the Latin-1 capitals
    [0xC0..0xDE] except the multiplication sign [0xD7]. *)
Definition lower_char (c : ascii) : ascii :=
  let n := nat_of_ascii c in
  if ((65 <=? n) && (n <=? 90))%nat then ascii_of_nat (n + 32)
  else if ((192 <=? n) && (n <=? 222) && negb (n =? 215))%nat
       then ascii_of_nat (n + 32)
  else c.

(** [String.prototype.toLowerCase] *)
Fixpoint toLowerCase (s : string) : string :=
  match s with
  | EmptyString => ""
  | String c s' => String (lower_char c) (toLowerCase s')
  end.

(** White space of [trim] and of the regular expression class [\s]:
    TAB, LF, VT, FF, CR, space and the no-break space. *)
Definition is_space (c : ascii) : bool :=
  let n := nat_of_ascii c in
  ((9 <=? n) && (n <=? 13) || (n =? 32) || (n =? 160))%nat.

Fixpoint trimStart (s : string) : string :=
  match s with
  | EmptyString => ""
  | String c s' => if is_space c then trimStart s' else s
  end.

(** [trimEnd]: a trailing run of white space is dropped. *)
Fixpoint trimEnd (s : string) : string :=
  match s with
  | EmptyString => ""
  | String c s' =>
      match trimEnd s' with
      | EmptyString => if is_space c then "" else String c ""
      | t => String c t
      end
  end.

(** [String.prototype.trim] *)
Definition trim (s : string) : string := trimEnd (trimStart s).

(** Every character of [s] satisfies [p]. *)
Fixpoint all_chars (p : ascii -> bool) (s : string) : bool :=
  match s with
  | EmptyString => true
  | String c s' => p c && all_chars p s'
  end.

(** [s.slice(n)] *)
Fixpoint drop (n : nat) (s : string) : string :=
  match n, s with
  | O, _ => s
  | S n', String _ s' => drop n' s'
  | S _, EmptyString => ""
  end.

(** [s.split(sep)] for a separator of one character *)
Fixpoint split_on (sep : ascii) (s : string) : list string :=
  match s with
  | EmptyString => [""]
  | String c s' =>
      if Ascii.eqb c sep then "" :: split_on sep s'
      else
        match split_on sep s' with
        | piece :: pieces => String c piece :: pieces
        | [] => [String c ""]
        end
  end.

End JsString.


(** ** Plain JavaScript objects

    An object literal inherits the members of [Object.prototype]: a read of
    [o[name]] finds them when [o] has no property of its own under the
    name, and [name in o] holds for them. *)

Module JsObject.

(** The names of the members of [Object.prototype].  All of them are
    functions, except [__proto__], an accessor whose getter answers the
    prototype of the object and whose setter replaces it. *)
Definition prototype_members : list string :=
  ["constructor"; "__defineGetter__"; "__defineSetter__"; "hasOwnProperty";
   "__lookupGetter__"; "__lookupSetter__"; "isPrototypeOf";
   "propertyIsEnumerable"; "toString"; "valueOf"; "__proto__"; "toLocaleString"].

(** [name in {}] *)
Definition inherited (name : string) : bool :=
  existsb (String.eqb name) prototype_members.

End JsObject.
(** ** Regular expressions

    The fragment of JavaScript regular expressions that the sources use,
    with the backtracking order of the language: alternatives left to right,
    [?] and [*] greedy.  There is at most one capture group per pattern. *)

Module Regex.

Inductive regex :=
| Eps
| Chr (c : ascii)                 (* one literal character *)
| Cls (p : ascii -> bool)         (* a character class *)
| Seq (r1 r2 : regex)
| Alt (r1 r2 : regex)             (* [r1|r2] *)
| Opt (r : regex)                 (* [(?:r)?] *)
| Star (p : ascii -> bool)        (* [c*] for a character or class [c] *)
| Group (r : regex)               (* [(r)], the capture group 1 *)
| Bos                             (* [^] *)
| Eos.                            (* [$], without the [m] flag *)

(** The state of a match attempt: the index reached, what is left of the
    input there, and the capture so far. *)
Record mstate := { pos : nat; rest : string; cap : option string }.

(** [Star p] at the state [(i, s, c)], continuing with [k]: the longest run
    first, then shorter ones. *)
Fixpoint star (p : ascii -> bool) (k : mstate -> option mstate)
    (i : nat) (s : string) (c : option string) : option mstate :=
  match s with
  | String a s' =>
      if p a then
        match star p k (S i) s' c with
        | Some st => Some st
        | None => k {| pos := i; rest := s; cap := c |}
        end
      else k {| pos := i; rest := s; cap := c |}
  | EmptyString => k {| pos := i; rest := s; cap := c |}
  end.

(** [m r k st]: match [r] at [st], then the continuation [k]; the first
    success in backtracking order. *)
Fixpoint m (r : regex) (k : mstate -> option mstate) (st : mstate)
  : option mstate :=
  match r with
  | Eps => k st
  | Chr c =>
      match rest st with
      | String a s' =>
          if Ascii.eqb a c then k {| pos := S (pos st); rest := s'; cap := cap st |}
          else None
      | EmptyString => None
      end
  | Cls p =>
      match rest st with
      | String a s' =>
          if p a then k {| pos := S (pos st); rest := s'; cap := cap st |}
          else None
      | EmptyString => None
      end
  | Seq r1 r2 => m r1 (m r2 k) st
  | Alt r1 r2 =>
      match m r1 k st with
      | Some st' => Some st'
      | None => m r2 k st
      end
  | Opt r1 =>
      match m r1 k st with
      | Some st' => Some st'
      | None => k st
      end
  | Star p => star p k (pos st) (rest st) (cap st)
  | Group r1 =>
      m r1 (fun st' =>
              k {| pos := pos st'; rest := rest st';
                   cap := Some (JsString.take (pos st' - pos st) (rest st)) |})
        st
  | Bos => if (pos st =? 0)%nat then k st else None
  | Eos => match rest st with EmptyString => k st | String _ _ => None end
  end.

(** The match attempts at the start indices [i], [i+1], ... of the input. *)
Fixpoint search_from (r : regex) (i : nat) (s : string) : option mstate :=
  match m r Some {| pos := i; rest := s; cap := None |} with
  | Some st => Some st
  | None =>
      match s with
      | String _ s' => search_from r (S i) s'
      | EmptyString => None
      end
  end.

(** [re.exec(s)] for a regular expression without the [g] flag: the
    leftmost match. *)
Definition exec (r : regex) (s : string) : option mstate := search_from r 0 s.

(** [re.test(s)] *)
Definition test (r : regex) (s : string) : bool :=
  match exec r s with Some _ => true | None => false end.

(** [s.match(re)?.[1]] *)
Definition match1 (r : regex) (s : string) : option (option string) :=
  match exec r s with Some st => Some (cap st) | None => None end.

(** Builders for the patterns. *)
Fixpoint seqs (rs : list regex) : regex :=
  match rs with
  | [] => Eps
  | r :: rs' => Seq r (seqs rs')
  end.

Fixpoint alts (r : regex) (rs : list regex) : regex :=
  match rs with
  | [] => r
  | r' :: rs' => Alt r (alts r' rs')
  end.

(** A literal run of characters. *)
Fixpoint lit (s : string) : regex :=
  match s with
  | EmptyString => Eps
  | String c s' => Seq (Chr c) (lit s')
  end.

(** Two characters are the same under the [i] flag when their case folds
    agree. *)
Definition eq_nocase (c a : ascii) : bool :=
  Ascii.eqb (JsString.lower_char a) (JsString.lower_char c).



(** The pattern holds no capture group. *)
Fixpoint no_group (r : regex) : bool :=
  match r with
  | Group _ => false
  | Seq r1 r2 | Alt r1 r2 => no_group r1 && no_group r2
  | Opt r1 => no_group r1
  | _ => true
  end.

Definition succeeded (o : option mstate) : bool :=
  match o with Some _ => true | None => false end.

(** A literal under the [i] flag. *)
Fixpoint liti (s : string) : regex :=
  match s with
  | EmptyString => Eps
  | String c s' => Seq (Cls (eq_nocase c)) (liti s')
  end.

(** [r{n}] *)
Fixpoint rep (n : nat) (r : regex) : regex :=
  match n with
  | O => Eps
  | S n' => Seq r (rep n' r)
  end.

(** [.]: any character but a line terminator. *)
Definition dot (c : ascii) : bool :=
  negb (Ascii.eqb c "010" || Ascii.eqb c "013").

(** [r+] for a character class *)
Definition plus (p : ascii -> bool) : regex := Seq (Cls p) (Star p).

End Regex.

(** ** src/lib/sanitize.ts *)

Module Sanitize.

(** The replacement of one character by [htmlEscapeMap]; characters outside
    the six keys of the map are left alone. *)
Definition escape_char (c : ascii) : string :=
  if Ascii.eqb c "&" then "&amp;"
  else if Ascii.eqb c "<" then "&lt;"
  else if Ascii.eqb c ">" then "&gt;"
  else if Ascii.eqb c "034" then "&quot;"
  else if Ascii.eqb c "'" then "&#x27;"
  else if Ascii.eqb c "/" then "&#x2F;"
  else String c "".

(** The characters that [sanitizeHTML] rewrites. *)
Definition needs_escape (c : ascii) : bool :=
  Ascii.eqb c "&" || Ascii.eqb c "<" || Ascii.eqb c ">" || Ascii.eqb c "034"
  || Ascii.eqb c "'" || Ascii.eqb c "/".

(** The characters of markup that must not reach the client as they are. *)
Definition markup_char (c : ascii) : bool :=
  Ascii.eqb c "<" || Ascii.eqb c ">" || Ascii.eqb c "034"
  || Ascii.eqb c "'" || Ascii.eqb c "/".

(** [sanitizeHTML(str)] on a string argument *)
Fixpoint sanitizeHTML (str : string) : string :=
  match str with
  | EmptyString => ""
  | String c s => escape_char c +:+ sanitizeHTML s
  end.

(** An error as [sanitizeErrorMessage] looks at it: its [message] property
    and the result of its [toString] method, where they exist ([null] and
    [undefined] have neither). *)
Record error_value := {
  err_message : option string;
  err_toString : option string;
}.

(** [new Error(message)], whose [name] is [name] *)
Definition Error (name message : string) : error_value :=
  {| err_message := Some message;
     err_toString := Some (if String.eqb message "" then name
                           else name +:+ ": " +:+ message) |}.

(** [safeErrorPatterns]; all carry the [i] flag. *)
Definition safeErrorPatterns : list Regex.regex :=
  [ Regex.liti "rate limit";
    Regex.liti "validation error";
    Regex.Seq (Regex.liti "invalid ")
      (Regex.Group (Regex.alts (Regex.liti "url")
                      [Regex.liti "youtube"; Regex.liti "video"]));
    Regex.liti "not found";
    Regex.liti "timeout";
    Regex.Seq (Regex.liti "too ")
      (Regex.Group (Regex.alts (Regex.liti "long")
                      [Regex.liti "large"; Regex.liti "many"])) ].

(** [a || b] on optional strings: the empty string is falsy. *)
Definition or_else (a : option string) (b : string) : string :=
  match a with
  | Some s => if String.eqb s "" then b else s
  | None => b
  end.

(** [error?.message || error?.toString?.() || "An error occurred"] *)
Definition errorMessage (error : error_value) : string :=
  or_else (err_message error) (or_else (err_toString error) "An error occurred").

Definition generic_message : string :=
  "An unexpected error occurred. Please try again later.".

(** [sanitizeErrorMessage(error)]: the loop returns at the first pattern
    that matches. *)
Definition sanitizeErrorMessage (error : error_value) : string :=
  let msg := errorMessage error in
  (fix loop (patterns : list Regex.regex) : string :=
     match patterns with
     | [] => generic_message
     | pattern :: rest =>
         if Regex.test pattern msg then sanitizeHTML msg else loop rest
     end) safeErrorPatterns.



(** [truncate(str, maxLength)] *)
Definition truncate (str : string) (maxLength : nat) : string :=
  if (String.length str <=? maxLength)%nat then str
  else JsString.take maxLength str +:+ "...".

(** The values that tool arguments are made of.  An object is the list of
    its own enumerable properties; its prototype is [Object.prototype],
    unless it is a [JProto], whose prototype is the value [proto]: [null],
    an array or an object. *)
Inductive jsval :=
| JNull
| JUndefined
| JString (s : string)
| JNumber (n : Z)
| JBool (b : bool)
| JArray (items : list jsval)
| JObject (fields : list (string * jsval))
| JOther (shown : string)   (* functions, symbols: [shown] is [String(obj)] *)
| JProto (proto : jsval) (fields : list (string * jsval)).

(** [obj[key] = v]: an existing property keeps its place. *)
Fixpoint set_field (key : string) (v : jsval) (fields : list (string * jsval))
  : list (string * jsval) :=
  match fields with
  | [] => [(key, v)]
  | (k, w) :: rest =>
      if String.eqb k key then (k, v) :: rest
      else (k, w) :: set_field key v rest
  end.

(** The object has a property of its own under [key]. *)
Definition has_field (key : string) (fields : list (string * jsval)) : bool :=
  existsb (fun kv => String.eqb (fst kv) key) fields.

(** An object with the prototype [proto]; [None] is [Object.prototype]. *)
Definition make_object (proto : option jsval) (fields : list (string * jsval))
  : jsval :=
  match proto with
  | None => JObject fields
  | Some p => JProto p fields
  end.

(** The chain of prototypes that starts at [proto] ends at
    [Object.prototype], and not at [null]: the accessor [__proto__] is
    inherited. *)
Fixpoint ends_at_Object (proto : jsval) : bool :=
  match proto with
  | JArray _ | JObject _ => true
  | JProto p _ => ends_at_Object p
  | _ => false
  end.

(** [sanitized[key] = v] on an object given by its prototype and its own
    properties.  Under the key [__proto__], when the object has no such
    property of its own and inherits the accessor, the setter runs: an
    object, an array or [null] becomes the prototype and any other value is
    ignored; no property is created.  Every other assignment writes an own
    property. *)
Definition assign (key : string) (v : jsval)
    (o : option jsval * list (string * jsval))
  : option jsval * list (string * jsval) :=
  let '(proto, own) := o in
  if String.eqb key "__proto__" && negb (has_field key own)
     && match proto with None => true | Some p => ends_at_Object p end
  then
    match v with
    | JNull | JArray _ | JObject _ | JProto _ _ => (Some v, own)
    | _ => (proto, own)
    end
  else (proto, set_field key v own).

(** [sanitizeObject(obj, maxDepth)]; [Object.entries] lists the own
    enumerable properties. *)
Fixpoint sanitizeObject (obj : jsval) (maxDepth : nat) {struct maxDepth} : jsval :=
  match maxDepth with
  | O => JString "[Max depth reached]"
  | S d =>
      match obj with
      | JNull => JNull
      | JUndefined => JUndefined
      | JString s => JString (sanitizeHTML s)
      | JNumber n => JNumber n
      | JBool b => JBool b
      | JArray items => JArray (List.map (fun item => sanitizeObject item d) items)
      | JObject fields | JProto _ fields =>
          let '(proto, own) :=
            fold_left
              (fun acc kv => assign (sanitizeHTML (fst kv)) (sanitizeObject (snd kv) d) acc)
              fields (None, []) in
          make_object proto own
      | JOther shown => JString shown
      end
  end.

Definition sensitiveFields : list string :=
  ["password"; "token"; "secret"; "key"; "apiKey"; "api_key"; "credentials"].

(** [key in proto], up the chain of prototypes, for a key that neither
    [Object.prototype] nor [Array.prototype] bears and that is no index of
    an array: the names of [sensitiveFields] are such keys. *)
Fixpoint in_chain (key : string) (proto : jsval) : bool :=
  match proto with
  | JObject fields => has_field key fields
  | JProto p fields => has_field key fields || in_chain key p
  | _ => false
  end.

(** The loop over [sensitiveFields] on an object given by its prototype
    and its own properties: [if (field in sanitized) sanitized[field] =
    "[REDACTED]"]. *)
Definition redact (proto : option jsval) (fields : list (string * jsval))
  : list (string * jsval) :=
  fold_left
    (fun acc field =>
       if has_field field acc
          || match proto with Some p => in_chain field p | None => false end
       then set_field field (JString "[REDACTED]") acc
       else acc)
    sensitiveFields fields.

(** [sanitizeToolArgs(args)] *)
Definition sanitizeToolArgs (args : jsval) : jsval :=
  match sanitizeObject args 5 with
  | JObject fields => JObject (redact None fields)
  | JProto p fields => JProto p (redact (Some p) fields)
  | JArray items => JArray items
  | v => v
  end.

(** [obj[key]] *)
Fixpoint get_field (key : string) (fields : list (string * jsval)) : option jsval :=
  match fields with
  | [] => None
  | (k, v) :: rest => if String.eqb k key then Some v else get_field key rest
  end.

(** Every string of a value, the keys of its objects and what its
    prototypes hold included, satisfies [p]. *)
Fixpoint all_strings (p : string -> bool) (v : jsval) : bool :=
  match v with
  | JString s => p s
  | JArray items => forallb (all_strings p) items
  | JObject fields =>
      forallb (fun kv => let '(k, w) := kv in p k && all_strings p w) fields
  | JOther shown => p shown
  | JProto proto fields =>
      all_strings p proto
      && forallb (fun kv => let '(k, w) := kv in p k && all_strings p w) fields
  | _ => true
  end.

(** The value is made of what JSON has: no function, no symbol, no object
    with a prototype of its own. *)
Fixpoint is_json (v : jsval) : bool :=
  match v with
  | JArray items => forallb is_json items
  | JObject fields => forallb (fun kv => let '(_, w) := kv in is_json w) fields
  | JOther _ => false
  | JProto _ _ => false
  | _ => true
  end.

(** The text holds no markup character. *)
Definition no_markup (s : string) : bool :=
  JsString.all_chars (fun a => negb (markup_char a)) s.

End Sanitize.

(** ** src/lib/rateLimit.ts *)

Module RateLimit.

(** One entry of [RateLimitStore]. *)
Record record := { count : Z; resetTime : Z }.

(** The fields of [class RateLimiter]; only [store] is ever written. *)
Record RateLimiter := {
  store : gmap string record;
  maxRequests : Z;
  windowMs : Z;
}.

(** [constructor(maxRequests = 10, windowMs = 60000)] *)
Definition new (maxRequests windowMs : Z) : RateLimiter :=
  {| store := ∅; maxRequests := maxRequests; windowMs := windowMs |}.

Definition set_store (rl : RateLimiter) (s : gmap string record) : RateLimiter :=
  {| store := s; maxRequests := maxRequests rl; windowMs := windowMs rl |}.

(** What [this.store[identifier]] finds in the plain object [store]: a
    record of the store's own, or a member of [Object.prototype] (a
    function, or the prototype itself for [__proto__]), or nothing. *)
Inductive slot :=
| Own (r : record)
| Inherited
| Missing.

Definition lookup (s : gmap string record) (identifier : string) : slot :=
  match s !! identifier with
  | Some r => Own r
  | None => if JsObject.inherited identifier then Inherited else Missing
  end.

(** [isAllowed(identifier)], where [now] is the value of [Date.now()].  An
    inherited member is truthy and has neither [resetTime] nor [count]: the
    two comparisons with [undefined] are false and the call is refused. *)
Definition isAllowed (now : Z) (identifier : string) (rl : RateLimiter)
  : bool * RateLimiter :=
  match lookup (store rl) identifier with
  | Missing =>
      (true, set_store rl (<[identifier := {| count := 1; resetTime := now + windowMs rl |}]> (store rl)))
  | Own r =>
      if (now >? resetTime r)%Z then
        (true, set_store rl (<[identifier := {| count := 1; resetTime := now + windowMs rl |}]> (store rl)))
      else if (count r <? maxRequests rl)%Z then
        (true, set_store rl (<[identifier := {| count := count r + 1; resetTime := resetTime r |}]> (store rl)))
      else (false, rl)
  | Inherited => (false, rl)
  end.

(** A number of the language, as far as [getInfo] computes one. *)
Inductive number :=
| Num (z : Z)
| NaN.

(** [0 < n] *)
Definition positive (n : number) : bool :=
  match n with
  | Num z => (0 <? z)%Z
  | NaN => false
  end.

(** [info_resetTime] is [None] when the property is [undefined]. *)
Record info := { remaining : number; info_resetTime : option Z; limit : Z }.

(** [getInfo(identifier)]: reads the store, never writes it.  For an
    inherited member [Math.max(0, maxRequests - undefined)] is [NaN] and
    [record.resetTime] is [undefined]. *)
Definition getInfo (now : Z) (identifier : string) (rl : RateLimiter) : info :=
  let fresh :=
    {| remaining := Num (maxRequests rl); info_resetTime := Some (now + windowMs rl)%Z;
       limit := maxRequests rl |} in
  match lookup (store rl) identifier with
  | Missing => fresh
  | Own r =>
      if (now >? resetTime r)%Z then fresh
      else
        {| remaining := Num (Z.max 0 (maxRequests rl - count r))%Z;
           info_resetTime := Some (resetTime r); limit := maxRequests rl |}
  | Inherited =>
      {| remaining := NaN; info_resetTime := None; limit := maxRequests rl |}
  end.

(** The body of the loop of [cleanup]. *)
Definition cleanup_key (now : Z) (s : gmap string record) (key : string)
  : gmap string record :=
  match s !! key with
  | Some r => if (now >? resetTime r)%Z then delete key s else s
  | None => s
  end.

(** [cleanup()]: the keys are listed first, then visited one by one. *)
Definition cleanup (now : Z) (rl : RateLimiter) : RateLimiter :=
  let keys := elements (dom (store rl)) in
  set_store rl (foldl (cleanup_key now) (store rl) keys).

(** [reset(identifier)] *)
Definition reset (identifier : string) (rl : RateLimiter) : RateLimiter :=
  set_store rl (delete identifier (store rl)).

(** The singleton [rateLimiter = new RateLimiter(10, 60000)]. *)
Definition rateLimiter : RateLimiter := new 10 60000.

(** [Math.ceil(ms / 1000)] on an integer number of milliseconds. *)
Definition ceil_div_1000 (ms : Z) : Z := (- ((- ms) / 1000))%Z.

Inductive outcome :=
| Rejected429 (retryAfter : Z)
| Continue
| ThrowsRangeError.

(** [withRateLimit(handler)], up to the call of [handler].  The three
    readings of [Date.now()] are, in order, the one of [getInfo], the one
    of [isAllowed] and the one of the [Retry-After] computation.  The
    result carries the [info] written to the [X-RateLimit-*] headers.  For
    an [undefined] reset time [new Date(info.resetTime).toISOString()]
    throws before [isAllowed] is called. *)
Definition withRateLimit (t_info t_check t_retry : Z) (identifier : string)
    (rl : RateLimiter) : info * outcome * RateLimiter :=
  let i := getInfo t_info identifier rl in
  match info_resetTime i with
  | None => (i, ThrowsRangeError, rl)
  | Some reset =>
      let '(ok, rl') := isAllowed t_check identifier rl in
      if negb ok then (i, Rejected429 (ceil_div_1000 (reset - t_retry)%Z), rl')
      else (i, Continue, rl')
  end.

(** A run of [isAllowed] calls for one identifier, one per clock reading. *)
Fixpoint isAllowed_seq (times : list Z) (identifier : string) (rl : RateLimiter)
  : list bool * RateLimiter :=
  match times with
  | [] => ([], rl)
  | t :: ts =>
      let '(b, rl1) := isAllowed t identifier rl in
      let '(bs, rl2) := isAllowed_seq ts identifier rl1 in
      (b :: bs, rl2)
  end.

(** The operations of the class, as a client or the timer may issue them. *)
Inductive op :=
| OpIsAllowed (now : Z) (identifier : string)
| OpGetInfo (now : Z) (identifier : string)
| OpCleanup (now : Z)
| OpReset (identifier : string).

Definition apply_op (rl : RateLimiter) (o : op) : RateLimiter :=
  match o with
  | OpIsAllowed now id => snd (isAllowed now id rl)
  | OpGetInfo _ _ => rl
  | OpCleanup now => cleanup now rl
  | OpReset id => reset id rl
  end.

Definition run (ops : list op) (rl : RateLimiter) : RateLimiter :=
  foldl apply_op rl ops.

(** A clock reading lies within the 60-second window opened at [t0]. *)
Definition in_window (t0 t : Z) : Prop := (t0 <= t < t0 + 60000)%Z.

(** The store has no record of its own under the name of a member of
    [Object.prototype]. *)
Definition plain (rl : RateLimiter) : Prop :=
  forall k, JsObject.inherited k = true -> store rl !! k = None.

(** Every stored counter is at most the configured maximum. *)
Definition bounded (rl : RateLimiter) : Prop :=
  map_Forall (fun _ r => (count r <= maxRequests rl)%Z) (store rl).

End RateLimit.


(** ** src/lib/rateLimit.ts: the identifier of a client *)

Module ClientIdentifier.
Import Regex.

(** The class [\d] *)
Definition digit (c : ascii) : bool :=
  let n := nat_of_ascii c in ((48 <=? n) && (n <=? 57))%nat.

(** The class [[\da-fA-F]] *)
Definition hex (c : ascii) : bool :=
  let n := nat_of_ascii c in
  (digit c || ((97 <=? n) && (n <=? 102)) || ((65 <=? n) && (n <=? 70)))%nat.

(** [c{0,n}] for a class [c], greedy *)
Fixpoint upto (n : nat) (p : ascii -> bool) : regex :=
  match n with
  | O => Eps
  | S n' => Opt (Seq (Cls p) (upto n' p))
  end.

(** [c{1,n}] *)
Definition between1 (n : nat) (p : ascii -> bool) : regex :=
  Seq (Cls p) (upto (n - 1) p).

(** [ipv4Regex]; the group is used for grouping only. *)
Definition ipv4Regex : regex :=
  seqs [Bos; rep 3 (Seq (between1 3 digit) (Chr ".")); between1 3 digit; Eos].

(** [ipv6Regex], with its three alternatives. *)
Definition ipv6Regex : regex :=
  Alt (seqs [Bos; rep 7 (Seq (between1 4 hex) (Chr ":")); between1 4 hex; Eos])
    (Alt (seqs [Bos; lit "::1"; Eos])
         (Seq Bos (lit "fe80:"))).

(** The value of the leading decimal digits of [s], after [acc]. *)
Fixpoint digits_value (acc : nat) (s : string) : nat :=
  match s with
  | String c s' =>
      if digit c then digits_value (10 * acc + (nat_of_ascii c - 48)) s' else acc
  | EmptyString => acc
  end.

(** [parseInt(s, 10)]; [None] is [NaN]. *)
Definition parseInt (s : string) : option Z :=
  let t := JsString.trimStart s in
  let '(negative, body) :=
    match t with
    | String "-" t' => (true, t')
    | String "+" t' => (false, t')
    | _ => (false, t)
    end in
  match body with
  | String c _ =>
      if digit c then
        let v := Z.of_nat (digits_value 0 body) in
        Some (if negative : bool then (- v)%Z else v)
      else None
  | EmptyString => None
  end.

(** [isValidIp(ip)] *)
Definition isValidIp (ip : string) : bool :=
  if negb (test ipv4Regex ip) && negb (test ipv6Regex ip) then false
  else if test ipv4Regex ip then
    forallb (fun octet =>
               match parseInt octet with
               | Some num => ((0 <=? num) && (num <=? 255))%Z
               | None => false
               end)
      (JsString.split_on "." ip)
  else true.

(** The header [x-forwarded-for]: a string or an array of strings. *)
Inductive header :=
| HString (s : string)
| HArray (l : list string).

(** What [getClientIdentifier] reads of a request. *)
Record request := {
  remoteAddress : option string;      (* [req.socket.remoteAddress] *)
  x_forwarded_for : option header;
}.

Definition maxProxyHops : nat := 1.

(** [getClientIdentifier(req)], for a value of
    [TRUSTED_PROXY_CONFIG.trustProxy]. *)
Definition getClientIdentifier (trustProxy : bool) (req : request) : string :=
  let direct := Sanitize.or_else (remoteAddress req) "unknown" in
  if negb trustProxy then direct
  else
    match x_forwarded_for req with
    | None => direct
    | Some (HString EmptyString) => direct
    | Some forwardedFor =>
        let forwardedIps :=
          match forwardedFor with
          | HArray l => head l
          | HString s => Some s
          end in
        match forwardedIps with
        | None => direct
        | Some EmptyString => direct
        | Some ips =>
            let ipList := List.map JsString.trim (JsString.split_on "," ips) in
            if (maxProxyHops + 1 <? length ipList)%nat then direct
            else
              let clientIp := match ipList with ip :: _ => ip | [] => "" end in
              if negb (isValidIp clientIp) then direct else clientIp
        end
    end.

(** One to three digits. *)
Definition octet (s : string) : bool :=
  (1 <=? String.length s)%nat && (String.length s <=? 3)%nat
  && JsString.all_chars digit s.

(** The text holds no comma. *)
Definition no_comma (s : string) : bool :=
  JsString.all_chars (fun c => negb (Ascii.eqb c ",")) s.

End ClientIdentifier.
(** ** src/yt/loader.ts *)

Module Loader.
Import Regex.

(** [[a-zA-Z0-9_-]] *)
Definition id_char (c : ascii) : bool :=
  let n := nat_of_ascii c in
  ((97 <=? n) && (n <=? 122) || (65 <=? n) && (n <=? 90)
   || (48 <=? n) && (n <=? 57) || (n =? 95) || (n =? 45))%nat.

(** [(?:https?:\/\/)?] *)
Definition scheme : regex := Opt (seqs [lit "http"; Opt (Chr "s"); lit "://"]).

(** [(?:www\.)?] *)
Definition www : regex := Opt (lit "www.").

(** [([a-zA-Z0-9_-]{11})] *)
Definition id_group : regex := Group (rep 11 (Cls id_char)).

Definition amp_or_question (c : ascii) : bool := Ascii.eqb c "&" || Ascii.eqb c "?".
Definition question (c : ascii) : bool := Ascii.eqb c "?".

(** The optional query and the end of the input: one character of [first],
    then any run of [.], all of it optional, then [$]. *)
Definition tail_of (first : ascii -> bool) : regex :=
  Seq (Opt (Seq (Cls first) (Star dot))) Eos.

(** [YOUTUBE_URL_PATTERNS], in the order of [Object.values]. *)
Definition standard : regex :=
  seqs [scheme; www; lit "youtube.com/watch?v="; id_group; tail_of amp_or_question].
Definition short : regex :=
  seqs [scheme; www; lit "youtu.be/"; id_group; tail_of question].
Definition embed : regex :=
  seqs [scheme; www; lit "youtube.com/embed/"; id_group; tail_of question].
Definition mobile : regex :=
  seqs [scheme; lit "m.youtube.com/watch?v="; id_group; tail_of amp_or_question].

Definition YOUTUBE_URL_PATTERNS : list regex := [standard; short; embed; mobile].

(** [/^[a-zA-Z0-9_-]{11}$/] *)
Definition bare_id : regex := seqs [Bos; rep 11 (Cls id_char); Eos].

(** The loop over the patterns of [extractVideoId].  A match without its
    group would return [undefined], which is shown as [None] like [null];
    the matches of these patterns always carry their group. *)
Fixpoint first_match (patterns : list regex) (input : string) : option string :=
  match patterns with
  | [] => None
  | p :: ps =>
      match match1 p input with
      | Some (Some id) => Some id
      | Some None => None
      | None => first_match ps input
      end
  end.

(** [extractVideoId(input)]; [None] is [null]. *)
Definition extractVideoId (input : string) : option string :=
  if String.eqb (JsString.trim input) "" then None
  else if test bare_id input then Some input
  else first_match YOUTUBE_URL_PATTERNS input.

(** The four URL shapes, in words: an optional scheme, an optional [www.]
    (not for the mobile host), the host and path of the shape, the
    identifier of 11 characters, and nothing more or a query that starts
    with [?] (or [&] after [watch?v=]) and holds no line terminator. *)
Inductive url_kind := Watch | Short | Embed | Mobile.

Definition host_path (k : url_kind) : string :=
  match k with
  | Watch => "youtube.com/watch?v="
  | Short => "youtu.be/"
  | Embed => "youtube.com/embed/"
  | Mobile => "m.youtube.com/watch?v="
  end.

Definition pattern_of (k : url_kind) : regex :=
  match k with
  | Watch => standard
  | Short => short
  | Embed => embed
  | Mobile => mobile
  end.

(** What comes before the identifier in the pattern of a shape. *)
Definition prefix_of (k : url_kind) : regex :=
  match k with
  | Mobile => Seq scheme (lit (host_path Mobile))
  | _ => Seq scheme (Seq www (lit (host_path k)))
  end.

Definition query_start (k : url_kind) : ascii -> bool :=
  match k with
  | Watch | Mobile => amp_or_question
  | Short | Embed => question
  end.

Definition is_id (s : string) : bool :=
  (String.length s =? 11)%nat && JsString.all_chars id_char s.

Definition is_query (k : url_kind) (tail : string) : bool :=
  match tail with
  | EmptyString => true
  | String c t => query_start k c && JsString.all_chars dot t
  end.

Definition is_scheme (s : string) : Prop :=
  s = "" \/ s = "http://" \/ s = "https://".

Definition is_www (k : url_kind) (w : string) : Prop :=
  w = "" \/ (k <> Mobile /\ w = "www.").

Inductive valid_url (k : url_kind) (id : string) : string -> Prop :=
| valid_url_intro sch w tail :
    is_scheme sch -> is_www k w -> is_id id = true -> is_query k tail = true ->
    valid_url k id (sch +:+ w +:+ host_path k +:+ id +:+ tail).

(** A [Document] of the transcript source; [pageContent] may be missing. *)
Record Document := { pageContent : option string }.

(** What one call of [loader.load()] does. *)
Inductive load_outcome :=
| Throws (message : string)
| Returns (docs : option (list Document)).   (* [None]: a falsy value *)

(** What [retryWithBackoff] does besides calling [fn]. *)
Inductive retry_event :=
| OnRetry (attempt maxRetries : nat)
| Sleep (delay : nat).

(** The loop of [retryWithBackoff], entered at [attempt] with [fuel] more
    iterations to go ([fuel = maxRetries + 1 - attempt]); [lastError] is the
    variable of that name.  The result is the trace of hooks and delays and
    either the thrown message or the value of [fn]. *)
Fixpoint retry_loop (fn : nat -> load_outcome) (maxRetries initialDelay
    backoffMultiplier : nat) (fuel attempt : nat) (lastError : string)
  : list retry_event * (string + option (list Document)) :=
  match fuel with
  | O => ([], inl lastError)
  | S fuel' =>
      let hook := if (0 <? attempt)%nat then [OnRetry attempt maxRetries] else [] in
      match fn attempt with
      | Returns docs => (hook, inr docs)
      | Throws e =>
          let wait :=
            if (attempt <? maxRetries)%nat
            then [Sleep (initialDelay * backoffMultiplier ^ attempt)] else [] in
          let '(tr, res) :=
            retry_loop fn maxRetries initialDelay backoffMultiplier fuel'
              (S attempt) e in
          (hook ++ wait ++ tr, res)
      end
  end.

(** [retryWithBackoff(fn, maxRetries, initialDelay, backoffMultiplier, onRetry)] *)
Definition retryWithBackoff (fn : nat -> load_outcome)
    (maxRetries initialDelay backoffMultiplier : nat)
  : list retry_event * (string + option (list Document)) :=
  retry_loop fn maxRetries initialDelay backoffMultiplier (S maxRetries) 0 "undefined".

Record TranscriptResult := {
  id : string;
  text : string;
  docs : list Document;
}.

Record FetchTranscriptOptions := {
  maxRetries : nat;
  retryDelay : nat;
}.

(** The defaults [maxRetries = 3], [retryDelay = 1000]. *)
Definition default_options : FetchTranscriptOptions :=
  {| maxRetries := 3; retryDelay := 1000 |}.

(** The flat text of the passages:
    [docs.map(d => d.pageContent ?? "").filter(c => c.length > 0).join(" ")] *)
Definition flat_text (ds : list Document) : string :=
  JsString.join " "
    (List.filter (fun c => (0 <? String.length c)%nat)
       (List.map (fun d => match pageContent d with Some c => c | None => "" end) ds)).

(** [fetchTranscript(videoUrlOrId, options)]; [load] stands for
    [YoutubeLoader.createFromUrl(url, ...).load()] at each attempt.  A
    thrown [Error] is represented by its message. *)
Definition fetchTranscript (videoUrlOrId : string) (options : FetchTranscriptOptions)
    (load : nat -> load_outcome) : string + TranscriptResult :=
  if String.eqb (JsString.trim videoUrlOrId) "" then inl "Video URL or ID is required"
  else
    match extractVideoId videoUrlOrId with
    | None => inl ("Invalid YouTube URL or video ID: " +:+ videoUrlOrId)
    | Some vid =>
        let failed message :=
          inl ("Failed to fetch transcript for video " +:+ vid +:+ ": " +:+ message) in
        match snd (retryWithBackoff load (maxRetries options) (retryDelay options) 2) with
        | inl message => failed message
        | inr None => failed ("No transcript found for video: " +:+ vid)
        | inr (Some []) => failed ("No transcript found for video: " +:+ vid)
        | inr (Some ds) => inr {| id := vid; text := flat_text ds; docs := ds |}
        end
    end.

(** The delays slept and the attempts announced to [onRetry], as a trace
    of [retryWithBackoff] shows them. *)
Definition sleeps (trace : list retry_event) : list nat :=
  omap (fun e => match e with Sleep d => Some d | _ => None end) trace.

Definition announced (trace : list retry_event) : list nat :=
  omap (fun e => match e with OnRetry a _ => Some a | _ => None end) trace.

(** A passage without text. *)
Definition blank (d : Document) : bool :=
  match pageContent d with
  | Some c => String.eqb c ""
  | None => true
  end.

End Loader.

(** ** src/lib/compression.ts *)

Module Compression.

(** [[.!?]] *)
Definition sentence_end (c : ascii) : bool :=
  Ascii.eqb c "." || Ascii.eqb c "!" || Ascii.eqb c "?".

(** [s.split(/c+/)] for a character class [c]: the pieces between the
    maximal runs of [c]; [in_run] tells that the previous character was in
    the class.  The head of the result is the piece being read. *)
Fixpoint split_runs (p : ascii -> bool) (in_run : bool) (s : string) : list string :=
  match s with
  | EmptyString => [""]
  | String c s' =>
      if p c then
        if in_run then split_runs p true s' else "" :: split_runs p true s'
      else
        match split_runs p false s' with
        | piece :: pieces => String c piece :: pieces
        | [] => [String c ""]
        end
  end.

Definition split (p : ascii -> bool) (s : string) : list string :=
  split_runs p false s.

(** The comparator [(a, b) => b.score - a.score] with the stable
    [Array.prototype.sort]: an element goes after those of a strictly
    greater score and before those it preceded. *)
Fixpoint insert_by_score (x : string * nat) (l : list (string * nat))
  : list (string * nat) :=
  match l with
  | [] => [x]
  | y :: l' =>
      if (snd x <? snd y)%nat then y :: insert_by_score x l' else x :: y :: l'
  end.

Fixpoint sort_by_score (l : list (string * nat)) : list (string * nat) :=
  match l with
  | [] => []
  | x :: l' => insert_by_score x (sort_by_score l')
  end.

(** The lower-cased words of the query that are longer than 3. *)
Definition queryTerms (query : string) : list string :=
  List.filter (fun term => (3 <? String.length term)%nat)
    (split JsString.is_space (JsString.toLowerCase query)).

(** The trimmed pieces of the text that are longer than 20. *)
Definition sentences (text : string) : list string :=
  List.filter (fun s => (20 <? String.length s)%nat)
    (List.map JsString.trim (split sentence_end text)).

(** The number of query terms that a sentence contains. *)
Definition score (terms : list string) (sentence : string) : nat :=
  length (List.filter (fun term => JsString.includes (JsString.toLowerCase sentence) term)
            terms).

(** [ContextualCompressor.extractRelevantSentences(text, query, maxSentences)] *)
Definition extractRelevantSentences (text query : string) (maxSentences : nat)
  : string :=
  let terms := queryTerms query in
  let scoredSentences := List.map (fun s => (s, score terms s)) (sentences text) in
  let topSentences :=
    List.map fst
      (List.filter (fun s => (0 <? snd s)%nat)
         (firstn maxSentences (sort_by_score scoredSentences))) in
  match topSentences with
  | [] => JsString.join ". " (firstn maxSentences (sentences text)) +:+ "."
  | _ => JsString.join ". " topSentences +:+ "."
  end.

(** [quickCompress(docs, query, sentencesPerDoc)] over the texts of the
    documents; every result is paired with its document. *)
Definition quickCompress {D : Type} (pageContent : D -> string) (docs : list D)
    (query : string) (sentencesPerDoc : nat) : list (D * string) :=
  List.map (fun doc => (doc, extractRelevantSentences (pageContent doc) query sentencesPerDoc))
    docs.

(** The [content] of the model's response: a string, or something else
    that [String(...)] shows as [shown]. *)
Inductive response_content :=
| RString (s : string)
| ROther (shown : string).

(** What [this.model.invoke(prompt)] does. *)
Inductive model_outcome :=
| ModelThrows
| ModelReturns (content : response_content).

Definition prompt (pageContent query : string) : string :=
  "Given the following text excerpt and a question, extract ONLY the sentences or phrases that are directly relevant to answering the question. If nothing is relevant, return "
  +:+ String "034" "NOT_RELEVANT" +:+ String "034" "."
  +:+ String "010" (String "010" "Question: ") +:+ query
  +:+ String "010" (String "010" "Excerpt:") +:+ String "010" pageContent
  +:+ String "010" (String "010" "Relevant content (be concise):").

(** [compressedLength < originalLength * 0.8].  The product is a double;
    for lengths below 2^50 its comparison with an integer agrees with the
    comparison of [5 * compressedLength] and [4 * originalLength]. *)
Definition shorter_by_a_fifth (compressedLength originalLength : nat) : bool :=
  (5 * compressedLength <? 4 * originalLength)%nat.

(** [compressDocument(doc, query)]: the pair of [content] and [compressed]. *)
Definition compressDocument (model : string -> model_outcome)
    (pageContent query : string) : string * bool :=
  match model (prompt pageContent query) with
  | ModelThrows => (pageContent, false)
  | ModelReturns response =>
      let content :=
        match response with
        | RString s => JsString.trim s
        | ROther shown => shown
        end in
      if String.eqb content "NOT_RELEVANT" || String.eqb content "" then ("", true)
      else if shorter_by_a_fifth (String.length content) (String.length pageContent)
      then (content, true)
      else (pageContent, false)
  end.


(** The [topSentences] of [extractRelevantSentences]: the sentences kept
    after the sort, the cut and the filter on the score. *)
Definition topSentences (text query : string) (maxSentences : nat) : list string :=
  List.map fst
    (List.filter (fun s => (0 <? snd s)%nat)
       (firstn maxSentences
          (sort_by_score
             (List.map (fun s => (s, score (queryTerms query) s)) (sentences text))))).

(** A list of scored sentences in which no score is followed by a greater
    one. *)
Fixpoint descending (l : list (string * nat)) : Prop :=
  match l with
  | [] => True
  | x :: l' => (forall y, In y l' -> snd y <= snd x) /\ descending l'
  end.

(** One element of the result of [compressDocuments]. *)
Record Compressed (D : Type) := {
  doc : D;
  compressed : string;
  wasCompressed : bool;
  originalLength : nat;
  compressedLength : nat;
}.

Arguments doc {D} _.
Arguments compressed {D} _.
Arguments wasCompressed {D} _.
Arguments originalLength {D} _.
Arguments compressedLength {D} _.

Section Batches.

Context {D : Type}.
Variable model : string -> model_outcome.
Variable pageContent : D -> string.
Variable query : string.

(** The function mapped over a batch. *)
Definition compress_one (d : D) : Compressed D :=
  let r := compressDocument model (pageContent d) query in
  {| doc := d;
     compressed := fst r;
     wasCompressed := snd r;
     originalLength := String.length (pageContent d);
     compressedLength := String.length (fst r) |}.

(** [for (let i = 0; i < docs.length; i += maxConcurrent)]: a batch is
    [docs.slice(i, i + maxConcurrent)]; the results of a batch are pushed
    in the order of the batch.  Without fuel left the loop has not ended. *)
Fixpoint compress_loop (docs : list D) (maxConcurrent fuel i : nat)
    (results : list (Compressed D)) : option (list (Compressed D)) :=
  if (i <? length docs)%nat then
    match fuel with
    | 0 => None
    | S fuel' =>
        let batch := firstn maxConcurrent (skipn i docs) in
        compress_loop docs maxConcurrent fuel' (i + maxConcurrent)
          (results ++ List.map compress_one batch)
    end
  else Some results.

(** [compressDocuments(docs, query, maxConcurrent)], run for at most [fuel]
    batches. *)
Definition compressDocuments (docs : list D) (maxConcurrent fuel : nat)
  : option (list (Compressed D)) :=
  compress_loop docs maxConcurrent fuel 0 [].

End Batches.

End Compression.

(** ** src/yt/rag.ts *)

Module Rag.

(** A retrieved passage: its text and the [startTime] of its metadata, in
    whole seconds. *)
Record Document := {
  pageContent : string;
  startTime : option nat;
}.

Definition show_nat (n : nat) : string := NilEmpty.string_of_uint (Nat.to_uint n).

(** [formatTimestamp(seconds)] *)
Definition formatTimestamp (seconds : nat) : string :=
  let mins := (seconds / 60)%nat in
  let secs := (seconds mod 60)%nat in
  show_nat mins +:+ ":" +:+ (if (secs <? 10)%nat then "0" else "") +:+ show_nat secs.

Section WithScore.

(** Relevance scores are numbers of the vector store; [percent score]
    stands for [(score * 100).toFixed(1)]. *)
Variable Score : Type.
Variable percent : Score -> string.

(** The vector store behind [PineconeStore]: whether a namespace exists in
    it, which [queryRag] never asks, and what a similarity search in a
    namespace answers: a thrown error or the ranked passages. *)
Record VectorIndex := {
  namespaceExists : string -> bool;
  similaritySearchWithScore :
    string -> string -> nat -> string + list (Document * Score);
}.

Record QueryResult := {
  context : string;
  results : list (Document * Score);
  compressionUsed : bool;
}.

(** One section of the context, for the passage at [index]. *)
Definition format_excerpt (index : nat) (r : Document * Score) : string :=
  let timestamp :=
    match startTime (fst r) with
    | Some t => "[" +:+ formatTimestamp t +:+ "]"
    | None => ""
    end in
  "Excerpt #" +:+ show_nat (index + 1) +:+ " " +:+ timestamp
  +:+ " (relevance: " +:+ percent (snd r) +:+ "%):" +:+ String "010" ""
  +:+ pageContent (fst r) +:+ String "010" "".

Definition format_context (rs : list (Document * Score)) : string :=
  JsString.join (String "010" "---" +:+ String "010" "")
    (imap format_excerpt rs).

(** [queryRag(videoId, question, k, useCompression)]; a thrown error is its
    message. *)
Definition queryRag (index : VectorIndex) (videoId question : string) (k : nat)
    (useCompression : bool) : string + QueryResult :=
  let retrievalK := if useCompression then Nat.min (k * 2) 10 else k in
  match similaritySearchWithScore index videoId question retrievalK with
  | inl error => inl error
  | inr resultsWithScores =>
      let processedResults :=
        if useCompression && (0 <? length resultsWithScores)%nat then
          firstn k
            (List.filter
               (fun r => (0 <? String.length (JsString.trim (pageContent (fst r))))%nat)
               (List.map
                  (fun c =>
                     ({| pageContent := snd c; startTime := startTime (fst (fst c)) |},
                      snd (fst c)))
                  (Compression.quickCompress (fun r => pageContent (fst r))
                     resultsWithScores question 3)))
        else resultsWithScores in
      inr {| context := format_context processedResults;
             results := processedResults;
             compressionUsed := useCompression |}
  end.

(** What compression makes of a retrieved passage: the selected sentences
    with the metadata and the score of the passage. *)
Definition compress_result (question : string) (r : Document * Score)
  : Document * Score :=
  ({| pageContent := Compression.extractRelevantSentences (pageContent (fst r)) question 3;
      startTime := startTime (fst r) |},
   snd r).

End WithScore.

Arguments namespaceExists {Score} _ _.
Arguments similaritySearchWithScore {Score} _ _ _ _.
Arguments context {Score} _.
Arguments results {Score} _.
Arguments compressionUsed {Score} _.
Arguments compress_result {Score} question r.
Arguments format_context {Score} percent rs.
Arguments queryRag {Score} percent index videoId question k useCompression.

(** The decimal digit of a number below ten. *)
Definition digit (n : nat) : ascii := ascii_of_nat (48 + n).

End Rag.

(** ** pages/api/ask.ts *)

Module Ask.
Import Sanitize.

(** The content of a message: a string, or a list of content blocks, each
    a string or an object with a [type] and possibly a [text]. *)
Inductive block :=
| BString (s : string)
| BObject (type : string) (text : option string).

Inductive content :=
| CUndefined
| CString (s : string)
| CBlocks (blocks : list block).

Record tool_call := { tc_name : string; tc_args : jsval }.

Record message := {
  m_type : string;
  m_content : content;
  m_tool_calls : list tool_call;     (* empty when the property is absent *)
  m_name : option string;
}.

(** A chunk of the stream in [values] mode: [chunk.messages || []]. *)
Definition chunk := list message.

(** The records written to the response. *)
Inductive event :=
| Token (content : string)
| ToolStart (tool : string) (args : jsval)
| ToolEnd (tool : string) (result : string)
| Done
| ErrorEvent (message : string).

(** [JSON.stringify] of a string: quotes, with the escapes of the
    language. *)
Definition hex_digit (n : nat) : ascii :=
  if (n <? 10)%nat then ascii_of_nat (48 + n) else ascii_of_nat (87 + n).

Definition json_escape_char (c : ascii) : string :=
  let n := nat_of_ascii c in
  if (n =? 34)%nat then String "\" (String "034" "")
  else if (n =? 92)%nat then "\\"
  else if (n =? 8)%nat then "\b"
  else if (n =? 12)%nat then "\f"
  else if (n =? 10)%nat then "\n"
  else if (n =? 13)%nat then "\r"
  else if (n =? 9)%nat then "\t"
  else if (n <? 32)%nat then
    "\u00" +:+ String (hex_digit (n / 16)) (String (hex_digit (n mod 16)) "")
  else String c "".

Fixpoint json_escape (s : string) : string :=
  match s with
  | EmptyString => ""
  | String c s' => json_escape_char c +:+ json_escape s'
  end.

Definition json_string (s : string) : string :=
  String "034" (json_escape s) +:+ String "034" "".

Definition json_block (b : block) : string :=
  match b with
  | BString s => json_string s
  | BObject type text =>
      "{" +:+ json_string "type" +:+ ":" +:+ json_string type
      +:+ match text with
          | Some t => "," +:+ json_string "text" +:+ ":" +:+ json_string t
          | None => ""
          end
      +:+ "}"
  end.

(** [JSON.stringify(lastMessage.content || "")] *)
Definition json_content (c : content) : string :=
  match c with
  | CUndefined => json_string ""
  | CString s => json_string s
  | CBlocks blocks => "[" +:+ JsString.join "," (List.map json_block blocks) +:+ "]"
  end.

(** The key built for the last message of a chunk. *)
Definition messageKey (lastMessage : message) : string :=
  m_type lastMessage +:+ "-" +:+ json_content (m_content lastMessage).

(** Truthiness of [lastMessage.content] *)
Definition content_truthy (c : content) : bool :=
  match c with
  | CUndefined => false
  | CString s => negb (String.eqb s "")
  | CBlocks _ => true
  end.

(** The text of the answer: the string itself, or the texts of the blocks
    joined by the empty string. *)
Definition content_text (c : content) : string :=
  match c with
  | CUndefined => ""
  | CString s => s
  | CBlocks blocks =>
      JsString.join ""
        (List.map (fun b => match b with
                            | BString s => s
                            | BObject _ (Some t) => t
                            | BObject _ None => ""
                            end) blocks)
  end.

(** The variables of one request. *)
Record state := {
  messageBuffer : string;
  lastToolName : string;
  sentMessages : gset string;
}.

Definition initial : state :=
  {| messageBuffer := ""; lastToolName := ""; sentMessages := ∅ |}.

(** An AI message with content and without tool calls: the final answer. *)
Definition is_answer (lastMessage : message) : bool :=
  String.eqb (m_type lastMessage) "ai"
  && content_truthy (m_content lastMessage)
  && (length (m_tool_calls lastMessage) =? 0)%nat.

(** The first [if] of the loop body. *)
Definition handle_answer (st : state) (lastMessage : message) : state * list event :=
  if is_answer lastMessage then
    let content := content_text (m_content lastMessage) in
    if negb (String.eqb content "")
       && negb (String.eqb content (messageBuffer st))
       && negb (bool_decide (messageKey lastMessage ∈ sentMessages st))
    then
      ({| messageBuffer := content;
          lastToolName := lastToolName st;
          sentMessages := {[ messageKey lastMessage ]} ∪ sentMessages st |},
       [Token (sanitizeHTML content)])
    else (st, [])
  else (st, []).

(** The second [if]: only the first tool call is looked at. *)
Definition handle_tool_calls (st : state) (lastMessage : message)
  : state * list event :=
  if String.eqb (m_type lastMessage) "ai" then
    match m_tool_calls lastMessage with
    | toolCall :: _ =>
        if negb (String.eqb (tc_name toolCall) (lastToolName st)) then
          ({| messageBuffer := messageBuffer st;
              lastToolName := tc_name toolCall;
              sentMessages := sentMessages st |},
           [ToolStart (sanitizeHTML (tc_name toolCall))
                      (sanitizeToolArgs (tc_args toolCall))])
        else (st, [])
    | [] => (st, [])
    end
  else (st, []).

(** The third [if]: tool results. *)
Definition handle_tool_result (st : state) (lastMessage : message)
  : state * list event :=
  if String.eqb (m_type lastMessage) "tool" then
    let toolKey :=
      "tool-" +:+ match m_name lastMessage with Some n => n | None => "undefined" end in
    if negb (bool_decide (toolKey ∈ sentMessages st)) then
      ({| messageBuffer := messageBuffer st;
          lastToolName := lastToolName st;
          sentMessages := {[ toolKey ]} ∪ sentMessages st |},
       [ToolEnd (sanitizeHTML (or_else (m_name lastMessage) ""))
                match m_content lastMessage with
                | CString s => truncate (sanitizeHTML s) 200
                | _ => "Result received"
                end])
    else (st, [])
  else (st, []).

(** The body of [for await (const chunk of stream)]. *)
Definition step (st : state) (c : chunk) : state * list event :=
  match last c with
  | None => (st, [])
  | Some lastMessage =>
      let '(st1, ev1) := handle_answer st lastMessage in
      let '(st2, ev2) := handle_tool_calls st1 lastMessage in
      let '(st3, ev3) := handle_tool_result st2 lastMessage in
      (st3, ev1 ++ ev2 ++ ev3)
  end.

(** The whole loop, from a state. *)
Fixpoint process_from (st : state) (chunks : list chunk) : state * list event :=
  match chunks with
  | [] => (st, [])
  | c :: rest =>
      let '(st1, ev1) := step st c in
      let '(st2, ev2) := process_from st1 rest in
      (st2, ev1 ++ ev2)
  end.

Definition process (chunks : list chunk) : list event :=
  snd (process_from initial chunks).

(** What the agent does for one request: [agent.stream(...)] may throw;
    otherwise the stream yields chunks and either ends or throws. *)
Record agent_run := {
  start_error : option error_value;
  chunks : list chunk;
  stream_error : option error_value;
}.

Record request := {
  method : string;
  url : option string;
  question : option string;
}.

Inductive response :=
| Json (status : nat) (error message : string)
| Json429 (retryAfter : Z)
| EventStream (events : list event).

Definition ValidationError (message : string) : error_value :=
  Error "ValidationError" message.

(** Step 2 of [handler]: the body is checked; the result is the thrown
    error or the pair of [url] and [question]. *)
Definition validate (req : request) : error_value + (string * string) :=
  match url req with
  | None => inl (ValidationError "URL parameter is required and cannot be empty")
  | Some u =>
      if String.eqb (JsString.trim u) "" then
        inl (ValidationError "URL parameter is required and cannot be empty")
      else
        match question req with
        | None => inl (ValidationError "Question parameter is required and cannot be empty")
        | Some q =>
            if String.eqb (JsString.trim q) "" then
              inl (ValidationError "Question parameter is required and cannot be empty")
            else if negb (JsString.includes u "youtube.com")
                    && negb (JsString.includes u "youtu.be") then
              inl (ValidationError
                     "Invalid YouTube URL. Please provide a valid youtube.com or youtu.be URL")
            else if (500 <? String.length q)%nat then
              inl (ValidationError "Question is too long. Maximum 500 characters allowed")
            else inr (u, q)
        end
  end.

(** The single user message given to the agent. *)
Definition user_message (u q : string) : string :=
  "URL: " +:+ u +:+ String "010" "Question: " +:+ q.

(** The [catch] block of [handler]. *)
Definition on_error (written : list event) (error : error_value) : response :=
  EventStream (written ++ [ErrorEvent (sanitizeErrorMessage error)]).

(** [handler(req, res)]: what is written to the response. *)
Definition handler (agent : string -> agent_run) (req : request) : response :=
  if negb (String.eqb (method req) "POST") then
    Json 405 "Method Not Allowed" "Only POST requests are accepted"
  else
    match validate req with
    | inl error => on_error [] error
    | inr (u, q) =>
        let run := agent (user_message u q) in
        match start_error run with
        | Some error => on_error [] error
        | None =>
            let written := process (chunks run) in
            match stream_error run with
            | Some error => on_error written error
            | None => EventStream (written ++ [Done])
            end
        end
    end.

(** [export default withRateLimit(handler)]; the three clock readings are
    those of [RateLimit.withRateLimit].  [None]: the wrapper throws and
    writes no response. *)
Definition endpoint (t_info t_check t_retry : Z) (identifier : string)
    (rl : RateLimit.RateLimiter) (agent : string -> agent_run) (req : request)
  : option response * RateLimit.RateLimiter :=
  match RateLimit.withRateLimit t_info t_check t_retry identifier rl with
  | (_, RateLimit.Rejected429 retryAfter, rl') => (Some (Json429 retryAfter), rl')
  | (_, RateLimit.Continue, rl') => (Some (handler agent req), rl')
  | (_, RateLimit.ThrowsRangeError, rl') => (None, rl')
  end.

(** The contents of the [token] events, in the order of emission. *)
Definition tokens (evs : list event) : list string :=
  omap (fun e => match e with Token c => Some c | _ => None end) evs.

(** The tool names of the [tool_start] events, in the order of emission. *)
Definition tool_starts (evs : list event) : list string :=
  omap (fun e => match e with ToolStart t _ => Some t | _ => None end) evs.

Definition is_terminator (e : event) : bool :=
  match e with Done | ErrorEvent _ => true | _ => false end.

(** The text of the answer that a chunk shows, when its last message is
    an answer. *)
Definition answer_text (c : chunk) : option string :=
  match last c with
  | Some lastMessage =>
      if is_answer lastMessage then Some (content_text (m_content lastMessage))
      else None
  | None => None
  end.

(** The final answer of a stream: the answer shown by its last chunk. *)
Definition final_answer (chunks : list chunk) : option string :=
  match last chunks with
  | Some c => answer_text c
  | None => None
  end.

(** The tool names observed in a stream: for each chunk whose last message
    is an AI message with tool calls, the name of the first call. *)
Definition observed_tools (chunks : list chunk) : list string :=
  omap (fun c : chunk =>
          match last c with
          | Some lastMessage =>
              if String.eqb (m_type lastMessage) "ai" then
                match m_tool_calls lastMessage with
                | toolCall :: _ => Some (tc_name toolCall)
                | [] => None
                end
              else None
          | None => None
          end) chunks.

(** A run of equal names observed in a row counts once; [previous] is the
    name that was announced last. *)
Fixpoint collapse (previous : string) (names : list string) : list string :=
  match names with
  | [] => []
  | n :: ns =>
      if String.eqb n previous then collapse previous ns else n :: collapse n ns
  end.

(** No two neighbours of the list are equal. *)
Fixpoint no_repeat (l : list string) : Prop :=
  match l with
  | a :: (b :: _) as l' => a <> b /\ no_repeat l'
  | _ => True
  end.

(** Invariant of the loop before the first token: [messageBuffer] is empty
    and [sentMessages] holds keys of tool results only. *)
Definition fresh (st : state) : Prop :=
  messageBuffer st = "" /\
  forall k, k ∈ sentMessages st -> exists x, k = "tool-" +:+ x.

(** Sample messages: an AI message that calls a tool, and an AI message
    that answers. *)
Definition ai_calls (name : string) : message :=
  {| m_type := "ai"; m_content := CString "";
     m_tool_calls := [{| tc_name := name; tc_args := JObject [] |}];
     m_name := None |}.

Definition ai_says (text : string) : message :=
  {| m_type := "ai"; m_content := CString text; m_tool_calls := []; m_name := None |}.

(** [!field?.trim()] for a field of the body *)
Definition blank_field (field : option string) : bool :=
  match field with
  | Some s => String.eqb (JsString.trim s) ""
  | None => true
  end.

(** The tool names and the results of the [tool_end] events, in the order
    of emission. *)
Definition tool_ends (evs : list event) : list (string * string) :=
  omap (fun e => match e with ToolEnd t r => Some (t, r) | _ => None end) evs.

(** The tool results observed in a stream: for each chunk whose last
    message is a tool message, its name and its content. *)
Definition tool_results (chunks : list chunk) : list (option string * content) :=
  omap (fun c : chunk =>
          match last c with
          | Some lastMessage =>
              if String.eqb (m_type lastMessage) "tool"
              then Some (m_name lastMessage, m_content lastMessage)
              else None
          | None => None
          end) chunks.

(** The key under which a tool result is remembered. *)
Definition toolKey (name : option string) : string :=
  "tool-" +:+ match name with Some n => n | None => "undefined" end.

(** The results whose key is not in [seen] and was not met before in the
    list. *)
Fixpoint first_results (seen : gset string) (l : list (option string * content))
  : list (option string * content) :=
  match l with
  | [] => []
  | r :: l' =>
      if bool_decide (toolKey (fst r) ∈ seen) then first_results seen l'
      else r :: first_results ({[ toolKey (fst r) ]} ∪ seen) l'
  end.

(** What a [tool_end] event shows of a tool result. *)
Definition tool_end_of (r : option string * content) : string * string :=
  (sanitizeHTML (or_else (fst r) ""),
   match snd r with
   | CString s => truncate (sanitizeHTML s) 200
   | _ => "Result received"
   end).

(** An event whose texts hold no markup character and whose tool result
    has at most 203 characters. *)
Definition event_clean (e : event) : bool :=
  match e with
  | Token c => no_markup c
  | ToolStart t a => no_markup t && all_strings no_markup a
  | ToolEnd t r => no_markup t && no_markup r && (String.length r <=? 203)%nat
  | Done => true
  | ErrorEvent m => no_markup m
  end.

(** The arguments of every tool call of the stream are JSON values. *)
Definition json_calls (chunks : list chunk) : bool :=
  forallb (fun c : chunk =>
             forallb (fun m => forallb (fun tc => is_json (tc_args tc)) (m_tool_calls m)) c)
    chunks.

(** The answer that the chunk shows, if any, has a string as content. *)
Definition plain_answer (c : chunk) : bool :=
  match last c with
  | Some lastMessage =>
      if is_answer lastMessage then
        match m_content lastMessage with CString _ => true | _ => false end
      else true
  | None => true
  end.

End Ask.


(** ** src/lib/agentManager.ts *)

Module AgentManager.

Section WithAgent.

(** The agents, and [createYouTubeAgent(modelName)] with the default
    system prompt. *)
Variable Agent : Type.
Variable createYouTubeAgent : string -> Agent.

(** The fields of the singleton. *)
Record manager := {
  agent : option Agent;
  modelName : string;
}.

(** [new AgentManager()] *)
Definition initial_manager : manager := {| agent := None; modelName := "gpt-4o-mini" |}.

(** [getAgent()]: the agent returned, the manager after the call, and
    whether an agent was created. *)
Definition getAgent (m : manager) : Agent * manager * bool :=
  match agent m with
  | Some a => (a, m, false)
  | None =>
      let a := createYouTubeAgent (modelName m) in
      (a, {| agent := Some a; modelName := modelName m |}, true)
  end.

(** [resetAgent()] *)
Definition resetAgent (m : manager) : manager :=
  {| agent := None; modelName := modelName m |}.

(** [setModelName(modelName)] *)
Definition setModelName (name : string) (m : manager) : manager :=
  if negb (String.eqb (modelName m) name)
  then resetAgent {| agent := agent m; modelName := name |}
  else m.

(** The calls made on the singleton. *)
Inductive call :=
| GetAgent
| ResetAgent
| SetModelName (name : string).

(** A call on a manager; the number counts the agents created so far. *)
Definition apply_call (s : manager * nat) (c : call) : manager * nat :=
  match c with
  | GetAgent =>
      let '(_, m', created) := getAgent (fst s) in
      (m', if created then S (snd s) else snd s)
  | ResetAgent => (resetAgent (fst s), snd s)
  | SetModelName name => (setModelName name (fst s), snd s)
  end.

(** The singleton after a history of calls. *)
Definition run_calls (calls : list call) : manager * nat :=
  fold_left apply_call calls (initial_manager, 0).

(** The model name that a history of calls leaves. *)
Definition configured (calls : list call) : string :=
  fold_left (fun name c => match c with SetModelName n => n | _ => name end)
    calls "gpt-4o-mini".

(** The calls of a history that may discard the agent. *)
Definition discards (calls : list call) : nat :=
  length (List.filter (fun c => match c with GetAgent => false | _ => true end) calls).

End WithAgent.

Arguments agent {Agent} _.
Arguments modelName {Agent} _.
Arguments initial_manager {Agent}.
Arguments getAgent {Agent} createYouTubeAgent m.
Arguments resetAgent {Agent} m.
Arguments setModelName {Agent} name m.
Arguments apply_call {Agent} createYouTubeAgent s c.
Arguments run_calls {Agent} createYouTubeAgent calls.

End AgentManager.

(** ** src/lib/errors.ts, src/lib/toolErrorHandler.ts and the tools of
    src/yt/agent.ts *)

Module Tools.

(** The classes that [toolErrorHandlingMiddleware] tells apart; every
    other [Error] is of the last class. *)
Inductive error_class :=
| ValidationErrorClass
| VideoNotFoundErrorClass
| TranscriptNotFoundErrorClass
| IndexingErrorClass
| QueryErrorClass
| OtherErrorClass.

(** What a tool throws: an [Error] of a class with its message, or a value
    that is no [Error], shown by [String(error)]. *)
Inductive thrown :=
| ThrownError (class : error_class) (message : string)
| ThrownValue (shown : string).

(** The constructors of errors.ts and [new Error(message)]. *)
Definition new_ValidationError (message : string) : thrown :=
  ThrownError ValidationErrorClass message.

Definition new_TranscriptNotFoundError (videoId : string) : thrown :=
  ThrownError TranscriptNotFoundErrorClass
    ("No transcript available for video: " +:+ videoId).

Definition new_VideoNotFoundError (videoId : string) : thrown :=
  ThrownError VideoNotFoundErrorClass ("Video not found: " +:+ videoId).

Definition new_IndexingError (message : string) : thrown :=
  ThrownError IndexingErrorClass ("Indexing failed: " +:+ message).

Definition new_QueryError (message : string) : thrown :=
  ThrownError QueryErrorClass ("Query failed: " +:+ message).

Definition new_Error (message : string) : thrown :=
  ThrownError OtherErrorClass message.

(** The [errorMessage] of the middleware. *)
Definition toolErrorMessage (error : thrown) : string :=
  match error with
  | ThrownError ValidationErrorClass message =>
      "Input validation error: " +:+ message
  | ThrownError VideoNotFoundErrorClass message =>
      "Video not found: " +:+ message +:+ ". Please check the URL and try again."
  | ThrownError TranscriptNotFoundErrorClass message =>
      "Transcript not available: " +:+ message
      +:+ ". This video may not have captions/subtitles enabled."
  | ThrownError IndexingErrorClass message =>
      "Indexing failed: " +:+ message
      +:+ ". Please try again or contact support if the issue persists."
  | ThrownError QueryErrorClass message =>
      "Search failed: " +:+ message +:+ ". Make sure the video has been indexed first."
  | ThrownError OtherErrorClass message => "Tool error: " +:+ message
  | ThrownValue shown => "An unexpected error occurred: " +:+ shown
  end.

(** [wrapToolCall(request, handler)]: the outcome of the tool is the
    message that [handler] returns or what it throws; the [ToolMessage]
    built for an error has a content and a [tool_call_id], and no name. *)
Definition wrapToolCall (outcome : thrown + Ask.message) : Ask.message :=
  match outcome with
  | inr message => message
  | inl error =>
      {| Ask.m_type := "tool";
         Ask.m_content := Ask.CString (toolErrorMessage error);
         Ask.m_tool_calls := [];
         Ask.m_name := None |}
  end.

(** [extract_video_id] *)
Definition extractVideoIdTool (url : string) : thrown + string :=
  let failure :=
    inl (new_VideoNotFoundError ("Could not extract video ID from URL: " +:+ url)) in
  match Loader.extractVideoId url with
  | Some videoId =>
      if String.eqb videoId "" then failure
      else inr ("Extracted video ID: " +:+ videoId)
  | None => failure
  end.

(** [fetch_transcript]: the content for the model and the artifact. *)
Definition fetchTranscriptTool (videoUrlOrId language : string)
    (load : nat -> Loader.load_outcome) : thrown + string * Loader.TranscriptResult :=
  match Loader.fetchTranscript videoUrlOrId Loader.default_options load with
  | inl message => inl (new_Error message)
  | inr transcriptResult =>
      if String.eqb (Loader.id transcriptResult) "" then
        inl (new_Error "Failed to extract video ID")
      else
        let preview := JsString.take 500 (Loader.text transcriptResult) in
        let wordCount :=
          length (Compression.split JsString.is_space (Loader.text transcriptResult)) in
        inr ("Successfully fetched transcript for video "
             +:+ Loader.id transcriptResult +:+ "." +:+ String "010" "Language: "
             +:+ language +:+ String "010" "Word count: ~" +:+ Rag.show_nat wordCount
             +:+ String "010" "Preview: " +:+ preview +:+ "...",
             transcriptResult)
  end.

(** [index_content]; [indexTranscript] stands for the function of rag.ts,
    which answers the number of chunks or throws. *)
Definition indexContentTool (videoUrlOrId language : string)
    (load : nat -> Loader.load_outcome)
    (indexTranscript : string -> string -> thrown + nat) : thrown + string :=
  match Loader.fetchTranscript videoUrlOrId Loader.default_options load with
  | inl message => inl (new_Error message)
  | inr transcriptResult =>
      if String.eqb (Loader.id transcriptResult) "" then
        inl (new_Error "Failed to extract video ID")
      else
        match indexTranscript (Loader.id transcriptResult) (Loader.text transcriptResult) with
        | inl error => inl error
        | inr chunks =>
            inr ("Successfully indexed video " +:+ Loader.id transcriptResult
                 +:+ " into " +:+ Rag.show_nat chunks +:+ " chunks. Ready for querying.")
        end
  end.

(** The tool results of a stream that bear no name. *)
Definition nameless (r : option string * Ask.content) : bool :=
  match fst r with Some _ => false | None => true end.

End Tools.

(** ** The page of the client: reading the event stream *)

Module Client.

(** One turn of the read loop: the chunk is added to the buffer, the
    buffer is split at the line feeds, the last piece is kept as the new
    buffer ([lines.pop() || ""]) and the other pieces are the lines to
    handle. *)
Definition read_step (buffer chunk : string) : list string * string :=
  let lines := JsString.split_on "010" (buffer +:+ chunk) in
  (removelast lines, Sanitize.or_else (last lines) "").

(** The texts given to [JSON.parse]: [line.slice(6)] for the lines that
    start with [data: ]. *)
Definition payloads (lines : list string) : list string :=
  List.map (JsString.drop 6) (List.filter (JsString.startsWith "data: ") lines).

(** The read loop over the chunks that the reader yields; what is left in
    the buffer when the reader is done is not handled. *)
Fixpoint read_loop (buffer : string) (chunks : list string) : list string :=
  match chunks with
  | [] => []
  | chunk :: rest =>
      let '(lines, buffer') := read_step buffer chunk in
      payloads lines ++ read_loop buffer' rest
  end.

(** The text that the chunks make together. *)
Definition received (chunks : list string) : string :=
  fold_right String.append "" chunks.

(** What the page shows. *)
Record view := {
  answer : string;
  status : string;
}.

(** The state when the request is sent. *)
Definition starting : view := {| answer := ""; status := "Starting..." |}.

(** The handling of one parsed event. *)
Definition on_event (v : view) (e : Ask.event) : view :=
  match e with
  | Ask.Token content => {| answer := answer v +:+ content; status := "" |}
  | Ask.ToolStart tool _ =>
      {| answer := answer v; status := "Running: " +:+ tool +:+ "..." |}
  | Ask.ToolEnd tool _ => {| answer := answer v; status := "Completed: " +:+ tool |}
  | Ask.Done => {| answer := answer v; status := "Done!" |}   (* cleared 2 s later *)
  | Ask.ErrorEvent message => {| answer := "Error: " +:+ message; status := "" |}
  end.

(** The page after the events of a response. *)
Definition show (events : list Ask.event) : view :=
  fold_left on_event events starting.

End Client.
(** * Properties *)

(** ** Strings *)

Module JsStringFacts.
Import JsString.

Lemma length_app (s t : string) :
  String.length (s +:+ t) = (String.length s + String.length t)%nat.
Proof. induction s as [|c s IH]; simpl; [reflexivity | now rewrite IH]. Qed.

Lemma app_nil_r (s : string) : s +:+ "" = s.
Proof. induction s as [|c s IH]; simpl; [reflexivity | now rewrite IH]. Qed.

Lemma app_assoc (s t u : string) : (s +:+ t) +:+ u = s +:+ (t +:+ u).
Proof. induction s as [|c s IH]; simpl; [reflexivity | now rewrite IH]. Qed.

Lemma all_chars_app p s t :
  all_chars p (s +:+ t) = all_chars p s && all_chars p t.
Proof.
  induction s as [|c s IH]; simpl; [reflexivity|].
  rewrite IH. apply andb_assoc.
Qed.

Lemma length_take n : forall s, n <= String.length s -> String.length (take n s) = n.
Proof.
  induction n as [|n IH]; intros [|c s]; simpl; intros H; try lia.
  rewrite IH; lia.
Qed.

Lemma length_drop n : forall s, String.length (drop n s) = String.length s - n.
Proof. induction n as [|n IH]; intros [|c s]; simpl; try lia. apply IH. Qed.

Lemma take_drop n : forall s, take n s +:+ drop n s = s.
Proof.
  induction n as [|n IH]; intros [|c s]; simpl; try done. by rewrite IH.
Qed.

Lemma take_app v t : take (String.length v) (v +:+ t) = v.
Proof. induction v as [|c v IH]; simpl; [by destruct t|]. by rewrite IH. Qed.

Lemma drop_app v t : drop (String.length v) (v +:+ t) = t.
Proof. induction v as [|c v IH]; simpl; [by destruct t|]. done. Qed.

Lemma drop_drop i : forall j s, drop i (drop j s) = drop (j + i) s.
Proof.
  induction j as [|j IH]; intros s; simpl; [done|].
  destruct s as [|c s]; [by destruct i|]. apply IH.
Qed.

Lemma length_zero s : String.length s = 0 -> s = "".
Proof. by destruct s. Qed.

Lemma startsWith_app w t : startsWith w (w +:+ t) = true.
Proof. induction w as [|c w IH]; simpl; [done|]. by rewrite Ascii.eqb_refl. Qed.

(** What starts at some index of [s] is found in [s]. *)
Lemma startsWith_drop_includes w j : forall s,
  startsWith w (drop j s) = true -> includes s w = true.
Proof.
  induction j as [|j IH]; intros s H.
  - destruct s; simpl in *; by rewrite H.
  - destruct s as [|c s]; simpl in H.
    + simpl. by rewrite H.
    + simpl. rewrite (IH s H). apply orb_true_r.
Qed.

Lemma includes_app_r w pre s : includes s w = true -> includes (pre +:+ s) w = true.
Proof.
  intros H. induction pre as [|c pre IH]; simpl; [done|].
  cbn [String.append]. rewrite IH. apply orb_true_r.
Qed.

(** [trim] leaves nothing exactly of the strings made of white space. *)
Lemma trimEnd_empty s : trimEnd s = "" -> all_chars is_space s = true.
Proof.
  induction s as [|c s IH]; simpl; [done|].
  destruct (trimEnd s); [|done].
  destruct (is_space c); [|done]. intros _. by apply IH.
Qed.

Lemma trimStart_head s :
  trimStart s = "" \/ exists c t, trimStart s = String c t /\ is_space c = false.
Proof.
  induction s as [|c s IH]; simpl; [by left|].
  destruct (is_space c) eqn:E; [done|]. right. by exists c, s.
Qed.

Lemma trimStart_empty s : trimStart s = "" -> all_chars is_space s = true.
Proof.
  induction s as [|c s IH]; simpl; [done|].
  destruct (is_space c); [|done]. done.
Qed.

Lemma trim_empty s : trim s = "" -> all_chars is_space s = true.
Proof.
  unfold trim. intros H. apply trimStart_empty.
  destruct (trimStart_head s) as [E|(c & t & E & Hc)]; [done|].
  rewrite E in H. apply trimEnd_empty in H. simpl in H. by rewrite Hc in H.
Qed.

End JsStringFacts.


(** ** The regular expression matcher *)

Module RegexFacts.
Import JsString Regex.

Lemma drop_0 s : drop 0 s = s.
Proof. by destruct s. Qed.


(** The same for a literal that is matched as it is written. *)
Lemma m_lit w : forall k st,
  m (lit w) k st =
  if startsWith w (rest st)
  then k {| pos := pos st + String.length w; rest := drop (String.length w) (rest st);
            cap := cap st |}
  else None.
Proof.
  induction w as [|c w IH]; intros k [i s cp]; simpl.
  - by rewrite Nat.add_0_r.
  - destruct s as [|a s]; [done|].
    rewrite Ascii.eqb_sym.
    destruct (Ascii.eqb c a); [|done].
    rewrite IH. simpl. by rewrite Nat.add_succ_r.
Qed.











(** [n] characters of a class: the input must hold them, and they are
    consumed. *)
Lemma m_rep_cls n p : forall k st,
  m (rep n (Cls p)) k st =
  if (n <=? String.length (rest st))%nat && all_chars p (take n (rest st))
  then k {| pos := pos st + n; rest := drop n (rest st); cap := cap st |}
  else None.
Proof.
  induction n as [|n IH]; intros k [i s c].
  - simpl. by rewrite Nat.add_0_r.
  - cbn [rep m rest pos cap]. destruct s as [|a s]; [done|].
    cbn [take all_chars drop String.length]. destruct (p a); [|by rewrite andb_false_r].
    rewrite IH. cbn [rest pos cap]. rewrite Nat.add_succ_r. done.
Qed.

(** A greedy run before the end of the input takes all of an input made
    of characters of the class. *)
Lemma star_all p k K :
  (forall st, k st = m Eos K st) ->
  forall t i c,
  all_chars p t = true ->
  star p k i t c = K {| pos := i + String.length t; rest := ""; cap := c |}.
Proof.
  intros Hk. induction t as [|a t IH]; intros i c H; simpl.
  - by rewrite Hk, Nat.add_0_r.
  - simpl in H. apply andb_true_iff in H as [Ha Ht]. rewrite Ha, (IH _ _ Ht).
    rewrite Nat.add_succ_r, Hk. by destruct (K _).
Qed.

Lemma star_suffix p k : forall s i c x,
  star p k i s c = Some x ->
  exists st', k st' = Some x /\ cap st' = c /\ exists j, rest st' = drop j s.
Proof.
  induction s as [|a s IH]; intros i c x; simpl; intros H.
  - eexists. split; [exact H|]. split; [done|]. by exists 0.
  - destruct (p a).
    + destruct (star p k (S i) s c) as [y|] eqn:E.
      * injection H as ->. destruct (IH _ _ _ E) as (st' & K & C & j & R).
        exists st'. split; [done|]. split; [done|]. by exists (S j).
      * eexists. split; [exact H|]. split; [done|]. by exists 0.
    + eexists. split; [exact H|]. split; [done|]. by exists 0.
Qed.

(** A successful match of a pattern without group hands to its
    continuation a suffix of the input and the capture it was given. *)
Lemma m_suffix r : no_group r = true -> forall k st x,
  m r k st = Some x ->
  exists st', k st' = Some x /\ cap st' = cap st /\ exists j, rest st' = drop j (rest st).
Proof.
  induction r as [|a|p|r1 IH1 r2 IH2|r1 IH1 r2 IH2|r1 IH1|p|r1 IH1| |];
    intros G k [i s c] x; cbn [m rest pos cap]; intros H.
  - eexists. split; [exact H|]. split; [done|]. by exists 0.
  - destruct s as [|b s]; [done|]. destruct (Ascii.eqb b a); [|done].
    eexists. split; [exact H|]. split; [done|]. by exists 1.
  - destruct s as [|b s]; [done|]. destruct (p b); [|done].
    eexists. split; [exact H|]. split; [done|]. by exists 1.
  - simpl in G. apply andb_true_iff in G as [G1 G2].
    destruct (IH1 G1 _ _ _ H) as (st1 & K1 & C1 & j1 & R1).
    destruct (IH2 G2 _ _ _ K1) as (st2 & K2 & C2 & j2 & R2).
    simpl in C1, R1.
    exists st2. split; [done|]. split; [congruence|].
    exists (j1 + j2). rewrite R2, R1. apply JsStringFacts.drop_drop.
  - simpl in G. apply andb_true_iff in G as [G1 G2].
    destruct (m r1 k _) as [y|] eqn:E.
    + injection H as ->. by apply (IH1 G1 _ _ _ E).
    + by apply (IH2 G2 _ _ _ H).
  - simpl in G. destruct (m r1 k _) as [y|] eqn:E.
    + injection H as ->. by apply (IH1 G _ _ _ E).
    + eexists. split; [exact H|]. split; [done|]. by exists 0.
  - by apply star_suffix in H.
  - done.
  - destruct (i =? 0)%nat; [|done].
    eexists. split; [exact H|]. split; [done|]. by exists 0.
  - destruct s; [|done].
    eexists. split; [exact H|]. split; [done|]. by exists 0.
Qed.

(** A search that succeeds does so from some suffix of the input. *)
Lemma search_from_found r : forall s i x,
  search_from r i s = Some x ->
  exists j i', m r Some {| pos := i'; rest := drop j s; cap := None |} = Some x.
Proof.
  induction s as [|c s IH]; intros i x; simpl; intros H.
  - destruct (m r Some _) eqn:E; [|done]. injection H as ->. by exists 0, i.
  - destruct (m r Some _) eqn:E.
    + injection H as ->. by exists 0, i.
    + destruct (IH _ _ H) as (j & i' & F). by exists (S j), i'.
Qed.

(** An attempt that succeeds at the start index makes the search succeed
    there. *)
Lemma search_from_hit r i s x :
  m r Some {| pos := i; rest := s; cap := None |} = Some x ->
  search_from r i s = Some x.
Proof. intros H. destruct s; simpl; by rewrite H. Qed.

Lemma search_from_skip r i c s :
  m r Some {| pos := i; rest := String c s; cap := None |} = None ->
  search_from r i (String c s) = search_from r (S i) s.
Proof. intros H. simpl. by rewrite H. Qed.

(** A pattern that starts with [^] matches at the index 0 only. *)
Lemma search_from_bos r s : forall i, search_from (Seq Bos r) (S i) s = None.
Proof. induction s as [|c s IH]; intros i; simpl; [done|]. apply IH. Qed.

End RegexFacts.

(** ** Escaping *)

Module SanitizeFacts.
Import JsString Sanitize.

Ltac case_chars :=
  repeat match goal with
         | |- context [Ascii.eqb ?a ?b] => destruct (Ascii.eqb_spec a b); subst
         | H : context [Ascii.eqb ?a ?b] |- _ => destruct (Ascii.eqb_spec a b); subst
         end.

(** A character that needs no escape stands for itself. *)
Lemma escape_char_plain c : needs_escape c = false -> escape_char c = String c "".
Proof. unfold needs_escape, escape_char. case_chars; simpl; congruence. Qed.

(** An escaped character becomes an entity, which starts with [&] and
    holds no markup. *)
Lemma escape_char_entity c :
  needs_escape c = true ->
  exists body, escape_char c = String "&" body /\ all_chars (fun a => negb (markup_char a)) body = true.
Proof.
  unfold needs_escape, escape_char. case_chars; simpl; try congruence;
    intros _; eexists; split; try reflexivity; reflexivity.
Qed.

(** No markup character survives [sanitizeHTML]. *)
Lemma sanitizeHTML_no_markup s :
  all_chars (fun a => negb (markup_char a)) (sanitizeHTML s) = true.
Proof.
  induction s as [|c s IH]; simpl; [reflexivity|].
  rewrite JsStringFacts.all_chars_app, IH, andb_true_r.
  destruct (needs_escape c) eqn:E.
  - destruct (escape_char_entity c E) as (body & -> & Hb). simpl. exact Hb.
  - rewrite (escape_char_plain c E). simpl. rewrite andb_true_r.
    unfold needs_escape, markup_char in *. case_chars; simpl in *; congruence.
Qed.

(** A text without the six special characters is left as it is. *)
Lemma sanitizeHTML_plain s :
  all_chars (fun a => negb (needs_escape a)) s = true -> sanitizeHTML s = s.
Proof.
  induction s as [|c s IH]; simpl; [reflexivity|].
  intros H. apply andb_true_iff in H as [Hc Hs].
  apply negb_true_iff in Hc. rewrite (escape_char_plain c Hc), IH by exact Hs.
  reflexivity.
Qed.

(** The escapes of two characters never start alike. *)
Lemma escape_char_inj c d s t :
  escape_char c +:+ s = escape_char d +:+ t -> c = d /\ s = t.
Proof.
  unfold escape_char. case_chars; simpl; intros H;
    try (injection H; intros; subst; split; congruence);
    try discriminate H; try (injection H; intros; congruence).
Qed.

Lemma sanitizeHTML_inj s : forall t, sanitizeHTML s = sanitizeHTML t -> s = t.
Proof.
  induction s as [|c s IH]; intros [|d t]; simpl; intros H.
  - reflexivity.
  - unfold escape_char in H. case_chars; simpl in H; discriminate H.
  - unfold escape_char in H. case_chars; simpl in H; discriminate H.
  - apply escape_char_inj in H as [-> H]. f_equal. by apply IH.
Qed.

(** The loop of [sanitizeErrorMessage] is a search for a matching pattern. *)
Lemma sanitizeErrorMessage_existsb error :
  sanitizeErrorMessage error =
  if existsb (fun pattern => Regex.test pattern (errorMessage error)) safeErrorPatterns
  then sanitizeHTML (errorMessage error) else generic_message.
Proof.
  unfold sanitizeErrorMessage. generalize safeErrorPatterns as l.
  induction l as [|p l IH]; simpl; [done|].
  destruct (Regex.test p (errorMessage error)); [done|]. apply IH.
Qed.


Example sanitizeHTML_tag : sanitizeHTML "a<b/c" = "a&lt;b&#x2F;c".
Proof. reflexivity. Qed.

Example sanitize_validation_required :
  sanitizeErrorMessage
    (Error "ValidationError" "URL parameter is required and cannot be empty")
  = generic_message.
Proof. vm_compute. reflexivity. Qed.

Example sanitize_too_many :
  sanitizeErrorMessage (Error "Error" "Too Many <b>") = "Too Many &lt;b&gt;".
Proof. vm_compute. reflexivity. Qed.

Example redact_key :
  sanitizeToolArgs (JObject [("url", JString "a/b"); ("key", JString "k")])
  = JObject [("url", JString "a&#x2F;b"); ("key", JString "[REDACTED]")].
Proof. vm_compute. reflexivity. Qed.

End SanitizeFacts.
(** ** The rate limiter *)

Module RateLimitFacts.
Import RateLimit.

Local Open Scope Z_scope.

Lemma isAllowed_config now id rl :
  maxRequests (snd (isAllowed now id rl)) = maxRequests rl /\
  windowMs (snd (isAllowed now id rl)) = windowMs rl.
Proof.
  unfold isAllowed.
  destruct (lookup (store rl) id) as [r| |]; [|done|done].
  destruct (now >? resetTime r); [done|].
  destruct (count r <? maxRequests rl); done.
Qed.

Lemma lookup_own s id r : s !! id = Some r -> lookup s id = Own r.
Proof. unfold lookup. by intros ->. Qed.

Lemma lookup_missing s id :
  s !! id = None -> JsObject.inherited id = false -> lookup s id = Missing.
Proof. unfold lookup. by intros -> ->. Qed.

Lemma lookup_inherited s id :
  s !! id = None -> JsObject.inherited id = true -> lookup s id = Inherited.
Proof. unfold lookup. by intros -> ->. Qed.

(** The loop of [cleanup] only ever deletes: what it leaves was stored. *)
Lemma cleanup_loop_lookup now (keys : list string) (s : gmap string record) k r :
  foldl (cleanup_key now) s keys !! k = Some r -> s !! k = Some r.
Proof.
  revert s. induction keys as [|key keys IH]; intros s; simpl; [done|].
  intros H. apply IH in H. unfold cleanup_key in H.
  destruct (s !! key) as [r'|] eqn:E; [|done].
  destruct (now >? resetTime r'); [|done].
  destruct (decide (key = k)) as [->|Hne].
  - by rewrite lookup_delete_eq in H.
  - by rewrite lookup_delete_ne in H.
Qed.

(** A visited key whose window has expired is gone after the loop. *)
Lemma cleanup_loop_expired now (keys : list string) (s : gmap string record) k r :
  k ∈ keys -> s !! k = Some r -> now > resetTime r ->
  foldl (cleanup_key now) s keys !! k = None.
Proof.
  revert s. induction keys as [|key keys IH]; intros s Hin Hk Hexp.
  - by apply elem_of_nil in Hin.
  - simpl. apply elem_of_cons in Hin as [<-|Hin].
    + destruct (foldl (cleanup_key now) (cleanup_key now s k) keys !! k) as [r'|] eqn:E;
        [|done].
      apply cleanup_loop_lookup in E. unfold cleanup_key in E. rewrite Hk in E.
      destruct (now >? resetTime r) eqn:G; [|lia].
      by rewrite lookup_delete_eq in E.
    + destruct (cleanup_key now s key !! k) as [r'|] eqn:E.
      * assert (r' = r) as ->.
        { unfold cleanup_key in E. destruct (s !! key) as [r0|]; [|congruence].
          destruct (now >? resetTime r0); [|congruence].
          destruct (decide (key = k)) as [->|Hne].
          - by rewrite lookup_delete_eq in E.
          - rewrite lookup_delete_ne in E by done. congruence. }
        by apply (IH _ Hin E).
      * destruct (foldl (cleanup_key now) (cleanup_key now s key) keys !! k) as [r'|] eqn:F;
          [|done].
        apply cleanup_loop_lookup in F. congruence.
Qed.

(** A key whose window has not expired survives the loop. *)
Lemma cleanup_loop_live now (keys : list string) (s : gmap string record) k r :
  s !! k = Some r -> now <= resetTime r ->
  foldl (cleanup_key now) s keys !! k = Some r.
Proof.
  revert s. induction keys as [|key keys IH]; intros s Hk Hlive; simpl; [done|].
  apply IH; [|done]. unfold cleanup_key.
  destruct (s !! key) as [r0|] eqn:E; [|done].
  destruct (now >? resetTime r0) eqn:G; [|done].
  destruct (decide (key = k)) as [->|Hne].
  - rewrite Hk in E. injection E as <-. lia.
  - by rewrite lookup_delete_ne.
Qed.

(** [cleanup] removes exactly the records whose [resetTime] has passed. *)
Lemma cleanup_lookup now rl k :
  store (cleanup now rl) !! k =
  match store rl !! k with
  | Some r => if now >? resetTime r then None else Some r
  | None => None
  end.
Proof.
  unfold cleanup. simpl.
  destruct (store rl !! k) as [r|] eqn:E.
  - destruct (now >? resetTime r) eqn:G.
    + apply cleanup_loop_expired with r; [|done|lia].
      apply elem_of_elements, elem_of_dom. by exists r.
    + apply cleanup_loop_live; [done|lia].
  - destruct (foldl _ _ _ !! k) as [r'|] eqn:F; [|done].
    apply cleanup_loop_lookup in F. congruence.
Qed.

Lemma bounded_isAllowed now id rl :
  1 <= maxRequests rl -> bounded rl -> bounded (snd (isAllowed now id rl)).
Proof.
  intros Hmax Hb. unfold bounded, isAllowed.
  destruct (lookup (store rl) id) as [r| |] eqn:E.
  - destruct (now >? resetTime r).
    + simpl. apply map_Forall_insert_2; [simpl; lia | done].
    + destruct (count r <? maxRequests rl) eqn:G; simpl; [|done].
      apply map_Forall_insert_2; [simpl; lia | done].
  - done.
  - simpl. apply map_Forall_insert_2; [simpl; lia | done].
Qed.

Lemma bounded_cleanup now rl : bounded rl -> bounded (cleanup now rl).
Proof.
  intros Hb k r Hk. rewrite cleanup_lookup in Hk.
  destruct (store rl !! k) as [r0|] eqn:E; [|done].
  destruct (now >? resetTime r0); [done|]. injection Hk as <-.
  by apply (Hb k).
Qed.

Lemma bounded_reset id rl : bounded rl -> bounded (reset id rl).
Proof.
  intros Hb k r Hk. simpl in Hk.
  apply lookup_delete_Some in Hk as [_ Hk]. by apply (Hb k).
Qed.

Lemma apply_op_max rl o : maxRequests (apply_op rl o) = maxRequests rl.
Proof. destruct o; simpl; try done. apply isAllowed_config. Qed.

Lemma bounded_apply_op rl o :
  1 <= maxRequests rl -> bounded rl -> bounded (apply_op rl o).
Proof.
  intros Hmax Hb. destruct o; simpl.
  - by apply bounded_isAllowed.
  - done.
  - by apply bounded_cleanup.
  - by apply bounded_reset.
Qed.

Lemma bounded_run ops rl :
  1 <= maxRequests rl -> bounded rl ->
  bounded (run ops rl) /\ maxRequests (run ops rl) = maxRequests rl.
Proof.
  revert rl. induction ops as [|o ops IH]; intros rl Hmax Hb; simpl; [done|].
  destruct (IH (apply_op rl o)) as [H1 H2].
  - by rewrite apply_op_max.
  - by apply bounded_apply_op.
  - split; [done|]. by rewrite H2, apply_op_max.
Qed.

(** What one call of [isAllowed] does to the record of its identifier. *)
Lemma isAllowed_fresh now id rl :
  match lookup (store rl) id with
  | Missing => True
  | Own r => now > resetTime r
  | Inherited => False
  end ->
  fst (isAllowed now id rl) = true /\
  store (snd (isAllowed now id rl)) !! id
    = Some {| count := 1; resetTime := now + windowMs rl |}.
Proof.
  unfold isAllowed. destruct (lookup (store rl) id) as [r| |] eqn:E; intros H.
  - destruct (now >? resetTime r) eqn:G; [|lia]. simpl.
    by rewrite lookup_insert_eq.
  - done.
  - simpl. by rewrite lookup_insert_eq.
Qed.

Lemma isAllowed_live_below now id rl r :
  store rl !! id = Some r -> now <= resetTime r -> count r < maxRequests rl ->
  fst (isAllowed now id rl) = true /\
  store (snd (isAllowed now id rl)) !! id
    = Some {| count := count r + 1; resetTime := resetTime r |}.
Proof.
  intros E H1 H2. unfold isAllowed. rewrite (lookup_own _ _ _ E).
  destruct (now >? resetTime r) eqn:G; [lia|].
  destruct (count r <? maxRequests rl) eqn:G'; [|lia]. simpl.
  by rewrite lookup_insert_eq.
Qed.

Lemma isAllowed_live_full now id rl r :
  store rl !! id = Some r -> now <= resetTime r -> maxRequests rl <= count r ->
  isAllowed now id rl = (false, rl).
Proof.
  intros E H1 H2. unfold isAllowed. rewrite (lookup_own _ _ _ E).
  destruct (now >? resetTime r) eqn:G; [lia|].
  destruct (count r <? maxRequests rl) eqn:G'; [lia|]. done.
Qed.

(** Calls inside a live window are allowed as long as the counter has room,
    and each of them adds one to the counter. *)
Lemma isAllowed_seq_live ts : forall id rl r,
  store rl !! id = Some r ->
  Forall (fun t => t <= resetTime r) ts ->
  count r + Z.of_nat (length ts) <= maxRequests rl ->
  fst (isAllowed_seq ts id rl) = repeat true (length ts) /\
  store (snd (isAllowed_seq ts id rl)) !! id
    = Some {| count := count r + Z.of_nat (length ts); resetTime := resetTime r |} /\
  maxRequests (snd (isAllowed_seq ts id rl)) = maxRequests rl /\
  windowMs (snd (isAllowed_seq ts id rl)) = windowMs rl.
Proof.
  induction ts as [|t ts IH]; intros id rl r E Hall Hroom.
  - simpl. rewrite E, Z.add_0_r. by destruct r.
  - apply Forall_cons in Hall as [Ht Hall].
    cbn [length] in Hroom. simpl.
    destruct (isAllowed_live_below t id rl r) as [Hb Hs]; [done|done|lia|].
    destruct (isAllowed_config t id rl) as [Hm Hw].
    destruct (isAllowed t id rl) as [b rl1]. simpl in *. subst b.
    specialize (IH id rl1 _ Hs). simpl in IH.
    destruct IH as (I1 & I2 & I3 & I4); [done|lia|].
    destruct (isAllowed_seq ts id rl1) as [bs rl2]. simpl in *.
    rewrite I1, I2, I3, I4. repeat split; [|done|done].
    do 2 f_equal. lia.
Qed.

Lemma ceil_div_1000_pos ms : 0 < ms -> 0 < ceil_div_1000 ms.
Proof.
  intros H. unfold ceil_div_1000.
  assert (- ms / 1000 < 0); [|lia].
  apply Z.div_lt_upper_bound; lia.
Qed.

(** No operation of the class stores a record under the name of a member
    of [Object.prototype]. *)
Lemma plain_isAllowed now id rl : plain rl -> plain (snd (isAllowed now id rl)).
Proof.
  intros Hp k Hk. unfold isAllowed, lookup.
  destruct (store rl !! id) as [r|] eqn:E.
  - assert (id <> k) by (intros ->; rewrite (Hp k Hk) in E; done).
    destruct (now >? resetTime r); cbn [snd store set_store];
      [rewrite lookup_insert_ne by done; by apply Hp|].
    destruct (count r <? maxRequests rl); cbn [snd store set_store];
      [rewrite lookup_insert_ne by done; by apply Hp|by apply Hp].
  - destruct (JsObject.inherited id) eqn:I; cbn [snd store set_store]; [by apply Hp|].
    assert (id <> k) by (intros ->; congruence).
    rewrite lookup_insert_ne by done. by apply Hp.
Qed.

Lemma plain_apply_op rl o : plain rl -> plain (apply_op rl o).
Proof.
  intros Hp. destruct o as [now id|now id|now|id]; cbn [apply_op].
  - by apply plain_isAllowed.
  - done.
  - intros k Hk. rewrite cleanup_lookup, (Hp k Hk). done.
  - intros k Hk. cbn [reset store set_store].
    destruct (decide (id = k)) as [->|N];
      [by rewrite lookup_delete_eq|rewrite lookup_delete_ne by done; by apply Hp].
Qed.

Lemma plain_run ops : forall rl, plain rl -> plain (run ops rl).
Proof.
  induction ops as [|o ops IH]; intros rl Hp; [done|].
  apply IH. by apply plain_apply_op.
Qed.

(** C10: for every sequence of operations on a limiter constructed with a
    maximum of at least one request, every stored counter stays at most the
    maximum; [isAllowed], [cleanup] and [reset] keep it so ([getInfo] writes
    nothing), and no record is ever stored under the name of a member of
    [Object.prototype].  For every identifier that is not such a name the
    [remaining] value of [getInfo] is a number that is not negative, the
    exact room left in a live window. *)
Theorem C10_count_never_exceeds_max (maxR win : Z) (ops : list op) :
  1 <= maxR ->
  let rl := run ops (new maxR win) in
  maxRequests rl = maxR /\
  bounded rl /\
  plain rl /\
  (forall now id, bounded (snd (isAllowed now id rl))) /\
  (forall now, bounded (cleanup now rl)) /\
  (forall id, bounded (reset id rl)) /\
  (forall now id, JsObject.inherited id = false ->
     exists n, remaining (getInfo now id rl) = Num n /\ 0 <= n) /\
  (forall now id r, store rl !! id = Some r -> now <= resetTime r ->
     remaining (getInfo now id rl) = Num (maxR - count r)).
Proof.
  intros Hmax rl.
  destruct (bounded_run ops (new maxR win)) as [Hb Hm]; [done| |].
  { unfold bounded, new. simpl. apply map_Forall_empty. }
  fold rl in Hb, Hm. simpl in Hm.
  split; [done|]. split; [done|].
  split; [by apply plain_run|].
  split; [intros; apply bounded_isAllowed; [lia|done]|].
  split; [intros; by apply bounded_cleanup|].
  split; [intros; by apply bounded_reset|].
  split.
  - intros now id Hid. unfold getInfo, lookup. rewrite Hid.
    destruct (store rl !! id) as [r|]; cbn [remaining]; [|eexists; split; [done|lia]].
    destruct (now >? resetTime r); cbn [remaining]; eexists; (split; [done|lia]).
  - intros now id r E Hlive. unfold getInfo. rewrite (lookup_own _ _ _ E).
    destruct (now >? resetTime r) eqn:G; [lia|]. cbn [remaining].
    specialize (Hb id r E). simpl in Hb. f_equal. lia.
Qed.

Lemma C10_witness :
  1 <= 10 /\
  bounded (run [OpIsAllowed 0 "10.0.0.1"; OpIsAllowed 5 "10.0.0.1";
                OpIsAllowed 6 "10.0.0.2"; OpCleanup 30000; OpReset "10.0.0.2"]
             (new 10 60000)) /\
  store (run [OpIsAllowed 0 "10.0.0.1"; OpIsAllowed 5 "10.0.0.1";
              OpIsAllowed 6 "10.0.0.2"; OpCleanup 30000; OpReset "10.0.0.2"]
           (new 10 60000)) !! "10.0.0.1"
  = Some {| count := 2; resetTime := 60000 |} /\
  remaining (getInfo 7 "10.0.0.1"
               (run [OpIsAllowed 0 "10.0.0.1"; OpIsAllowed 5 "10.0.0.1";
                     OpIsAllowed 6 "10.0.0.2"; OpCleanup 30000; OpReset "10.0.0.2"]
                  (new 10 60000))) = Num (10 - 2).
Proof.
  pose proof (C10_count_never_exceeds_max 10 60000
                [OpIsAllowed 0 "10.0.0.1"; OpIsAllowed 5 "10.0.0.1";
                 OpIsAllowed 6 "10.0.0.2"; OpCleanup 30000; OpReset "10.0.0.2"]
                ltac:(lia)) as (_ & Hb & _ & _ & _ & _ & _ & Hr).
  split; [lia|]. split; [exact Hb|].
  assert (E : store (run [OpIsAllowed 0 "10.0.0.1"; OpIsAllowed 5 "10.0.0.1";
                          OpIsAllowed 6 "10.0.0.2"; OpCleanup 30000; OpReset "10.0.0.2"]
                       (new 10 60000)) !! "10.0.0.1"
              = Some {| count := 2; resetTime := 60000 |}) by (by vm_compute).
  split; [exact E|].
  apply (Hr 7 "10.0.0.1" {| count := 2; resetTime := 60000 |} E). simpl. lia.
Defined.

(** C8: with the limit of 10 requests per 60000 ms of the singleton limiter
    and one client identifier that is not the name of a member of
    [Object.prototype], ten [isAllowed] calls within one window all
    return [true] (the tenth included); an eleventh request within the window
    is refused by [isAllowed] and answered by [withRateLimit] with a strictly
    positive retry-after; once the window's [resetTime] has passed the next
    [isAllowed] call returns [true] and stores the counter 1. *)
Theorem C8_window_of_ten (st : gmap string record) (id : string)
    (t0 : Z) (ts : list Z) (ta tb tc t' : Z) :
  JsObject.inherited id = false ->
  st !! id = None ->
  length ts = 9%nat ->
  Forall (in_window t0) ts ->
  in_window t0 ta -> in_window t0 tb -> in_window t0 tc ->
  t0 + 60000 < t' ->
  let rl10 := snd (isAllowed_seq (t0 :: ts) id (set_store rateLimiter st)) in
  fst (isAllowed_seq (t0 :: ts) id (set_store rateLimiter st)) = repeat true 10 /\
  store rl10 !! id = Some {| count := 10; resetTime := t0 + 60000 |} /\
  isAllowed tb id rl10 = (false, rl10) /\
  (exists i retryAfter,
     withRateLimit ta tb tc id rl10 = (i, Rejected429 retryAfter, rl10) /\
     0 < retryAfter) /\
  fst (isAllowed t' id rl10) = true /\
  store (snd (isAllowed t' id rl10)) !! id
    = Some {| count := 1; resetTime := t' + 60000 |}.
Proof.
  intros Hid Hnone Hlen Hall Ha Hb Hc Hlate rl10.
  unfold in_window in *.
  set (rl0 := set_store rateLimiter st) in *.
  destruct (isAllowed_fresh t0 id rl0) as [F1 F2].
  { cbn [rl0 store set_store]. by rewrite (lookup_missing st id Hnone Hid). }
  destruct (isAllowed_config t0 id rl0) as [Fm Fw].
  assert (Hseq := isAllowed_seq_live ts id (snd (isAllowed t0 id rl0)) _ F2).
  simpl in Hseq. rewrite Hlen, Fm in Hseq. simpl in Hseq.
  destruct Hseq as (S1 & S2 & S3 & S4); [|lia|].
  { eapply Forall_impl; [exact Hall|]. simpl. intros t Ht. lia. }
  assert (E10 : store rl10 !! id = Some {| count := 10; resetTime := t0 + 60000 |}).
  { unfold rl10. simpl. destruct (isAllowed t0 id rl0) as [b rl1]. simpl in *.
    destruct (isAllowed_seq ts id rl1) as [bs rl2]. simpl in *. by rewrite S2. }
  assert (M10 : maxRequests rl10 = 10 /\ windowMs rl10 = 60000).
  { unfold rl10. simpl. destruct (isAllowed t0 id rl0) as [b rl1]. simpl in *.
    destruct (isAllowed_seq ts id rl1) as [bs rl2]. simpl in *. by rewrite S3, S4, Fw. }
  destruct M10 as [M10 W10].
  assert (D : isAllowed tb id rl10 = (false, rl10)).
  { apply isAllowed_live_full with (r := {| count := 10; resetTime := t0 + 60000 |});
      [done|simpl; lia|simpl; lia]. }
  split.
  { simpl. destruct (isAllowed t0 id rl0) as [b rl1]. simpl in *.
    destruct (isAllowed_seq ts id rl1) as [bs rl2]. simpl in *. by rewrite F1, S1. }
  split; [done|]. split; [done|]. split.
  { unfold withRateLimit, getInfo. rewrite (lookup_own _ _ _ E10).
    cbn [resetTime count].
    destruct (ta >? t0 + 60000) eqn:G; [lia|]. cbn [info_resetTime].
    rewrite D. cbn [negb]. do 2 eexists. split; [reflexivity|].
    apply ceil_div_1000_pos. lia. }
  destruct (isAllowed_fresh t' id rl10) as [G1 G2].
  { rewrite (lookup_own _ _ _ E10). simpl. lia. }
  by rewrite G1, G2, W10.
Qed.

Lemma C8_witness :
  let ts := [1; 2; 3; 4; 5; 6; 7; 8; 9] in
  let rl10 := snd (isAllowed_seq (0 :: ts) "10.0.0.1" (set_store rateLimiter ∅)) in
  (JsObject.inherited "10.0.0.1" = false /\
   Forall (in_window 0) ts /\ in_window 0 59000 /\ 0 + 60000 < 60001) /\
  fst (isAllowed_seq (0 :: ts) "10.0.0.1" (set_store rateLimiter ∅)) = repeat true 10 /\
  store rl10 !! "10.0.0.1" = Some {| count := 10; resetTime := 0 + 60000 |} /\
  isAllowed 59000 "10.0.0.1" rl10 = (false, rl10) /\
  (exists i retryAfter,
     withRateLimit 59000 59000 59000 "10.0.0.1" rl10 = (i, Rejected429 retryAfter, rl10) /\
     0 < retryAfter) /\
  fst (isAllowed 60001 "10.0.0.1" rl10) = true /\
  store (snd (isAllowed 60001 "10.0.0.1" rl10)) !! "10.0.0.1"
    = Some {| count := 1; resetTime := 60001 + 60000 |}.
Proof.
  intros ts rl10.
  assert (Hts : Forall (in_window 0) ts) by (repeat constructor; lia).
  assert (Hw : in_window 0 59000) by (unfold in_window; lia).
  split; [repeat split; try done; lia|].
  apply (C8_window_of_ten ∅ "10.0.0.1" 0 ts 59000 59000 59000 60001);
    try done; lia.
Defined.

(** The member names of [Object.prototype] are outside C8 and C10: for
    such an identifier the first call of [isAllowed] on the new limiter is
    refused, nothing is stored, [getInfo] shows [NaN], and [withRateLimit]
    throws before it asks [isAllowed]. *)
Example member_name_is_refused :
  isAllowed 0 "constructor" rateLimiter = (false, rateLimiter) /\
  remaining (getInfo 0 "constructor" rateLimiter) = NaN /\
  withRateLimit 0 0 0 "constructor" rateLimiter
  = ({| remaining := NaN; info_resetTime := None; limit := 10 |},
     ThrowsRangeError, rateLimiter).
Proof. by vm_compute. Qed.

End RateLimitFacts.

(** ** Identifier extraction *)

Module ExtractFacts.
Import JsString Regex Loader.

(** The group of the identifier takes 11 identifier characters and keeps
    them as the capture. *)
Lemma m_id_group k st :
  m id_group k st =
  if (11 <=? String.length (rest st))%nat && all_chars id_char (take 11 (rest st))
  then k {| pos := pos st + 11; rest := drop 11 (rest st);
            cap := Some (take 11 (rest st)) |}
  else None.
Proof.
  unfold id_group. cbn [m]. rewrite RegexFacts.m_rep_cls. cbn [pos rest cap].
  destruct (_ && _); [|done].
  by replace (pos st + 11 - pos st) with 11 by lia.
Qed.

(** The optional query and the end of the input accept a well-formed
    query, whole. *)
Lemma m_tail_of first K st :
  (match rest st with
   | EmptyString => true
   | String c t => first c && all_chars dot t
   end) = true ->
  m (tail_of first) K st =
  K {| pos := pos st + String.length (rest st); rest := ""; cap := cap st |}.
Proof.
  destruct st as [i s c]. unfold tail_of. cbn [m pos rest cap].
  destruct s as [|a t]; intros H.
  - simpl. by rewrite Nat.add_0_r.
  - apply andb_true_iff in H as [Ha Ht]. rewrite Ha.
    rewrite (RegexFacts.star_all dot
               (fun st => match rest st with
                          | EmptyString => K st
                          | String _ _ => None
                          end) K (fun _ => eq_refl) t (S i) c Ht).
    cbn [String.length]. rewrite Nat.add_succ_r. by destruct (K _).
Qed.

Lemma take_all s : take (String.length s) s = s.
Proof. induction s as [|c s IH]; simpl; [done|]. by rewrite IH. Qed.

(** The test of the bare identifier is the test of [is_id]. *)
Lemma test_bare_id s : test bare_id s = is_id s.
Proof.
  unfold test, exec, is_id.
  assert (E : search_from bare_id 0 s
              = m bare_id Some {| pos := 0; rest := s; cap := None |}).
  { destruct (m bare_id Some {| pos := 0; rest := s; cap := None |}) as [st|] eqn:M.
    - by apply RegexFacts.search_from_hit.
    - destruct s as [|c s].
      + cbn [search_from]. by rewrite M.
      + rewrite (RegexFacts.search_from_skip _ _ _ _ M).
        apply (RegexFacts.search_from_bos _ s 0). }
  rewrite E. unfold bare_id. cbn [seqs m pos rest cap Nat.eqb].
  rewrite RegexFacts.m_rep_cls. cbn [pos rest cap].
  pose proof (JsStringFacts.length_drop 11 s) as LD.
  assert (T : String.length s = 11 -> take 11 s = s).
  { intros L. rewrite <- L. apply take_all. }
  remember (drop 11 s) as d eqn:D. remember (take 11 s) as tk eqn:Tk.
  destruct (Nat.eqb_spec (String.length s) 11) as [L|L].
  - rewrite L. cbn [Nat.leb]. rewrite (T L).
    assert (d = "") as -> by (apply JsStringFacts.length_zero; lia).
    simpl. by destruct (all_chars id_char s).
  - destruct (Nat.leb_spec 11 (String.length s)); [|done].
    destruct (all_chars id_char tk); [|done]. simpl.
    destruct d; [|done]. simpl in LD. lia.
Qed.

(** The start of each pattern accepts the start of each URL of its shape. *)
Lemma prefix_accepts k sch w x K i result :
  is_scheme sch -> is_www k w ->
  K {| pos := String.length (sch +:+ w +:+ host_path k) + i; rest := x; cap := None |}
    = Some result ->
  m (prefix_of k) K {| pos := i; rest := sch +:+ w +:+ host_path k +:+ x; cap := None |}
    = Some result.
Proof.
  intros [->|[->| ->]] [->|[Hk ->]] H; destruct k; try done;
    cbn in H |- *; by rewrite H.
Qed.

Lemma pattern_split k K st :
  m (pattern_of k) K st
  = m (prefix_of k) (m id_group (m (tail_of (query_start k)) K)) st.
Proof. by destruct k. Qed.

Lemma is_id_length id : is_id id = true -> String.length id = 11.
Proof.
  unfold is_id. intros H. apply andb_true_iff in H as [H _]. by apply Nat.eqb_eq.
Qed.

(** The identifier and the query of a URL of a shape are accepted by what
    follows the start of the pattern. *)
Lemma id_and_query_accepted k id tail i c :
  is_id id = true -> is_query k tail = true ->
  m id_group (m (tail_of (query_start k)) Some)
    {| pos := i; rest := id +:+ tail; cap := c |}
  = Some {| pos := i + 11 + String.length tail; rest := ""; cap := Some id |}.
Proof.
  intros Hid Hq. pose proof (is_id_length id Hid) as L.
  rewrite m_id_group. cbn [pos rest cap].
  rewrite JsStringFacts.length_app, L.
  replace (11 <=? 11 + String.length tail)%nat with true
    by (symmetry; apply Nat.leb_le; lia).
  replace (take 11 (id +:+ tail)) with id
    by (rewrite <- L; symmetry; apply JsStringFacts.take_app).
  replace (drop 11 (id +:+ tail)) with tail
    by (rewrite <- L; symmetry; apply JsStringFacts.drop_app).
  unfold is_id in Hid. apply andb_true_iff in Hid as [_ Hid]. rewrite Hid.
  cbn [andb]. by rewrite m_tail_of.
Qed.

(** The pattern of a shape matches a URL of that shape from its first
    character to its last and captures its identifier. *)
Lemma pattern_accepts k id s i :
  valid_url k id s ->
  m (pattern_of k) Some {| pos := i; rest := s; cap := None |}
  = Some {| pos := String.length s + i; rest := ""; cap := Some id |}.
Proof.
  intros [sch w tail Hs Hw Hid Hq]. rewrite pattern_split.
  apply prefix_accepts; [done|done|].
  rewrite id_and_query_accepted by done.
  rewrite !JsStringFacts.length_app, (is_id_length id Hid). do 2 f_equal. lia.
Qed.

Lemma match1_accepts k id s :
  valid_url k id s -> match1 (pattern_of k) s = Some (Some id).
Proof.
  intros V. unfold match1, exec.
  by rewrite (RegexFacts.search_from_hit _ _ _ _ (pattern_accepts k id s 0 V)).
Qed.

(** *** Inputs that are not blank *)

Lemma trim_not_empty s :
  all_chars is_space s = false -> String.eqb (trim s) "" = false.
Proof.
  intros H. destruct (String.eqb_spec (trim s) "") as [E|]; [|done].
  apply JsStringFacts.trim_empty in E. congruence.
Qed.

Lemma id_char_not_space c : id_char c = true -> is_space c = false.
Proof.
  unfold id_char, is_space.
  destruct c as [[] [] [] [] [] [] [] []]; vm_compute; congruence.
Qed.

Lemma is_id_not_blank s : is_id s = true -> all_chars is_space s = false.
Proof.
  intros H. pose proof (is_id_length s H) as L.
  unfold is_id in H. apply andb_true_iff in H as [_ H].
  destruct s as [|c s]; [done|]. simpl in *.
  apply andb_true_iff in H as [Hc _]. by rewrite (id_char_not_space c Hc).
Qed.

Lemma valid_url_not_blank k id s : valid_url k id s -> all_chars is_space s = false.
Proof.
  intros [sch w tail _ _ _ _].
  rewrite !JsStringFacts.all_chars_app.
  assert (all_chars is_space (host_path k) = false) as -> by (by destruct k).
  by rewrite andb_false_r, !andb_false_r.
Qed.

Lemma valid_url_not_id k id s : valid_url k id s -> is_id s = false.
Proof.
  intros [sch w tail _ _ Hid _]. unfold is_id.
  rewrite !JsStringFacts.length_app, (is_id_length id Hid).
  assert (9 <= String.length (host_path k)) by (destruct k; simpl; lia).
  destruct (Nat.eqb_spec (String.length sch +
     (String.length w + (String.length (host_path k) + (11 + String.length tail)))) 11);
    [lia|done].
Qed.

(** *** Inputs without the marker of a pattern *)

Lemma no_group_prefix k : no_group (prefix_of k) = true.
Proof. by destruct k. Qed.

Lemma m_seq r1 r2 k st : m (Seq r1 r2) k st = m r1 (m r2 k) st.
Proof. reflexivity. Qed.

(** Where the start of a pattern succeeds, the host and path of its shape
    start at some index of the input. *)
Lemma prefix_inv k K st x :
  m (prefix_of k) K st = Some x ->
  exists st2 j, startsWith (host_path k) (rest st2) = true /\
                rest st2 = drop j (rest st).
Proof.
  intros H.
  destruct k; unfold prefix_of in H; rewrite m_seq in H.
  all: apply (RegexFacts.m_suffix scheme eq_refl) in H as (st1 & H & _ & j1 & R1).
  1-3: rewrite m_seq in H;
    apply (RegexFacts.m_suffix www eq_refl) in H as (st2 & H & _ & j2 & R2);
    rewrite RegexFacts.m_lit in H;
    destruct (startsWith _ (rest st2)) eqn:S; [|done];
    exists st2, (j1 + j2); split; [done|];
    rewrite R2, R1; apply JsStringFacts.drop_drop.
  rewrite RegexFacts.m_lit in H.
  destruct (startsWith _ (rest st1)) eqn:S; [|done].
  by exists st1, j1.
Qed.

(** An attempt of the pattern of a shape succeeds only where the host and
    path of the shape follow, after the optional parts, and captures 11
    identifier characters. *)
Lemma pattern_match_inv k st x :
  m (pattern_of k) Some st = Some x ->
  includes (rest st) (host_path k) = true /\
  exists v, cap x = Some v /\ is_id v = true.
Proof.
  rewrite pattern_split. intros H. split.
  - destruct (prefix_inv _ _ _ _ H) as (st2 & j & S & R).
    rewrite R in S. by apply JsStringFacts.startsWith_drop_includes in S.
  - apply (RegexFacts.m_suffix (prefix_of k) (no_group_prefix k)) in H
      as (st1 & H & _ & _).
    rewrite m_id_group in H.
    destruct (Nat.leb_spec 11 (String.length (rest st1))) as [L|]; [|done].
    destruct (all_chars id_char (take 11 (rest st1))) eqn:A; [|done].
    cbn [andb] in H.
    assert (G : no_group (tail_of (query_start k)) = true) by (by destruct k).
    apply (RegexFacts.m_suffix _ G) in H as (st2 & H & C & _).
    injection H as <-. exists (take 11 (rest st1)). split; [done|].
    unfold is_id. rewrite A, JsStringFacts.length_take by done. done.
Qed.

Lemma exec_inv k s x :
  exec (pattern_of k) s = Some x ->
  includes s (host_path k) = true /\ exists v, cap x = Some v /\ is_id v = true.
Proof.
  unfold exec. intros H. apply RegexFacts.search_from_found in H as (j & i & H).
  apply pattern_match_inv in H as [I V]. split; [|done]. simpl in I.
  rewrite <- (JsStringFacts.take_drop j s). by apply JsStringFacts.includes_app_r.
Qed.

Lemma no_marker_no_match k s :
  includes s (host_path k) = false -> match1 (pattern_of k) s = None.
Proof.
  intros H. unfold match1. destruct (exec (pattern_of k) s) as [x|] eqn:E; [|done].
  apply exec_inv in E as [I _]. congruence.
Qed.

Lemma includes_drop w : forall s,
  includes s w = true -> exists j, startsWith w (drop j s) = true.
Proof.
  induction s as [|c s IH]; simpl; intros H.
  - exists 0. by rewrite orb_false_r in H.
  - apply orb_true_iff in H as [H|H]; [by exists 0|].
    destruct (IH H) as [j Hj]. by exists (S j).
Qed.

Lemma startsWith_tail a w s :
  startsWith (String a w) s = true -> startsWith w (drop 1 s) = true.
Proof.
  destruct s as [|b s]; cbn [startsWith drop]; [done|].
  by destruct (Ascii.eqb a b).
Qed.

(** The marker of the mobile shape holds the marker of the watch shape. *)
Lemma includes_mobile_watch s :
  includes s (host_path Watch) = false -> includes s (host_path Mobile) = false.
Proof.
  intros H. destruct (includes s (host_path Mobile)) eqn:E; [|done].
  apply includes_drop in E as [j E].
  change (host_path Mobile) with (String "m" (String "." (host_path Watch))) in E.
  apply startsWith_tail, startsWith_tail in E as S.
  rewrite !JsStringFacts.drop_drop in S.
  apply JsStringFacts.startsWith_drop_includes in S. congruence.
Qed.

Ltac skip_index := rewrite RegexFacts.search_from_skip by reflexivity.

(** The watch pattern, which is tried first, finds a mobile URL at the
    [youtube.com] of its host and captures its identifier. *)
Lemma standard_on_mobile id s :
  valid_url Mobile id s -> match1 standard s = Some (Some id).
Proof.
  intros [sch w tail Hs Hw Hid Hq].
  assert (w = "") as -> by (destruct Hw as [|[? _]]; done).
  assert (V : forall i,
    m standard Some {| pos := i; rest := host_path Watch +:+ id +:+ tail; cap := None |}
    = Some {| pos := String.length (host_path Watch +:+ id +:+ tail) + i; rest := "";
              cap := Some id |}).
  { intros i. apply (pattern_accepts Watch id).
    by apply (valid_url_intro Watch id "" "" tail); [left|left| |]. }
  unfold match1, exec.
  destruct Hs as [->|[->| ->]]; cbn [String.append host_path]; repeat skip_index.
  all: by rewrite (RegexFacts.search_from_hit _ _ _ _ (V _)).
Qed.

(** C4 (amended): [extractVideoId] returns a bare identifier of 11
    characters as it is; it returns the identifier of every URL of the watch
    and of the mobile shape, of every URL of the short-link shape that does
    not contain [youtube.com/watch?v=], and of every URL of the embed shape
    that contains neither that nor [youtu.be/] (the patterns are searched
    anywhere in the input, in that order).  It returns [null] for every
    input that is not a bare identifier and contains none of
    [youtube.com/watch?v=], [youtu.be/] and [youtube.com/embed/]; whatever it
    returns is made of 11 identifier characters.  For the short link
    [https://youtu.be/dQw4w9WgXcQ?t=5] it returns [dQw4w9WgXcQ]. *)
Theorem C4_extractVideoId :
  (forall s, is_id s = true -> extractVideoId s = Some s) /\
  (forall id s, valid_url Watch id s -> extractVideoId s = Some id) /\
  (forall id s, valid_url Mobile id s -> extractVideoId s = Some id) /\
  (forall id s, valid_url Short id s ->
     includes s "youtube.com/watch?v=" = false -> extractVideoId s = Some id) /\
  (forall id s, valid_url Embed id s ->
     includes s "youtube.com/watch?v=" = false -> includes s "youtu.be/" = false ->
     extractVideoId s = Some id) /\
  (forall s, is_id s = false ->
     includes s "youtube.com/watch?v=" = false -> includes s "youtu.be/" = false ->
     includes s "youtube.com/embed/" = false ->
     extractVideoId s = None) /\
  (forall s v, extractVideoId s = Some v -> is_id v = true) /\
  extractVideoId "https://youtu.be/dQw4w9WgXcQ?t=5" = Some "dQw4w9WgXcQ".
Proof.
  assert (P4 : YOUTUBE_URL_PATTERNS
               = [pattern_of Watch; pattern_of Short; pattern_of Embed; pattern_of Mobile])
    by reflexivity.
  assert (U : forall k id s, valid_url k id s ->
            extractVideoId s = first_match YOUTUBE_URL_PATTERNS s).
  { intros k id s V. unfold extractVideoId.
    by rewrite (trim_not_empty s (valid_url_not_blank k id s V)), test_bare_id,
      (valid_url_not_id k id s V). }
  rewrite P4 in U.
  repeat split.
  - intros s H. unfold extractVideoId.
    by rewrite (trim_not_empty s (is_id_not_blank s H)), test_bare_id, H.
  - intros id s V. rewrite (U _ _ _ V). cbn [first_match].
    by rewrite (match1_accepts Watch id s V).
  - intros id s V. rewrite (U _ _ _ V). cbn [first_match].
    change (pattern_of Watch) with standard. by rewrite (standard_on_mobile id s V).
  - intros id s V W. rewrite (U _ _ _ V). cbn [first_match].
    by rewrite (no_marker_no_match Watch s W), (match1_accepts Short id s V).
  - intros id s V W S. rewrite (U _ _ _ V). cbn [first_match].
    by rewrite (no_marker_no_match Watch s W), (no_marker_no_match Short s S),
      (match1_accepts Embed id s V).
  - intros s B W S E. unfold extractVideoId.
    destruct (String.eqb (trim s) ""); [done|]. rewrite test_bare_id, B, P4.
    cbn [first_match].
    by rewrite (no_marker_no_match Watch s W), (no_marker_no_match Short s S),
      (no_marker_no_match Embed s E),
      (no_marker_no_match Mobile s (includes_mobile_watch s W)).
  - intros s v. unfold extractVideoId.
    destruct (String.eqb (trim s) ""); [done|]. rewrite test_bare_id.
    destruct (is_id s) eqn:B; [by intros [= <-]|].
    rewrite P4. cbn [first_match]. unfold match1.
    assert (P : forall k o,
      match match exec (pattern_of k) s with Some st => Some (cap st) | None => None end with
      | Some (Some id) => Some id
      | Some None => None
      | None => o
      end = Some v -> is_id v = true \/ o = Some v).
    { intros k o. destruct (exec (pattern_of k) s) as [x|] eqn:E; [|by right].
      apply exec_inv in E as [_ (v' & C & I)]. rewrite C. intros [= <-]. by left. }
    intros H.
    apply (P Watch) in H as [|H]; [done|].
    apply (P Short) in H as [|H]; [done|].
    apply (P Embed) in H as [|H]; [done|].
    apply (P Mobile) in H as [|H]; [done|done].
Qed.

(** C4 as stated fails.  A watch URL whose [v] is not the first parameter
    holds an identifier and yields [null]; a string that is no YouTube URL,
    with a short link after another host, yields an identifier instead of
    [null]; and a short link whose query quotes a watch URL yields the
    identifier of the quoted URL instead of its own. *)
Lemma C4_counterexample :
  extractVideoId "https://www.youtube.com/watch?feature=share&v=dQw4w9WgXcQ" = None /\
  (is_id "evil.example/?next=youtu.be/dQw4w9WgXcQ" = false /\
   (forall k id, ~ valid_url k id "evil.example/?next=youtu.be/dQw4w9WgXcQ") /\
   extractVideoId "evil.example/?next=youtu.be/dQw4w9WgXcQ" = Some "dQw4w9WgXcQ") /\
  (valid_url Short "AAAAAAAAAAA"
     "https://youtu.be/AAAAAAAAAAA?u=youtube.com/watch?v=BBBBBBBBBBB" /\
   extractVideoId "https://youtu.be/AAAAAAAAAAA?u=youtube.com/watch?v=BBBBBBBBBBB"
   = Some "BBBBBBBBBBB").
Proof.
  split; [vm_compute; reflexivity|].
  split; [split; [|split]|split].
  - vm_compute. reflexivity.
  - intros k id V.
    inversion V as [sch w tail Hs Hw Hid Hq E].
    destruct Hs as [->|[->| ->]]; destruct Hw as [->|[_ ->]]; destruct k;
      simpl in E; discriminate E.
  - vm_compute. reflexivity.
  - by apply (valid_url_intro Short "AAAAAAAAAAA" "https://" ""
                "?u=youtube.com/watch?v=BBBBBBBBBBB"); [right; right|left| |].
  - vm_compute. reflexivity.
Qed.

(** The shapes on examples. *)
Example extract_watch :
  extractVideoId "https://www.youtube.com/watch?v=dQw4w9WgXcQ&t=5" = Some "dQw4w9WgXcQ".
Proof. vm_compute. reflexivity. Qed.

Example extract_embed :
  extractVideoId "youtube.com/embed/dQw4w9WgXcQ" = Some "dQw4w9WgXcQ".
Proof. vm_compute. reflexivity. Qed.

Example extract_mobile :
  extractVideoId "http://m.youtube.com/watch?v=dQw4w9WgXcQ" = Some "dQw4w9WgXcQ".
Proof. vm_compute. reflexivity. Qed.

Example extract_long_id : extractVideoId "https://youtu.be/dQw4w9WgXcQX" = None.
Proof. vm_compute. reflexivity. Qed.

Example extract_blank : extractVideoId "   " = None.
Proof. vm_compute. reflexivity. Qed.

End ExtractFacts.

(** ** Retries and the transcript fetch *)

Module FetchFacts.
Import JsString Loader.

Section Retry.

Variable fn : nat -> load_outcome.
Variables maxRetries initialDelay backoffMultiplier : nat.

(** The loop returns the value of the first attempt that does not throw,
    when that attempt is within the budget. *)
Lemma retry_loop_returns n : forall fuel attempt lastError d,
  n < fuel ->
  (forall j, j < n -> exists e, fn (attempt + j) = Throws e) ->
  fn (attempt + n) = Returns d ->
  snd (retry_loop fn maxRetries initialDelay backoffMultiplier fuel attempt lastError)
  = inr d.
Proof.
  induction n as [|n IH]; intros fuel attempt lastError d Hlt Hthrows Hret;
    (destruct fuel as [|fuel]; [lia|]); simpl.
  - rewrite Nat.add_0_r in Hret. by rewrite Hret.
  - destruct (Hthrows 0) as [e He]; [lia|]. rewrite Nat.add_0_r in He. rewrite He.
    specialize (IH fuel (S attempt) e d).
    destruct (retry_loop _ _ _ _ fuel (S attempt) e) as [tr res]. simpl in *.
    apply IH; [lia| |].
    + intros j Hj. destruct (Hthrows (S j)) as [e' He']; [lia|].
      exists e'. by rewrite <- He', Nat.add_succ_r.
    + by rewrite <- Hret, Nat.add_succ_r.
Qed.

(** When every attempt throws, the loop throws the error of the last one. *)
Lemma retry_loop_throws fuel : forall attempt lastError,
  (forall j, j < S fuel -> exists e, fn (attempt + j) = Throws e) ->
  exists e, fn (attempt + fuel) = Throws e /\
    snd (retry_loop fn maxRetries initialDelay backoffMultiplier (S fuel) attempt lastError)
    = inl e.
Proof.
  induction fuel as [|fuel IH]; intros attempt lastError Hthrows.
  - destruct (Hthrows 0) as [e He]; [lia|]. exists e. split; [done|].
    rewrite Nat.add_0_r in He. simpl. rewrite He. by destruct (_ <? _).
  - destruct (Hthrows 0) as [e He]; [lia|]. rewrite Nat.add_0_r in He.
    destruct (IH (S attempt) e) as [e' [He' Hres]].
    { intros j Hj. destruct (Hthrows (S j)) as [e2 He2]; [lia|].
      exists e2. by rewrite <- He2, Nat.add_succ_r. }
    exists e'. split; [by rewrite <- He', Nat.add_succ_r|].
    change (snd (let hook := if (0 <? attempt)%nat then [OnRetry attempt maxRetries] else [] in
                 match fn attempt with
                 | Returns docs => (hook, inr docs)
                 | Throws e =>
                     let wait :=
                       if (attempt <? maxRetries)%nat
                       then [Sleep (initialDelay * backoffMultiplier ^ attempt)] else [] in
                     let '(tr, res) :=
                       retry_loop fn maxRetries initialDelay backoffMultiplier (S fuel)
                         (S attempt) e in
                     (hook ++ wait ++ tr, res)
                 end) = inl e').
    rewrite He. cbv zeta.
    destruct (retry_loop _ _ _ _ (S fuel) (S attempt) e) as [tr res]. done.
Qed.

End Retry.

Lemma flat_text_empty ds :
  Forall (fun d => pageContent d = None \/ pageContent d = Some "") ds ->
  flat_text ds = "".
Proof.
  unfold flat_text. induction 1 as [|d ds [Hd|Hd] _ IH]; simpl; [done| |];
    rewrite Hd; simpl; exact IH.
Qed.

(** C5 (amended): for an input that names a video, [fetchTranscript] fails
    when the first attempt that does not throw returns no passage at all,
    and when every attempt of the budget throws; when that attempt returns
    passages it succeeds with their non-empty texts joined, also when every
    passage is empty, where the text of the result is empty. *)
Theorem C5_fetch_outcomes (input vid : string) (options : FetchTranscriptOptions)
    (load : nat -> load_outcome) :
  extractVideoId input = Some vid ->
  (forall a, a <= maxRetries options ->
     (forall b, b < a -> exists e, load b = Throws e) ->
     load a = Returns None \/ load a = Returns (Some []) ->
     fetchTranscript input options load
     = inl ("Failed to fetch transcript for video " +:+ vid +:+ ": "
            +:+ ("No transcript found for video: " +:+ vid))) /\
  ((forall b, b <= maxRetries options -> exists e, load b = Throws e) ->
   exists e, load (maxRetries options) = Throws e /\
     fetchTranscript input options load
     = inl ("Failed to fetch transcript for video " +:+ vid +:+ ": " +:+ e)) /\
  (forall a ds, a <= maxRetries options ->
     (forall b, b < a -> exists e, load b = Throws e) ->
     load a = Returns (Some ds) -> ds <> [] ->
     fetchTranscript input options load
     = inr {| id := vid; text := flat_text ds; docs := ds |} /\
     (Forall (fun d => pageContent d = None \/ pageContent d = Some "") ds ->
      flat_text ds = "")).
Proof.
  intros Hid.
  assert (Htrim : String.eqb (trim input) "" = false).
  { unfold extractVideoId in Hid. by destruct (String.eqb (trim input) ""). }
  unfold fetchTranscript, retryWithBackoff. rewrite Htrim, Hid.
  split; [|split].
  - intros a Ha Hthrows Hret.
    destruct Hret as [Hret|Hret];
      rewrite (retry_loop_returns load _ _ _ a (S (maxRetries options)) 0 _ _
                 ltac:(lia) Hthrows Hret); done.
  - intros Hthrows.
    destruct (retry_loop_throws load (maxRetries options) (retryDelay options) 2
                (maxRetries options) 0 "undefined") as [e [He Hres]].
    { intros j Hj. apply Hthrows. lia. }
    exists e. split; [done|]. by rewrite Hres.
  - intros a ds Ha Hthrows Hret Hne. split; [|apply flat_text_empty].
    rewrite (retry_loop_returns load _ _ _ a (S (maxRetries options)) 0 _ _
               ltac:(lia) Hthrows Hret).
    by destruct ds.
Qed.

Lemma C5_witness :
  fetchTranscript "dQw4w9WgXcQ" default_options
    (fun attempt => if (attempt <? 2)%nat then Throws "network" else Returns (Some []))
  = inl ("Failed to fetch transcript for video " +:+ "dQw4w9WgXcQ" +:+ ": "
         +:+ ("No transcript found for video: " +:+ "dQw4w9WgXcQ")).
Proof.
  apply (C5_fetch_outcomes "dQw4w9WgXcQ" "dQw4w9WgXcQ" default_options
           (fun attempt => if (attempt <? 2)%nat then Throws "network" else Returns (Some []))
           ltac:(reflexivity)) with (a := 2).
  - simpl. lia.
  - intros b Hb. exists "network". destruct b as [|[|b]]; [done|done|lia].
  - by right.
Defined.

(** C5 as stated fails: a source that answers with one passage whose text
    is empty yields a successful result with an empty text. *)
Lemma C5_counterexample :
  fetchTranscript "dQw4w9WgXcQ" default_options
    (fun _ => Returns (Some [{| pageContent := Some "" |}]))
  = inr {| id := "dQw4w9WgXcQ"; text := "";
           docs := [{| pageContent := Some "" |}] |}.
Proof. vm_compute. reflexivity. Qed.

Example backoff_delays :
  fst (retryWithBackoff (fun _ => Throws "down") 3 1000 2)
  = [Sleep 1000; OnRetry 1 3; Sleep 2000; OnRetry 2 3; Sleep 4000; OnRetry 3 3].
Proof. reflexivity. Qed.

End FetchFacts.

(** ** The retrieval query *)

Module RagFacts.
Import JsString Rag.

(** C6 (amended): [queryRag] fails exactly when the backing similarity
    search throws, with the error of the search; it never asks whether the
    namespace exists, so its outcome is the same for two stores whose
    searches answer alike; and when the search answers with no passage,
    for a missing namespace as for an empty one, the query succeeds with
    zero results and an empty context. *)
Theorem C6_query_outcomes (Score : Type) (percent : Score -> string)
    (index : VectorIndex Score) (videoId question : string) (k : nat)
    (useCompression : bool) :
  let retrievalK := if useCompression then Nat.min (k * 2) 10 else k in
  (forall error,
     similaritySearchWithScore index videoId question retrievalK = inl error <->
     queryRag percent index videoId question k useCompression = inl error) /\
  (similaritySearchWithScore index videoId question retrievalK = inr [] ->
   queryRag percent index videoId question k useCompression
   = inr {| context := ""; results := []; compressionUsed := useCompression |}) /\
  (forall index' : VectorIndex Score,
     similaritySearchWithScore index' videoId question retrievalK
     = similaritySearchWithScore index videoId question retrievalK ->
     queryRag percent index' videoId question k useCompression
     = queryRag percent index videoId question k useCompression).
Proof.
  intros retrievalK. unfold queryRag. fold retrievalK.
  split; [|split].
  - intros error.
    destruct (similaritySearchWithScore index videoId question retrievalK);
      split; congruence.
  - intros ->. simpl. by rewrite andb_false_r.
  - by intros index' ->.
Qed.

(** C6 as stated fails: in a store where the namespace of the video does
    not exist and the search answers with no passage, the query does not
    fail; it returns what it returns for an existing, empty namespace. *)
Lemma C6_counterexample :
  let missing : VectorIndex Z :=
    {| namespaceExists := fun _ => false;
       similaritySearchWithScore := fun _ _ _ => inr [] |} in
  let empty : VectorIndex Z :=
    {| namespaceExists := fun _ => true;
       similaritySearchWithScore := fun _ _ _ => inr [] |} in
  namespaceExists missing "dQw4w9WgXcQ" = false /\
  queryRag (fun _ => "0.0") missing "dQw4w9WgXcQ" "What is said?" 4 false
  = inr {| context := ""; results := []; compressionUsed := false |} /\
  queryRag (fun _ => "0.0") missing "dQw4w9WgXcQ" "What is said?" 4 false
  = queryRag (fun _ => "0.0") empty "dQw4w9WgXcQ" "What is said?" 4 false.
Proof. vm_compute. repeat split. Qed.

Example timestamp_125 : formatTimestamp 125 = "2:05".
Proof. vm_compute. reflexivity. Qed.

End RagFacts.

(** ** The stream serializer *)

Module AskFacts.
Import JsString Sanitize Ask.

Lemma tokens_app a b : tokens (a ++ b) = tokens a ++ tokens b.
Proof. unfold tokens. apply omap_app. Qed.

Lemma tool_starts_app a b : tool_starts (a ++ b) = tool_starts a ++ tool_starts b.
Proof. unfold tool_starts. apply omap_app. Qed.

(** *** No terminator inside the loop *)

Lemma handle_answer_events st msg :
  Forall (fun e => is_terminator e = false) (snd (handle_answer st msg)).
Proof.
  unfold handle_answer. destruct (is_answer msg); [|constructor].
  destruct (_ && _); simpl; repeat constructor.
Qed.

Lemma handle_tool_calls_events st msg :
  Forall (fun e => is_terminator e = false) (snd (handle_tool_calls st msg)).
Proof.
  unfold handle_tool_calls. destruct (String.eqb _ _); [|constructor].
  destruct (m_tool_calls msg); [constructor|].
  destruct (negb _); simpl; repeat constructor.
Qed.

Lemma handle_tool_result_events st msg :
  Forall (fun e => is_terminator e = false) (snd (handle_tool_result st msg)).
Proof.
  unfold handle_tool_result. destruct (String.eqb _ _); [|constructor].
  destruct (negb _); simpl; repeat constructor.
Qed.

Lemma step_events st c :
  Forall (fun e => is_terminator e = false) (snd (step st c)).
Proof.
  unfold step. destruct (last c) as [msg|]; [|constructor].
  pose proof (handle_answer_events st msg) as H1.
  destruct (handle_answer st msg) as [st1 ev1].
  pose proof (handle_tool_calls_events st1 msg) as H2.
  destruct (handle_tool_calls st1 msg) as [st2 ev2].
  pose proof (handle_tool_result_events st2 msg) as H3.
  destruct (handle_tool_result st2 msg) as [st3 ev3].
  simpl in *. by repeat apply Forall_app_2.
Qed.

Lemma process_from_events chunks : forall st,
  Forall (fun e => is_terminator e = false) (snd (process_from st chunks)).
Proof.
  induction chunks as [|c chunks IH]; intros st; simpl; [constructor|].
  pose proof (step_events st c) as H1.
  destruct (step st c) as [st1 ev1].
  specialize (IH st1). destruct (process_from st1 chunks) as [st2 ev2].
  simpl in *. by apply Forall_app_2.
Qed.

(** C2: a request that is not a POST is answered by a JSON body and writes
    no event.  For every other request the events written by [handler] are
    a body without [done] and [error] followed by exactly one terminator,
    with nothing after it: [done] when validation, the start of the agent
    and the whole stream succeed, the body being what the loop wrote for all
    chunks; otherwise one [error] carrying the sanitized message of the
    failure. *)
Theorem C2_one_terminator (agent : string -> agent_run) (req : request) :
  (method req <> "POST" /\
   handler agent req = Json 405 "Method Not Allowed" "Only POST requests are accepted")
  \/
  (method req = "POST" /\
   exists body t,
     handler agent req = EventStream (body ++ [t]) /\
     Forall (fun e => is_terminator e = false) body /\
     ((t = Done /\
       exists u q, validate req = inr (u, q) /\
         start_error (agent (user_message u q)) = None /\
         stream_error (agent (user_message u q)) = None /\
         body = process (chunks (agent (user_message u q))))
      \/
      (exists error, t = ErrorEvent (sanitizeErrorMessage error) /\
         (validate req = inl error \/
          exists u q, validate req = inr (u, q) /\
            (start_error (agent (user_message u q)) = Some error \/
             start_error (agent (user_message u q)) = None /\
             stream_error (agent (user_message u q)) = Some error))))).
Proof.
  unfold handler.
  destruct (String.eqb_spec (method req) "POST") as [Hm|Hm]; simpl; [right|left; done].
  split; [done|].
  destruct (validate req) as [error|[u q]] eqn:V.
  { exists [], (ErrorEvent (sanitizeErrorMessage error)).
    split; [done|]. split; [constructor|]. right. exists error. split; [done|]. by left. }
  destruct (start_error (agent (user_message u q))) as [error|] eqn:S.
  { exists [], (ErrorEvent (sanitizeErrorMessage error)).
    split; [done|]. split; [constructor|]. right. exists error. split; [done|].
    right. exists u, q. split; [done|]. by left. }
  destruct (stream_error (agent (user_message u q))) as [error|] eqn:T.
  - exists (process (chunks (agent (user_message u q)))),
      (ErrorEvent (sanitizeErrorMessage error)).
    split; [done|]. split; [apply process_from_events|].
    right. exists error. split; [done|]. right. exists u, q. split; [done|]. by right.
  - exists (process (chunks (agent (user_message u q)))), Done.
    split; [done|]. split; [apply process_from_events|].
    left. split; [done|]. by exists u, q.
Qed.




(** *** Tool starts *)

Lemma handle_answer_tool st msg :
  lastToolName (fst (handle_answer st msg)) = lastToolName st /\
  tool_starts (snd (handle_answer st msg)) = [].
Proof.
  unfold handle_answer. destruct (is_answer msg); [|done].
  by destruct (_ && _).
Qed.

Lemma handle_tool_result_tool st msg :
  lastToolName (fst (handle_tool_result st msg)) = lastToolName st /\
  tool_starts (snd (handle_tool_result st msg)) = [].
Proof.
  unfold handle_tool_result. destruct (String.eqb _ _); [|done].
  by destruct (negb _).
Qed.

(** One chunk announces its tool unless it is the one announced last. *)
Lemma step_tool st c :
  tool_starts (snd (step st c)) = List.map sanitizeHTML (collapse (lastToolName st) (observed_tools [c])) /\
  lastToolName (fst (step st c)) = List.last (observed_tools [c]) (lastToolName st).
Proof.
  unfold step, observed_tools. simpl.
  destruct (last c) as [msg|]; [|done].
  destruct (handle_answer_tool st msg) as [A1 A2].
  destruct (handle_answer st msg) as [st1 ev1]. simpl in *.
  assert (H2 : tool_starts (snd (handle_tool_calls st1 msg)) =
               List.map sanitizeHTML (collapse (lastToolName st)
                 (omap (fun x => x)
                    [if String.eqb (m_type msg) "ai"
                     then match m_tool_calls msg with
                          | toolCall :: _ => Some (tc_name toolCall)
                          | [] => None
                          end
                     else None])) /\
               lastToolName (fst (handle_tool_calls st1 msg)) =
               List.last (omap (fun x => x)
                    [if String.eqb (m_type msg) "ai"
                     then match m_tool_calls msg with
                          | toolCall :: _ => Some (tc_name toolCall)
                          | [] => None
                          end
                     else None]) (lastToolName st)).
  { unfold handle_tool_calls. rewrite A1.
    destruct (String.eqb (m_type msg) "ai"); [|done].
    destruct (m_tool_calls msg) as [|toolCall rest]; [done|]. simpl.
    destruct (String.eqb_spec (tc_name toolCall) (lastToolName st)) as [->|]; simpl.
    - rewrite A1. done.
    - done. }
  simpl in H2.
  destruct (handle_tool_calls st1 msg) as [st2 ev2]. simpl in *.
  destruct (handle_tool_result_tool st2 msg) as [R1 R2].
  destruct (handle_tool_result st2 msg) as [st3 ev3]. simpl in *.
  rewrite !tool_starts_app, A2, R2, R1, app_nil_r. simpl.
  destruct H2 as [H2 H3]. rewrite H2, H3.
  destruct (String.eqb (m_type msg) "ai"); [|done].
  by destruct (m_tool_calls msg).
Qed.

Lemma last_cons_default (l : list string) : forall x d d',
  List.last (x :: l) d = List.last (x :: l) d'.
Proof.
  induction l as [|y l IH]; intros x d d'; [done|].
  change (List.last (y :: l) d = List.last (y :: l) d'). apply IH.
Qed.

Lemma collapse_app a b : forall previous,
  collapse previous (a ++ b) = collapse previous a ++ collapse (List.last a previous) b.
Proof.
  induction a as [|n a IH]; intros previous; [done|].
  change (collapse previous (n :: a ++ b) =
          collapse previous (n :: a) ++ collapse (List.last (n :: a) previous) b).
  cbn [collapse].
  destruct (String.eqb_spec n previous) as [->|Hne].
  - rewrite IH. by destruct a as [|x a].
  - rewrite IH. destruct a as [|x a]; [done|].
    change (List.last (n :: x :: a) previous) with (List.last (x :: a) previous).
    by rewrite (last_cons_default a x n previous).
Qed.

Lemma observed_tools_cons c chunks :
  observed_tools (c :: chunks) = observed_tools [c] ++ observed_tools chunks.
Proof.
  unfold observed_tools. change (c :: chunks) with ([c] ++ chunks). apply omap_app.
Qed.

Lemma process_from_tool chunks : forall st,
  tool_starts (snd (process_from st chunks))
  = List.map sanitizeHTML (collapse (lastToolName st) (observed_tools chunks)).
Proof.
  induction chunks as [|c chunks IH]; intros st; [done|].
  cbn [process_from].
  destruct (step_tool st c) as [H1 H2].
  destruct (step st c) as [st1 ev1]. cbn [fst snd] in *.
  specialize (IH st1). destruct (process_from st1 chunks) as [st2 ev2].
  cbn [fst snd] in *.
  rewrite tool_starts_app, H1, IH, H2, (observed_tools_cons c chunks), collapse_app.
  by rewrite List.map_app.
Qed.

Lemma no_repeat_collapse names : forall previous,
  no_repeat (collapse previous names) /\
  match collapse previous names with n :: _ => n <> previous | [] => True end.
Proof.
  induction names as [|n names IH]; intros previous; simpl; [done|].
  destruct (String.eqb_spec n previous) as [->|Hne]; [apply IH|].
  split; [|done]. destruct (IH n) as [I1 I2].
  simpl. destruct (collapse n names) eqn:E; [done|]. split; [congruence|done].
Qed.

Lemma no_repeat_map_inj (f : string -> string) l :
  (forall a b, f a = f b -> a = b) -> no_repeat l -> no_repeat (List.map f l).
Proof.
  intros Hf. induction l as [|a [|b l] IH]; simpl; [done|done|].
  intros [Hab H]. split; [intros E; by apply Hab, Hf|]. by apply IH.
Qed.

(** C3 (amended): the tool names of the [tool_start] events of a request
    are the escaped names of the observed tool calls in which every run of
    equal neighbours, the empty name at the start included, counts once; so
    the name announced at the first observation of a run is not announced
    again while it stays the last one, and no two successive [tool_start]
    events carry the same name. *)
Theorem C3_tool_start_per_run (chunks : list chunk) :
  tool_starts (process chunks)
    = List.map sanitizeHTML (collapse "" (observed_tools chunks)) /\
  no_repeat (tool_starts (process chunks)).
Proof.
  unfold process. rewrite process_from_tool. simpl. split; [done|].
  apply no_repeat_map_inj; [apply SanitizeFacts.sanitizeHTML_inj|].
  apply no_repeat_collapse.
Qed.

(** C3 as stated fails: the tool [is_video_indexed] is called, then
    [index_content], then [is_video_indexed] again; the name of the first
    call is announced twice. *)
Lemma C3_counterexample :
  tool_starts (process [[ai_calls "is_video_indexed"];
                        [ai_calls "index_content"];
                        [ai_calls "is_video_indexed"]])
  = ["is_video_indexed"; "index_content"; "is_video_indexed"] /\
  ~ NoDup (tool_starts (process [[ai_calls "is_video_indexed"];
                                 [ai_calls "index_content"];
                                 [ai_calls "is_video_indexed"]])).
Proof.
  assert (E : tool_starts (process [[ai_calls "is_video_indexed"];
                        [ai_calls "index_content"];
                        [ai_calls "is_video_indexed"]])
  = ["is_video_indexed"; "index_content"; "is_video_indexed"]) by (vm_compute; reflexivity).
  split; [exact E|]. rewrite E. intros H.
  apply NoDup_cons in H as [H _]. apply H. set_solver.
Qed.

(** *** Tokens *)

Lemma handle_tool_calls_token st msg :
  messageBuffer (fst (handle_tool_calls st msg)) = messageBuffer st /\
  sentMessages (fst (handle_tool_calls st msg)) = sentMessages st /\
  tokens (snd (handle_tool_calls st msg)) = [].
Proof.
  unfold handle_tool_calls. destruct (String.eqb _ _); [|done].
  destruct (m_tool_calls msg); [done|]. by destruct (negb _).
Qed.

Lemma handle_tool_result_token st msg :
  messageBuffer (fst (handle_tool_result st msg)) = messageBuffer st /\
  tokens (snd (handle_tool_result st msg)) = [] /\
  (forall k, k ∈ sentMessages (fst (handle_tool_result st msg)) ->
     k ∈ sentMessages st \/ exists x, k = "tool-" +:+ x).
Proof.
  unfold handle_tool_result. destruct (String.eqb _ _); [|by auto].
  destruct (negb _); simpl; [|by auto].
  split; [done|]. split; [done|]. intros k Hk.
  apply elem_of_union in Hk as [Hk|Hk]; [|by left].
  apply elem_of_singleton in Hk. right. by eexists.
Qed.

(** The tokens and the buffer of a chunk are those of its first [if]. *)
Lemma step_token st c msg :
  last c = Some msg ->
  tokens (snd (step st c)) = tokens (snd (handle_answer st msg)) /\
  messageBuffer (fst (step st c)) = messageBuffer (fst (handle_answer st msg)) /\
  (forall k, k ∈ sentMessages (fst (step st c)) ->
     k ∈ sentMessages (fst (handle_answer st msg)) \/ exists x, k = "tool-" +:+ x).
Proof.
  intros L. unfold step. rewrite L.
  destruct (handle_answer st msg) as [st1 ev1].
  destruct (handle_tool_calls_token st1 msg) as (C1 & C2 & C3).
  destruct (handle_tool_calls st1 msg) as [st2 ev2].
  destruct (handle_tool_result_token st2 msg) as (R1 & R2 & R3).
  destruct (handle_tool_result st2 msg) as [st3 ev3]. simpl in *.
  rewrite !tokens_app, C3, R2, !app_nil_r, R1, C1.
  split; [done|]. split; [done|]. intros k Hk. rewrite <- C2. by apply R3.
Qed.

Lemma step_token_none st c :
  answer_text c = None ->
  tokens (snd (step st c)) = [] /\
  messageBuffer (fst (step st c)) = messageBuffer st /\
  (fresh st -> fresh (fst (step st c))).
Proof.
  unfold answer_text. intros A.
  destruct (last c) as [msg|] eqn:L.
  - destruct (step_token st c msg L) as (T1 & T2 & T3).
    unfold handle_answer in *. destruct (is_answer msg); [done|]. simpl in *.
    split; [done|]. split; [done|]. intros [F1 F2]. split; [congruence|].
    intros k Hk. destruct (T3 k Hk) as [?|?]; auto.
  - unfold step. rewrite L. done.
Qed.

(** The first answer of a request is written as one token. *)
Lemma step_token_first st c t :
  fresh st -> answer_text c = Some t -> t <> "" ->
  tokens (snd (step st c)) = [sanitizeHTML t] /\
  messageBuffer (fst (step st c)) = t.
Proof.
  unfold answer_text. intros [F1 F2] A Ht.
  destruct (last c) as [msg|] eqn:L; [|done].
  destruct (step_token st c msg L) as (T1 & T2 & _).
  unfold handle_answer in *. destruct (is_answer msg) eqn:I; [|done].
  injection A as A. rewrite A in *.
  assert (K : bool_decide (messageKey msg ∈ sentMessages st) = false).
  { apply bool_decide_eq_false. intros Hk. destruct (F2 _ Hk) as [x Hx].
    unfold is_answer in I. apply andb_true_iff in I as [I _].
    apply andb_true_iff in I as [I _]. apply String.eqb_eq in I.
    unfold messageKey in Hx. rewrite I in Hx. discriminate Hx. }
  rewrite K, F1 in *.
  destruct (String.eqb_spec t "") as [|_]; [done|]. simpl in *. done.
Qed.

(** An answer that repeats the buffer writes nothing. *)
Lemma step_token_same st c :
  answer_text c = Some (messageBuffer st) ->
  tokens (snd (step st c)) = [] /\
  messageBuffer (fst (step st c)) = messageBuffer st.
Proof.
  unfold answer_text. intros A.
  destruct (last c) as [msg|] eqn:L; [|done].
  destruct (step_token st c msg L) as (T1 & T2 & _).
  unfold handle_answer in *. destruct (is_answer msg) eqn:I; [|done].
  injection A as A. rewrite A in *. rewrite String.eqb_refl in *.
  rewrite andb_false_r in *. done.
Qed.

Lemma process_from_same chunks t : forall st,
  messageBuffer st = t ->
  (forall c a, c ∈ chunks -> answer_text c = Some a -> a = t) ->
  tokens (snd (process_from st chunks)) = [].
Proof.
  induction chunks as [|c chunks IH]; intros st B H; [done|].
  cbn [process_from].
  assert (S1 : tokens (snd (step st c)) = [] /\ messageBuffer (fst (step st c)) = t).
  { destruct (answer_text c) as [a|] eqn:A.
    - assert (a = t) as -> by (apply (H c); [left|done]).
      rewrite <- B in A. destruct (step_token_same st c A). split; congruence.
    - destruct (step_token_none st c A) as (? & ? & _). split; congruence. }
  destruct (step st c) as [st1 ev1]. cbn [fst snd] in *. destruct S1 as [S1 S2].
  specialize (IH st1 S2). destruct (process_from st1 chunks) as [st2 ev2].
  cbn [fst snd] in *. rewrite tokens_app, S1, IH; [done|].
  intros c' a Hc. apply H. by right.
Qed.

Lemma process_from_fresh chunks t : forall st,
  fresh st -> t <> "" ->
  (forall c a, c ∈ chunks -> answer_text c = Some a -> a = t) ->
  (exists c, c ∈ chunks /\ answer_text c = Some t) ->
  tokens (snd (process_from st chunks)) = [sanitizeHTML t].
Proof.
  induction chunks as [|c chunks IH]; intros st F Ht H [c0 [Hc0 A0]].
  { by apply elem_of_nil in Hc0. }
  cbn [process_from].
  destruct (answer_text c) as [a|] eqn:A.
  - assert (a = t) as -> by (apply (H c); [left|done]).
    destruct (step_token_first st c t F A Ht) as [S1 S2].
    destruct (step st c) as [st1 ev1]. cbn [fst snd] in *.
    pose proof (process_from_same chunks t st1 S2) as P.
    destruct (process_from st1 chunks) as [st2 ev2]. cbn [fst snd] in *.
    rewrite tokens_app, S1, P; [done|]. intros c' a Hc. apply H. by right.
  - destruct (step_token_none st c A) as (S1 & _ & S3).
    destruct (step st c) as [st1 ev1]. cbn [fst snd] in *.
    specialize (IH st1 (S3 F) Ht).
    destruct (process_from st1 chunks) as [st2 ev2]. cbn [fst snd] in *.
    rewrite tokens_app, S1, IH; [done| |].
    + intros c' a Hc. apply H. by right.
    + apply elem_of_cons in Hc0 as [->|Hc0]; [congruence|]. by exists c0.
Qed.

Lemma fresh_initial : fresh initial.
Proof. split; [done|]. intros k Hk. by apply not_elem_of_empty in Hk. Qed.

(** What one chunk does to the tokens: nothing, or one token with a text
    other than the buffer, which becomes the buffer. *)
Lemma step_token_cases st c :
  (tokens (snd (step st c)) = [] /\
   messageBuffer (fst (step st c)) = messageBuffer st) \/
  (exists t, tokens (snd (step st c)) = [sanitizeHTML t] /\
     t <> messageBuffer st /\ messageBuffer (fst (step st c)) = t).
Proof.
  destruct (last c) as [msg|] eqn:L.
  - destruct (step_token st c msg L) as (T1 & T2 & _). rewrite T1, T2.
    unfold handle_answer. destruct (is_answer msg); [|by left].
    destruct (String.eqb_spec (content_text (m_content msg)) (messageBuffer st))
      as [E|N].
    + rewrite andb_false_r. by left.
    + destruct (_ && _); [|by left]. right. by eexists.
  - unfold step. rewrite L. by left.
Qed.

(** No token repeats the text of the token before it. *)
Lemma process_from_no_repeat chunks : forall st,
  no_repeat (tokens (snd (process_from st chunks))) /\
  match tokens (snd (process_from st chunks)) with
  | t :: _ => t <> sanitizeHTML (messageBuffer st)
  | [] => True
  end.
Proof.
  induction chunks as [|c chunks IH]; intros st; [done|].
  cbn [process_from].
  pose proof (step_token_cases st c) as S.
  destruct (step st c) as [st1 ev1]. cbn [fst snd] in *.
  specialize (IH st1). destruct (process_from st1 chunks) as [st2 ev2].
  cbn [fst snd] in *. rewrite tokens_app.
  destruct S as [[S1 S2]|(t & S1 & S2 & S3)]; rewrite S1.
  - simpl. by rewrite <- S2.
  - simpl. destruct IH as [I1 I2]. rewrite S3 in I2. split.
    + destruct (tokens ev2); [done|]. split; [congruence|done].
    + intros E. by apply SanitizeFacts.sanitizeHTML_inj in E.
Qed.

(** C1 (amended): no token event repeats the content of the token event
    before it.  When every chunk that shows an answer shows the same
    non-empty text and some chunk does, the request emits exactly one token
    event, which carries that text HTML-escaped; the tokens put together
    are then the escaped answer once, and the answer itself when it holds
    none of the six escaped characters. *)
Theorem C1_single_answer_single_token (chunks : list chunk) :
  no_repeat (tokens (process chunks)) /\
  forall t : string,
    t <> "" ->
    (forall c a, c ∈ chunks -> answer_text c = Some a -> a = t) ->
    (exists c, c ∈ chunks /\ answer_text c = Some t) ->
    tokens (process chunks) = [sanitizeHTML t] /\
    join "" (tokens (process chunks)) = sanitizeHTML t /\
    (all_chars (fun a => negb (needs_escape a)) t = true ->
     join "" (tokens (process chunks)) = t).
Proof.
  split; [apply process_from_no_repeat|].
  intros t Ht H E.
  assert (P : tokens (process chunks) = [sanitizeHTML t]).
  { unfold process. apply process_from_fresh; auto using fresh_initial. }
  rewrite P. split; [done|]. split; [done|]. intros Hp. simpl.
  by apply SanitizeFacts.sanitizeHTML_plain.
Qed.

Lemma C1_witness :
  "It is 42." <> "" /\
  tokens (process [[ai_calls "query_video_content"]; [ai_says "It is 42."];
                   [ai_says "It is 42."]])
  = [sanitizeHTML "It is 42."].
Proof.
  split; [discriminate|].
  apply (proj2 (C1_single_answer_single_token
                  [[ai_calls "query_video_content"]; [ai_says "It is 42."];
                   [ai_says "It is 42."]]) "It is 42.").
  - discriminate.
  - intros c a Hc. repeat (apply elem_of_cons in Hc as [->|Hc]);
      [| | |by apply elem_of_nil in Hc]; vm_compute; congruence.
  - exists [ai_says "It is 42."]. split; [|reflexivity].
    apply elem_of_cons. right. apply elem_of_cons. by left.
Defined.

(** C1 as stated fails on a growing answer: the final answer of the stream
    is [AB], the tokens are [A] and [AB], whose concatenation repeats [A]. *)
Lemma C1_counterexample :
  final_answer [[ai_says "A"]; [ai_says "AB"]] = Some "AB" /\
  tokens (process [[ai_says "A"]; [ai_says "AB"]]) = ["A"; "AB"] /\
  join "" (tokens (process [[ai_says "A"]; [ai_says "AB"]])) <> "AB".
Proof. vm_compute. repeat split; congruence. Qed.

End AskFacts.

(** ** The compressor *)

Module CompressionFacts.
Import JsString Compression.

















(** In model-assisted mode the content returned is never longer than the
    passage. *)
Lemma compressDocument_bound model pageContent query :
  String.length (fst (compressDocument model pageContent query))
  <= String.length pageContent.
Proof.
  unfold compressDocument. destruct (model _) as [|response]; [simpl; lia|].
  destruct (_ || _); [simpl; lia|].
  unfold shorter_by_a_fifth.
  destruct (Nat.ltb_spec (5 * String.length
              match response with RString s => trim s | ROther shown => shown end)
              (4 * String.length pageContent)); simpl; lia.
Qed.



Example split_sentences : split sentence_end "a.b!?c." = ["a"; "b"; "c"; ""].
Proof. reflexivity. Qed.

Example relevant_first :
  extractRelevantSentences
    "An introduction that says little. The gradient descent method is explained."
    "gradient descent" 3
  = "The gradient descent method is explained.".
Proof. vm_compute. reflexivity. Qed.

Example fallback_leading :
  extractRelevantSentences
    "An introduction that says little. The gradient descent method is explained."
    "backpropagation" 1
  = "An introduction that says little.".
Proof. vm_compute. reflexivity. Qed.

End CompressionFacts.

(** ** More on the rate limiter *)

Module RateLimitExtras.
Import RateLimit RateLimitFacts.

Local Open Scope Z_scope.

(** X1: for a limiter with a maximum of at least one request and a window
    that is not negative, [isAllowed] allows exactly when [getInfo] (at the
    same instant) shows a remaining budget above 0; an allowed call lowers
    the remaining budget by one and a refused call leaves the limiter as it
    was. *)
Theorem X1_verdict_matches_budget (now : Z) (id : string) (rl : RateLimiter) :
  1 <= maxRequests rl -> 0 <= windowMs rl ->
  fst (isAllowed now id rl) = positive (remaining (getInfo now id rl)) /\
  (fst (isAllowed now id rl) = true ->
   exists n, remaining (getInfo now id rl) = Num n /\
     remaining (getInfo now id (snd (isAllowed now id rl))) = Num (n - 1)) /\
  (fst (isAllowed now id rl) = false -> snd (isAllowed now id rl) = rl).
Proof.
  intros Hmax Hwin.
  assert (New : forall s : gmap string record,
    lookup (<[id := {| count := 1; resetTime := now + windowMs rl |}]> s) id
    = Own {| count := 1; resetTime := now + windowMs rl |}).
  { intros s. apply lookup_own. by rewrite lookup_insert_eq. }
  unfold isAllowed, getInfo.
  destruct (lookup (store rl) id) as [r| |] eqn:E.
  - destruct (now >? resetTime r) eqn:G.
    + cbn [fst snd set_store store maxRequests windowMs]. rewrite New.
      cbn [resetTime count].
      destruct (now >? now + windowMs rl) eqn:G2; [lia|].
      cbn [remaining positive]. split; [symmetry; apply Z.ltb_lt; lia|].
      split; [|done]. intros _. eexists. split; [done|]. f_equal. lia.
    + destruct (count r <? maxRequests rl) eqn:L.
      * cbn [fst snd set_store store maxRequests windowMs].
        rewrite (lookup_own _ id {| count := count r + 1; resetTime := resetTime r |})
          by (by rewrite lookup_insert_eq).
        cbn [resetTime count]. rewrite G.
        cbn [remaining positive]. split; [symmetry; apply Z.ltb_lt; lia|].
        split; [|done]. intros _. eexists. split; [done|]. f_equal. lia.
      * cbn [fst snd remaining positive]. rewrite E, G. cbn [remaining].
        split; [symmetry; apply Z.ltb_ge; lia|]. split; done.
  - cbn [fst snd remaining positive]. split; [done|]. split; done.
  - cbn [fst snd set_store store maxRequests windowMs]. rewrite New.
    cbn [resetTime count].
    destruct (now >? now + windowMs rl) eqn:G2; [lia|].
    cbn [remaining positive]. split; [symmetry; apply Z.ltb_lt; lia|].
    split; [|done]. intros _. eexists. split; [done|]. f_equal. lia.
Qed.

Lemma X1_witness :
  (1 <= maxRequests rateLimiter /\ 0 <= windowMs rateLimiter) /\
  fst (isAllowed 5 "10.0.0.1" rateLimiter)
  = positive (remaining (getInfo 5 "10.0.0.1" rateLimiter)).
Proof.
  split; [simpl; lia|].
  apply (X1_verdict_matches_budget 5 "10.0.0.1" rateLimiter); simpl; lia.
Defined.

(** X2: within a live window the calls for one identifier are allowed until
    the room left in the counter is used up and refused from then on: of [n]
    calls made before the window's [resetTime] has passed, the first
    [min n (maxRequests - count)] return [true] and all later ones [false]. *)
Theorem X2_budget_per_window (ts : list Z) : forall (id : string) (rl : RateLimiter)
    (r : record),
  store rl !! id = Some r ->
  Forall (fun t => t <= resetTime r) ts ->
  let room := Z.to_nat (maxRequests rl - count r) in
  fst (isAllowed_seq ts id rl)
  = repeat true (Nat.min (length ts) room)
    ++ repeat false (length ts - Nat.min (length ts) room).
Proof.
  induction ts as [|t ts IH]; intros id rl r E Hall room; [done|].
  apply Forall_cons in Hall as [Ht Hall]. cbn [isAllowed_seq].
  destruct (Z.ltb_spec (count r) (maxRequests rl)) as [L|L].
  - destruct (isAllowed_live_below t id rl r E Ht L) as [Hb Hs].
    destruct (isAllowed_config t id rl) as [Hm _].
    destruct (isAllowed t id rl) as [b rl1]. cbn [fst snd] in *. subst b.
    specialize (IH id rl1 _ Hs Hall). cbn [count resetTime] in IH. rewrite Hm in IH.
    destruct (isAllowed_seq ts id rl1) as [bs rl2]. cbn [fst snd] in *.
    rewrite IH. unfold room.
    replace (Z.to_nat (maxRequests rl - count r))
      with (S (Z.to_nat (maxRequests rl - (count r + 1)))) by lia.
    cbn [length Nat.min Nat.sub repeat app]. done.
  - rewrite (isAllowed_live_full t id rl r E Ht L).
    specialize (IH id rl r E Hall).
    destruct (isAllowed_seq ts id rl) as [bs rl2]. cbn [fst snd] in *.
    rewrite IH. unfold room.
    replace (Z.to_nat (maxRequests rl - count r)) with 0%nat by lia.
    rewrite !Nat.min_0_r, !Nat.sub_0_r. done.
Qed.

Lemma X2_witness :
  let rl := snd (isAllowed 0 "10.0.0.1" (new 3 60000)) in
  fst (isAllowed_seq [1; 2; 3; 4] "10.0.0.1" rl) = [true; true; false; false].
Proof.
  intros rl.
  apply (X2_budget_per_window [1; 2; 3; 4] "10.0.0.1" rl
           {| count := 1; resetTime := 60000 |}).
  - reflexivity.
  - repeat constructor; simpl; lia.
Defined.

(** X3: the limiter keeps its clients apart: a call of [isAllowed] or of
    [reset] for one identifier changes neither the record of another
    identifier nor what [getInfo] and [isAllowed] answer for it. *)
Theorem X3_clients_are_independent (now t : Z) (id other : string) (rl : RateLimiter) :
  id <> other ->
  store (snd (isAllowed now id rl)) !! other = store rl !! other /\
  getInfo t other (snd (isAllowed now id rl)) = getInfo t other rl /\
  fst (isAllowed t other (snd (isAllowed now id rl))) = fst (isAllowed t other rl) /\
  store (reset id rl) !! other = store rl !! other /\
  getInfo t other (reset id rl) = getInfo t other rl /\
  fst (isAllowed t other (reset id rl)) = fst (isAllowed t other rl).
Proof.
  intros Hne.
  assert (S1 : store (snd (isAllowed now id rl)) !! other = store rl !! other).
  { unfold isAllowed. destruct (lookup (store rl) id) as [r| |]; simpl.
    - destruct (now >? resetTime r); simpl; [by rewrite lookup_insert_ne|].
      destruct (count r <? maxRequests rl); simpl; [by rewrite lookup_insert_ne|done].
    - done.
    - by rewrite lookup_insert_ne. }
  assert (S2 : store (reset id rl) !! other = store rl !! other).
  { simpl. by rewrite lookup_delete_ne. }
  assert (L1 : lookup (store (snd (isAllowed now id rl))) other = lookup (store rl) other)
    by (unfold lookup; by rewrite S1).
  assert (L2 : lookup (store (reset id rl)) other = lookup (store rl) other)
    by (unfold lookup; by rewrite S2).
  destruct (isAllowed_config now id rl) as [M W].
  repeat split; try done.
  - unfold getInfo. by rewrite L1, M, W.
  - unfold isAllowed at 1 3. rewrite L1, M.
    destruct (lookup (store rl) other) as [r| |]; [|done|done].
    destruct (t >? resetTime r); [done|]. by destruct (count r <? maxRequests rl).
  - unfold getInfo. by rewrite L2.
  - unfold isAllowed. rewrite L2. cbn [maxRequests reset set_store].
    destruct (lookup (store rl) other) as [r| |]; [|done|done].
    destruct (t >? resetTime r); [done|]. by destruct (count r <? maxRequests rl).
Qed.

Lemma X3_witness :
  "10.0.0.1" <> "10.0.0.2" /\
  getInfo 7 "10.0.0.2" (snd (isAllowed 5 "10.0.0.1" rateLimiter))
  = getInfo 7 "10.0.0.2" rateLimiter.
Proof.
  split; [discriminate|].
  apply (X3_clients_are_independent 5 7 "10.0.0.1" "10.0.0.2" rateLimiter).
  discriminate.
Defined.

(** X4: the sweep cannot be observed by later calls: after [cleanup] at
    time [t] no stored window has a [resetTime] before [t], and, the store
    holding no record of its own under a member name of [Object.prototype]
    that the identifier might be (no operation of the class stores one),
    [getInfo] and [isAllowed] at any time from [t] on answer, and store for
    their identifier, what they would have without the sweep. *)
Theorem X4_cleanup_is_transparent (t now : Z) (id : string) (rl : RateLimiter) :
  t <= now ->
  (JsObject.inherited id = true -> store rl !! id = None) ->
  (forall k r, store (cleanup t rl) !! k = Some r ->
     store rl !! k = Some r /\ t <= resetTime r) /\
  getInfo now id (cleanup t rl) = getInfo now id rl /\
  fst (isAllowed now id (cleanup t rl)) = fst (isAllowed now id rl) /\
  store (snd (isAllowed now id (cleanup t rl))) !! id
  = store (snd (isAllowed now id rl)) !! id.
Proof.
  intros Hle Hplain.
  assert (C : forall k r, store (cleanup t rl) !! k = Some r ->
                store rl !! k = Some r /\ t <= resetTime r).
  { intros k r. rewrite cleanup_lookup.
    destruct (store rl !! k) as [r0|]; [|done].
    destruct (t >? resetTime r0) eqn:G; [done|]. intros [= <-]. split; [done|lia]. }
  split; [exact C|].
  pose proof (cleanup_lookup t rl id) as L.
  unfold getInfo, isAllowed, lookup. rewrite L.
  cbn [maxRequests windowMs cleanup set_store store].
  destruct (store rl !! id) as [r|] eqn:E.
  - destruct (t >? resetTime r) eqn:G.
    + destruct (now >? resetTime r) eqn:G2; [|lia].
      destruct (JsObject.inherited id) eqn:I; [by specialize (Hplain eq_refl)|].
      cbn [fst snd store set_store]. by rewrite !lookup_insert_eq.
    + destruct (now >? resetTime r); cbn [fst snd store set_store];
        [by rewrite !lookup_insert_eq|].
      destruct (count r <? maxRequests rl); cbn [fst snd store set_store];
        [by rewrite !lookup_insert_eq|].
      rewrite E. split; [done|]. split; [done|]. by rewrite L.
  - destruct (JsObject.inherited id); cbn [fst snd store set_store];
      [by rewrite L, E|by rewrite !lookup_insert_eq].
Qed.

Lemma X4_witness :
  let rl := snd (isAllowed 61000 "10.0.0.2" (snd (isAllowed 0 "10.0.0.1" rateLimiter))) in
  (60500 <= 70000 /\
   (JsObject.inherited "10.0.0.2" = true -> store rl !! "10.0.0.2" = None)) /\
  store (cleanup 60500 rl) !! "10.0.0.1" = None /\
  getInfo 70000 "10.0.0.2" (cleanup 60500 rl) = getInfo 70000 "10.0.0.2" rl /\
  fst (isAllowed 70000 "10.0.0.2" (cleanup 60500 rl)) = true /\
  store (snd (isAllowed 70000 "10.0.0.2" (cleanup 60500 rl))) !! "10.0.0.2"
  = Some {| count := 2; resetTime := 121000 |}.
Proof.
  intros rl.
  assert (P : JsObject.inherited "10.0.0.2" = true -> store rl !! "10.0.0.2" = None).
  { intros H. by vm_compute in H. }
  split; [split; [lia|exact P]|].
  destruct (X4_cleanup_is_transparent 60500 70000 "10.0.0.2" rl ltac:(lia) P)
    as (_ & G & A & S).
  split; [by vm_compute|]. split; [exact G|].
  split; [rewrite A; by vm_compute|rewrite S; by vm_compute].
Defined.

End RateLimitExtras.

(** ** More on sanitizing *)

Module SanitizeExtras.
Import JsString Sanitize SanitizeFacts.

Lemma sanitizeHTML_length s : String.length s <= String.length (sanitizeHTML s).
Proof.
  induction s as [|c s IH]; simpl; [lia|].
  rewrite JsStringFacts.length_app.
  assert (1 <= String.length (escape_char c)); [|lia].
  unfold escape_char. case_chars; simpl; lia.
Qed.

Lemma escape_char_length c :
  needs_escape c = true -> 2 <= String.length (escape_char c).
Proof.
  unfold needs_escape, escape_char. case_chars; simpl; intros H; try lia; congruence.
Qed.

(** X5: [sanitizeHTML] loses nothing: two different texts never have the
    same escaped form, the escaped form is never shorter than the text, and
    it is the text itself exactly when the text holds none of the six
    escaped characters. *)
Theorem X5_sanitizeHTML_is_injective :
  (forall s t, sanitizeHTML s = sanitizeHTML t -> s = t) /\
  (forall s, String.length s <= String.length (sanitizeHTML s)) /\
  (forall s, sanitizeHTML s = s <->
             all_chars (fun a => negb (needs_escape a)) s = true).
Proof.
  split; [intros s t; apply sanitizeHTML_inj|].
  split; [apply sanitizeHTML_length|].
  intros s. split; [|apply sanitizeHTML_plain].
  induction s as [|c s IH]; simpl; [done|]. intros H.
  destruct (needs_escape c) eqn:E.
  - exfalso. apply (f_equal String.length) in H.
    rewrite JsStringFacts.length_app in H. simpl in H.
    pose proof (sanitizeHTML_length s).
    pose proof (escape_char_length c E). lia.
  - rewrite (escape_char_plain c E) in H. simpl in H. injection H as H.
    simpl. by apply IH.
Qed.

(** *** Objects *)

Lemma get_set_field_eq k v l : get_field k (set_field k v l) = Some v.
Proof.
  induction l as [|[k' w] l IH]; simpl; [by rewrite String.eqb_refl|].
  destruct (String.eqb_spec k' k) as [->|N]; simpl.
  - by rewrite String.eqb_refl.
  - destruct (String.eqb_spec k' k); [done|]. exact IH.
Qed.

Lemma get_set_field_ne k k' v l :
  k <> k' -> get_field k' (set_field k v l) = get_field k' l.
Proof.
  intros N. induction l as [|[k0 w] l IH]; simpl.
  - destruct (String.eqb_spec k k'); done.
  - destruct (String.eqb_spec k0 k) as [->|N0]; simpl.
    + destruct (String.eqb_spec k k'); done.
    + destruct (String.eqb_spec k0 k'); [done|]. exact IH.
Qed.

Lemma has_field_get k l : has_field k l = true <-> is_Some (get_field k l).
Proof.
  unfold has_field. induction l as [|[k0 w] l IH]; simpl.
  - split; [done|]. by intros [? ?].
  - destruct (String.eqb_spec k0 k); simpl; [|exact IH]. split; [by eexists|done].
Qed.

Lemma has_set_field k k' v l :
  has_field k' (set_field k v l) = true <-> k = k' \/ has_field k' l = true.
Proof.
  rewrite !has_field_get. destruct (String.eqb_spec k k') as [->|N].
  - rewrite get_set_field_eq. split; [by left|by eexists].
  - rewrite get_set_field_ne by done. split; [by right|]. by intros [?|?].
Qed.

Lemma proto_key_escaped k : sanitizeHTML k = "__proto__" -> k = "__proto__".
Proof. intros H. by apply sanitizeHTML_inj. Qed.

(** An assignment under another key than [__proto__] writes an own
    property and leaves the prototype alone. *)
Lemma assign_plain key v o :
  key <> "__proto__" -> assign key v o = (fst o, set_field key v (snd o)).
Proof.
  intros N. destruct o as [proto own]. unfold assign.
  by destruct (String.eqb_spec key "__proto__").
Qed.

Lemma assign_own key v o k' :
  k' <> "__proto__" ->
  has_field k' (snd (assign key v o)) = true <-> key = k' \/ has_field k' (snd o) = true.
Proof.
  intros N. destruct (String.eqb_spec key "__proto__") as [->|Nk].
  - destruct o as [proto own]. unfold assign. cbn [snd].
    destruct (_ && _ && _).
    + destruct v; cbn [snd]; (split; [by right|by intros [?|?]]).
    + cbn [snd]. apply has_set_field.
  - rewrite assign_plain by done. cbn [snd]. apply has_set_field.
Qed.

(** The own keys of the object built by [sanitizeObject] are the escaped
    keys of the argument, [__proto__] apart. *)
Lemma sanitized_keys d (fields : list (string * jsval)) k' :
  k' <> "__proto__" -> forall acc,
  has_field k'
    (snd (fold_left (fun acc kv =>
                       assign (sanitizeHTML (fst kv)) (sanitizeObject (snd kv) d) acc)
            fields acc)) = true
  <-> has_field k' (snd acc) = true \/ exists kv, kv ∈ fields /\ sanitizeHTML (fst kv) = k'.
Proof.
  intros N. induction fields as [|kv fields IH]; intros acc; cbn [fold_left].
  - split; [by left|]. intros [?|(kv & H & _)]; [done|]. by apply elem_of_nil in H.
  - rewrite IH, (assign_own _ _ _ k' N). split.
    + intros [[E|H]|(kv' & H & E)].
      * right. exists kv. split; [by apply elem_of_cons; left|done].
      * by left.
      * right. exists kv'. split; [by apply elem_of_cons; right|done].
    + intros [H|(kv' & H & E)]; [by left; right|].
      apply elem_of_cons in H as [->|H]; [by left; left|].
      right. by exists kv'.
Qed.

(** Without a key [__proto__] the prototype stays as it is. *)
Lemma sanitized_proto d (fields : list (string * jsval)) :
  has_field "__proto__" fields = false -> forall acc,
  fst (fold_left (fun acc kv =>
                    assign (sanitizeHTML (fst kv)) (sanitizeObject (snd kv) d) acc)
         fields acc) = fst acc.
Proof.
  induction fields as [|[k w] fields IH]; intros H acc; [done|].
  unfold has_field in H. cbn [existsb fst] in H. apply orb_false_iff in H as [Hk H].
  cbn [fold_left fst snd]. rewrite (IH H), assign_plain; [done|].
  intros E. apply proto_key_escaped in E. subst k. by rewrite String.eqb_refl in Hk.
Qed.

(** The loop of [sanitizeToolArgs] over the sensitive names; [chain] tells
    which names the prototypes bear. *)
Lemma redact_loop (chain : string -> bool) names :
  forall (acc : list (string * jsval)) f,
  let result :=
    fold_left (fun acc field =>
                 if has_field field acc || chain field
                 then set_field field (JString "[REDACTED]") acc
                 else acc) names acc in
  (chain f = false -> has_field f result = has_field f acc) /\
  (get_field f acc = Some (JString "[REDACTED]") ->
   get_field f result = Some (JString "[REDACTED]")) /\
  (f ∈ names -> has_field f acc = true ->
   get_field f result = Some (JString "[REDACTED]")) /\
  (f ∉ names -> get_field f result = get_field f acc).
Proof.
  induction names as [|n names IH]; intros acc f; cbn [fold_left].
  - split; [done|]. split; [done|]. split; [|done].
    intros H. by apply elem_of_nil in H.
  - set (acc1 := if has_field n acc || chain n
                 then set_field n (JString "[REDACTED]") acc else acc).
    destruct (IH acc1 f) as (I1 & I2 & I3 & I4).
    assert (H0 : has_field f acc = true -> has_field f acc1 = true).
    { intros Hf. unfold acc1. destruct (_ || _); [|done].
      apply has_set_field. by right. }
    assert (H1 : chain f = false -> has_field f acc1 = has_field f acc).
    { intros Hc. destruct (has_field f acc) eqn:Hf; [by apply H0|].
      unfold acc1. destruct (has_field n acc || chain n) eqn:Hn; [|done].
      destruct (has_field f (set_field n _ acc)) eqn:Hs; [|done].
      apply has_set_field in Hs as [->|Hs]; [|congruence].
      by rewrite Hf, Hc in Hn. }
    assert (H2 : get_field f acc = Some (JString "[REDACTED]") ->
                 get_field f acc1 = Some (JString "[REDACTED]")).
    { unfold acc1. destruct (_ || _); [|done]. intros G.
      destruct (String.eqb_spec n f) as [->|N].
      - apply get_set_field_eq.
      - by rewrite get_set_field_ne. }
    split; [intros Hc; rewrite I1 by done; by apply H1|]. split; [auto|]. split.
    + intros Hin Hf. apply elem_of_cons in Hin as [->|Hin].
      * apply I2. unfold acc1. rewrite Hf. apply get_set_field_eq.
      * apply I3; [done|by apply H0].
    + intros Hnin. rewrite I4 by (intros ?; apply Hnin; by apply elem_of_cons; right).
      unfold acc1. destruct (_ || _); [|done].
      apply get_set_field_ne. intros ->. apply Hnin. by apply elem_of_cons; left.
Qed.

(** What [sanitizeToolArgs] makes of an object. *)
Lemma sanitizeToolArgs_object (fields : list (string * jsval)) :
  sanitizeToolArgs (JObject fields)
  = let '(proto, own) :=
      fold_left (fun acc kv =>
                   assign (sanitizeHTML (fst kv)) (sanitizeObject (snd kv) 4) acc)
        fields (None, []) in
    make_object proto (redact proto own).
Proof.
  unfold sanitizeToolArgs. cbn [sanitizeObject].
  destruct (fold_left _ fields (None, [])) as [[p|] own]; reflexivity.
Qed.

(** X6: when the arguments of a tool are an object, [sanitizeToolArgs]
    returns an object in which every property of the argument that bears
    one of the seven sensitive names holds the text [[REDACTED]], whatever
    its value was.  A sensitive name that the argument does not bear is
    added, with that text, exactly when a prototype of the result bears
    it; the prototype of the result is [Object.prototype], which bears
    none, unless the argument has a property [__proto__] of its own. *)
Theorem X6_sensitive_fields_are_redacted (fields : list (string * jsval)) (f : string) :
  f ∈ sensitiveFields ->
  exists proto fields',
    sanitizeToolArgs (JObject fields) = make_object proto fields' /\
    (has_field f fields = true ->
     get_field f fields' = Some (JString "[REDACTED]")) /\
    (has_field f fields = false ->
     get_field f fields'
     = if match proto with Some p => in_chain f p | None => false end
       then Some (JString "[REDACTED]") else None) /\
    (has_field "__proto__" fields = false -> proto = None).
Proof.
  intros Hf. rewrite sanitizeToolArgs_object.
  pose proof (sanitized_keys 4 fields f) as Keys.
  pose proof (sanitized_proto 4 fields) as Proto.
  destruct (fold_left _ fields (None, [])) as [proto S] eqn:Fold.
  exists proto, (redact proto S). split; [done|].
  assert (Hfix : sanitizeHTML f = f /\ f <> "__proto__").
  { unfold sensitiveFields in Hf.
    repeat (apply elem_of_cons in Hf as [->|Hf]; [by split|]).
    by apply elem_of_nil in Hf. }
  destruct Hfix as [Hfix Hnp].
  assert (K : has_field f S = has_field f fields).
  { specialize (Keys Hnp (None, [])). rewrite Fold in Keys. cbn [snd] in Keys.
    destruct (has_field f fields) eqn:Hraw.
    - apply Keys. right.
      apply has_field_get in Hraw as [v Hv].
      assert (exists kv, kv ∈ fields /\ fst kv = f) as (kv & Hin & E).
      { clear -Hv. induction fields as [|[k w] l IH]; [done|]. simpl in Hv.
        destruct (String.eqb_spec k f) as [->|N].
        - exists (f, w). split; [by apply elem_of_cons; left|done].
        - destruct (IH Hv) as (kv & H & E). exists kv.
          split; [by apply elem_of_cons; right|done]. }
      exists kv. split; [done|]. by rewrite E.
    - destruct (has_field f S) eqn:HS; [|done].
      destruct (proj1 Keys eq_refl) as [HS'|(kv & Hin & E)]; [done|].
      rewrite <- Hfix in E. apply sanitizeHTML_inj in E.
      assert (has_field f fields = true); [|congruence].
      clear -Hin E. unfold has_field. apply existsb_exists. exists kv.
      split; [by apply list_elem_of_In|]. rewrite E. apply String.eqb_refl. }
  destruct (redact_loop
              (fun field => match proto with Some p => in_chain field p | None => false end)
              sensitiveFields S f) as (R1 & _ & R3 & _).
  fold (redact proto S) in R1, R3.
  split; [|split].
  - intros Hraw. apply R3; [done|congruence].
  - intros Hraw.
    destruct (match proto with Some p => in_chain f p | None => false end) eqn:C.
    + clear R1 R3. unfold redact. generalize S. unfold sensitiveFields in *.
      assert (G : forall names (acc : list (string * jsval)), f ∈ names ->
        get_field f
          (fold_left (fun acc field =>
                        if has_field field acc
                           || match proto with Some p => in_chain field p | None => false end
                        then set_field field (JString "[REDACTED]") acc else acc)
             names acc) = Some (JString "[REDACTED]")).
      { induction names as [|n names IHn]; intros acc Hin; [by apply elem_of_nil in Hin|].
        cbn [fold_left].
        destruct (redact_loop
                    (fun field => match proto with Some p => in_chain field p | None => false end)
                    names
                    (if has_field n acc
                        || match proto with Some p => in_chain n p | None => false end
                     then set_field n (JString "[REDACTED]") acc else acc) f)
          as (_ & G2 & _ & _).
        destruct (decide (n = f)) as [->|N].
        - apply G2. rewrite C, orb_true_r. apply get_set_field_eq.
        - apply IHn. apply elem_of_cons in Hin as [E|Hin]; [by subst|done]. }
      intros acc. by apply G.
    + specialize (R1 eq_refl). rewrite K, Hraw in R1.
      destruct (get_field f (redact proto S)) eqn:G; [|done].
      assert (is_Some (get_field f (redact proto S))) as I by (by eexists).
      apply has_field_get in I. congruence.
  - intros Hnone. specialize (Proto Hnone (None, [])). by rewrite Fold in Proto.
Qed.

Lemma X6_witness :
  "apiKey" ∈ sensitiveFields /\
  exists proto fields',
    sanitizeToolArgs (JObject [("url", JString "a/b"); ("apiKey", JNumber 7)])
    = make_object proto fields' /\
    (has_field "apiKey" [("url", JString "a/b"); ("apiKey", JNumber 7)] = true ->
     get_field "apiKey" fields' = Some (JString "[REDACTED]")) /\
    (has_field "__proto__" [("url", JString "a/b"); ("apiKey", JNumber 7)] = false ->
     proto = None).
Proof.
  assert (H : "apiKey" ∈ sensitiveFields).
  { unfold sensitiveFields. do 4 (apply elem_of_cons; right). apply elem_of_cons. by left. }
  split; [exact H|].
  destruct (X6_sensitive_fields_are_redacted
              [("url", JString "a/b"); ("apiKey", JNumber 7)] "apiKey" H)
    as (proto & fields' & E & R & _ & P).
  exists proto, fields'. split; [exact E|]. split; [exact R|exact P].
Defined.

(** A property [__proto__] of the argument becomes the prototype of the
    result, and a sensitive name that only the prototype bears is added to
    the result. *)
Example redact_through_prototype :
  sanitizeToolArgs (JObject [("__proto__", JObject [("password", JString "x")])])
  = JProto (JObject [("password", JString "x")])
      [("password", JString "[REDACTED]")].
Proof. reflexivity. Qed.

(** *** No markup in a sanitized value *)

Lemma all_fields_set_field (P : string -> jsval -> bool) k v l :
  P k v = true ->
  forallb (fun kv : string * jsval => let '(k, w) := kv in P k w) l = true ->
  forallb (fun kv : string * jsval => let '(k, w) := kv in P k w) (set_field k v l) = true.
Proof.
  intros Hk. induction l as [|[k0 w] l IH]; simpl; [by rewrite Hk|].
  intros H. apply andb_true_iff in H as [H0 Hl].
  destruct (String.eqb k0 k) eqn:E; simpl.
  - apply String.eqb_eq in E as ->. by rewrite Hk, Hl.
  - by rewrite H0, IH.
Qed.

Lemma make_object_clean proto own :
  match proto with Some p => all_strings no_markup p | None => true end = true ->
  forallb (fun kv : string * jsval =>
             let '(k, w) := kv in no_markup k && all_strings no_markup w) own = true ->
  all_strings no_markup (make_object proto own) = true.
Proof.
  destruct proto as [p|]; cbn [make_object all_strings]; [|done].
  by intros -> ->.
Qed.

Lemma assign_clean key v o :
  no_markup key = true -> all_strings no_markup v = true ->
  match fst o with Some p => all_strings no_markup p | None => true end = true ->
  forallb (fun kv : string * jsval =>
             let '(k, w) := kv in no_markup k && all_strings no_markup w) (snd o) = true ->
  match fst (assign key v o) with Some p => all_strings no_markup p | None => true end = true /\
  forallb (fun kv : string * jsval =>
             let '(k, w) := kv in no_markup k && all_strings no_markup w)
    (snd (assign key v o)) = true.
Proof.
  intros Hk Hv Hp Ho. destruct o as [proto own]. unfold assign. cbn [fst snd] in *.
  destruct (_ && _ && _).
  - destruct v; cbn [fst snd]; by split.
  - cbn [fst snd]. split; [done|].
    apply (all_fields_set_field (fun k w => no_markup k && all_strings no_markup w));
      [|done].
    by rewrite Hk, Hv.
Qed.

Lemma sanitizeObject_clean d : forall v,
  is_json v = true -> all_strings no_markup (sanitizeObject v d) = true.
Proof.
  induction d as [|d IH]; intros v J; [done|].
  destruct v as [| |s|n|b|items|fields|shown|proto fields];
    cbn [sanitizeObject all_strings]; try done.
  - apply sanitizeHTML_no_markup.
  - cbn [is_json] in J. apply forallb_forall. intros x Hx.
    apply in_map_iff in Hx as (item & <- & Hin).
    apply IH. by apply (proj1 (forallb_forall _ _) J).
  - cbn [is_json] in J.
    assert (G : forall acc,
      match fst acc with Some p => all_strings no_markup p | None => true end = true ->
      forallb (fun kv : string * jsval =>
                 let '(k, w) := kv in no_markup k && all_strings no_markup w)
        (snd acc) = true ->
      let r := fold_left (fun acc kv =>
                 assign (sanitizeHTML (fst kv)) (sanitizeObject (snd kv) d) acc)
                 fields acc in
      match fst r with Some p => all_strings no_markup p | None => true end = true /\
      forallb (fun kv : string * jsval =>
                 let '(k, w) := kv in no_markup k && all_strings no_markup w)
        (snd r) = true).
    { induction fields as [|[k w] fields IHf]; intros acc Hp Hacc; [done|].
      cbn [fold_left fst snd]. cbn [forallb] in J.
      apply andb_true_iff in J as [Jw Jf].
      destruct (assign_clean (sanitizeHTML k) (sanitizeObject w d) acc) as [A1 A2];
        [apply sanitizeHTML_no_markup|by apply IH|done|done|].
      by apply (IHf Jf). }
    destruct (G (None, []) eq_refl eq_refl) as [G1 G2].
    destruct (fold_left _ fields (None, [])) as [p own]. cbn [fst snd] in *.
    by apply make_object_clean.
Qed.

Lemma redact_clean proto (fields : list (string * jsval)) :
  forallb (fun kv => let '(k, w) := kv in no_markup k && all_strings no_markup w)
    fields = true ->
  forallb (fun kv => let '(k, w) := kv in no_markup k && all_strings no_markup w)
    (redact proto fields) = true.
Proof.
  unfold redact, sensitiveFields.
  assert (G : forall names, Forall (fun f => no_markup f = true) names ->
    forall fields : list (string * jsval),
    forallb (fun kv => let '(k, w) := kv in no_markup k && all_strings no_markup w)
      fields = true ->
    forallb (fun kv => let '(k, w) := kv in no_markup k && all_strings no_markup w)
      (fold_left (fun acc field =>
                 if has_field field acc
                    || match proto with Some p => in_chain field p | None => false end
                 then set_field field (JString "[REDACTED]") acc
                 else acc) names fields) = true).
  { induction names as [|n names IHn]; intros Hn fs Hf; [done|].
    apply Forall_cons in Hn as [Hn0 Hn]. cbn [fold_left]. apply (IHn Hn).
    destruct (_ || _); [|done].
    apply (all_fields_set_field (fun k w => no_markup k && all_strings no_markup w));
      [|done].
    by rewrite Hn0. }
  intros Hf. apply G; [|done]. repeat constructor.
Qed.

Lemma sanitizeToolArgs_clean (args : jsval) :
  is_json args = true -> all_strings no_markup (sanitizeToolArgs args) = true.
Proof.
  intros J.
  unfold sanitizeToolArgs. pose proof (sanitizeObject_clean 5 args J) as C.
  destruct (sanitizeObject args 5) as [| |s|n|b|items|fields|shown|proto fields];
    try done; cbn [all_strings] in C |- *.
  - by apply redact_clean.
  - apply andb_true_iff in C as [C1 C2]. rewrite C1. by apply redact_clean.
Qed.

(** X7: for arguments made of what JSON has, nested to any depth, no
    string of the value returned by [sanitizeObject] or by
    [sanitizeToolArgs], the names of the properties included, holds one of
    the characters [<], [>], the quotes and [/]. *)
Theorem X7_sanitized_arguments_hold_no_markup (args : jsval) (maxDepth : nat) :
  is_json args = true ->
  all_strings no_markup (sanitizeObject args maxDepth) = true /\
  all_strings no_markup (sanitizeToolArgs args) = true.
Proof.
  intros J. split; [by apply sanitizeObject_clean|by apply sanitizeToolArgs_clean].
Qed.

Lemma X7_witness :
  is_json (JObject [("q", JArray [JString "<b>"; JNull])]) = true /\
  all_strings no_markup
    (sanitizeToolArgs (JObject [("q", JArray [JString "<b>"; JNull])])) = true.
Proof.
  split; [reflexivity|].
  apply (X7_sanitized_arguments_hold_no_markup
           (JObject [("q", JArray [JString "<b>"; JNull])]) 5).
  reflexivity.
Defined.

(** *** Truncation *)

Lemma all_chars_take p n : forall s,
  all_chars p s = true -> all_chars p (take n s) = true.
Proof.
  induction n as [|n IH]; intros [|c s]; simpl; try done.
  intros H. apply andb_true_iff in H as [H1 H2]. by rewrite H1, IH.
Qed.

Lemma truncate_long str n :
  n < String.length str ->
  truncate str n = take n str +:+ "..." /\
  String.length (truncate str n) = n + 3.
Proof.
  intros H. unfold truncate.
  destruct (Nat.leb_spec (String.length str) n); [lia|]. split; [done|].
  rewrite JsStringFacts.length_app, JsStringFacts.length_take by lia. done.
Qed.

Lemma truncate_no_markup str n :
  no_markup str = true -> no_markup (truncate str n) = true.
Proof.
  intros H. unfold truncate. destruct (_ <=? _)%nat; [done|].
  unfold no_markup in *. rewrite JsStringFacts.all_chars_app.
  by rewrite all_chars_take.
Qed.

Lemma truncate_length str n : String.length (truncate str n) <= n + 3.
Proof.
  destruct (Nat.le_gt_cases (String.length str) n) as [H|H].
  - unfold truncate. destruct (Nat.leb_spec (String.length str) n); lia.
  - destruct (truncate_long str n H) as [_ ->]. lia.
Qed.

(** X15: [truncate] returns a text of at most [maxLength + 3] characters,
    not of at most [maxLength]: a text that fits is returned as it is, a
    longer one is cut to [maxLength] characters and three dots are added.
    The first [maxLength] characters of the result are those of the text,
    truncating twice is truncating once, and a text without markup
    characters stays without them. *)
Theorem X15_truncate_bounds (str : string) (maxLength : nat) :
  String.length (truncate str maxLength) <= maxLength + 3 /\
  (String.length str <= maxLength -> truncate str maxLength = str) /\
  (maxLength < String.length str ->
   String.length (truncate str maxLength) = maxLength + 3) /\
  take maxLength (truncate str maxLength) = take maxLength str /\
  truncate (truncate str maxLength) maxLength = truncate str maxLength /\
  (no_markup str = true -> no_markup (truncate str maxLength) = true).
Proof.
  split; [apply truncate_length|]. split.
  { intros H. unfold truncate.
    by destruct (Nat.leb_spec (String.length str) maxLength); [|lia]. }
  split; [intros H; by apply truncate_long|].
  assert (T : take maxLength (truncate str maxLength) = take maxLength str).
  { destruct (Nat.le_gt_cases (String.length str) maxLength) as [H|H].
    - unfold truncate. by destruct (Nat.leb_spec (String.length str) maxLength); [|lia].
    - destruct (truncate_long str maxLength H) as [-> _].
      rewrite <- (JsStringFacts.length_take maxLength str) at 1 by lia.
      apply JsStringFacts.take_app. }
  split; [exact T|]. split; [|apply truncate_no_markup].
  destruct (Nat.le_gt_cases (String.length str) maxLength) as [H|H].
  - unfold truncate at 2. by destruct (Nat.leb_spec (String.length str) maxLength); [|lia].
  - destruct (truncate_long str maxLength H) as [E L].
    destruct (truncate_long (truncate str maxLength) maxLength) as [E2 _]; [lia|].
    rewrite E2, T. by rewrite E.
Qed.

End SanitizeExtras.

(** ** More on retries, extraction and the transcript fetch *)

Module LoaderExtras.
Import JsString Regex Loader ExtractFacts FetchFacts.

Section Trace.

Variable fn : nat -> load_outcome.
Variables maxRetries initialDelay backoffMultiplier : nat.

Lemma sleeps_app a b : sleeps (a ++ b) = sleeps a ++ sleeps b.
Proof. apply omap_app. Qed.

Lemma announced_app a b : announced (a ++ b) = announced a ++ announced b.
Proof. apply omap_app. Qed.

(** The trace of the loop when the attempt [attempt + n] is the first that
    does not throw. *)
Lemma retry_trace_returns n : forall fuel attempt lastError d,
  attempt + fuel = S maxRetries -> n < fuel ->
  (forall j, j < n -> exists e, fn (attempt + j) = Throws e) ->
  fn (attempt + n) = Returns d ->
  let tr := fst (retry_loop fn maxRetries initialDelay backoffMultiplier
                   fuel attempt lastError) in
  sleeps tr = List.map (fun a => initialDelay * backoffMultiplier ^ a) (seq attempt n) /\
  announced tr = List.filter (fun a => (0 <? a)%nat) (seq attempt (S n)).
Proof.
  induction n as [|n IH]; intros fuel attempt lastError d Hf Hlt Hthrows Hret;
    (destruct fuel as [|fuel]; [lia|]); cbn [retry_loop].
  - rewrite Nat.add_0_r in Hret. rewrite Hret. cbn [fst seq List.map List.filter].
    by destruct (0 <? attempt)%nat.
  - destruct (Hthrows 0) as [e He]; [lia|]. rewrite Nat.add_0_r in He. rewrite He.
    specialize (IH fuel (S attempt) e d).
    destruct (retry_loop _ _ _ _ fuel (S attempt) e) as [tr res]. cbn [fst] in *.
    destruct IH as [I1 I2]; [lia|lia| | |].
    + intros j Hj. destruct (Hthrows (S j)) as [e' He']; [lia|].
      exists e'. by rewrite <- He', Nat.add_succ_r.
    + by rewrite <- Hret, Nat.add_succ_r.
    + rewrite !sleeps_app, !announced_app, I1, I2.
      assert ((attempt <? maxRetries)%nat = true) as -> by (apply Nat.ltb_lt; lia).
      cbn [seq List.map List.filter]. split.
      * by destruct (0 <? attempt)%nat.
      * by destruct (0 <? attempt)%nat.
Qed.

(** The trace of the loop when every attempt throws. *)
Lemma retry_trace_throws fuel : forall attempt lastError,
  attempt + S fuel = S maxRetries ->
  (forall j, j < S fuel -> exists e, fn (attempt + j) = Throws e) ->
  let tr := fst (retry_loop fn maxRetries initialDelay backoffMultiplier
                   (S fuel) attempt lastError) in
  sleeps tr = List.map (fun a => initialDelay * backoffMultiplier ^ a) (seq attempt fuel) /\
  announced tr = List.filter (fun a => (0 <? a)%nat) (seq attempt (S fuel)).
Proof.
  induction fuel as [|fuel IH]; intros attempt lastError Hf Hthrows.
  - destruct (Hthrows 0) as [e He]; [lia|]. rewrite Nat.add_0_r in He.
    cbn [retry_loop]. rewrite He. cbn [fst].
    assert ((attempt <? maxRetries)%nat = false) as -> by (apply Nat.ltb_ge; lia).
    rewrite !sleeps_app, !announced_app. cbn [seq List.map List.filter].
    by destruct (0 <? attempt)%nat.
  - destruct (Hthrows 0) as [e He]; [lia|]. rewrite Nat.add_0_r in He.
    specialize (IH (S attempt) e).
    change (retry_loop fn maxRetries initialDelay backoffMultiplier (S (S fuel))
              attempt lastError)
      with (let hook := if (0 <? attempt)%nat then [OnRetry attempt maxRetries] else [] in
            match fn attempt with
            | Returns docs => (hook, inr docs)
            | Throws e =>
                let wait :=
                  if (attempt <? maxRetries)%nat
                  then [Sleep (initialDelay * backoffMultiplier ^ attempt)] else [] in
                let '(tr, res) :=
                  retry_loop fn maxRetries initialDelay backoffMultiplier (S fuel)
                    (S attempt) e in
                (hook ++ wait ++ tr, res)%list
            end).
    rewrite He. cbv zeta.
    destruct (retry_loop _ _ _ _ (S fuel) (S attempt) e) as [tr res]. cbn [fst] in *.
    destruct IH as [I1 I2]; [lia| |].
    { intros j Hj. destruct (Hthrows (S j)) as [e2 He2]; [lia|].
      exists e2. by rewrite <- He2, Nat.add_succ_r. }
    rewrite !sleeps_app, !announced_app, I1, I2.
    assert ((attempt <? maxRetries)%nat = true) as -> by (apply Nat.ltb_lt; lia).
    change (seq attempt (S fuel)) with (attempt :: seq (S attempt) fuel).
    change (seq attempt (S (S fuel))) with (attempt :: seq (S attempt) (S fuel)).
    cbn [List.map List.filter]. split; by destruct (0 <? attempt)%nat.
Qed.

(** The loop gives a value only if some attempt of the budget returned it
    after all earlier ones threw. *)
Lemma retry_loop_inv fuel : forall attempt lastError d,
  snd (retry_loop fn maxRetries initialDelay backoffMultiplier fuel attempt lastError)
  = inr d ->
  exists n, n < fuel /\ fn (attempt + n) = Returns d /\
    forall j, j < n -> exists e, fn (attempt + j) = Throws e.
Proof.
  induction fuel as [|fuel IH]; intros attempt lastError d; cbn [retry_loop]; [done|].
  destruct (fn attempt) as [e|d'] eqn:E.
  - specialize (IH (S attempt) e d).
    destruct (retry_loop _ _ _ _ fuel (S attempt) e) as [tr res]. cbn [snd] in *.
    intros H. destruct (IH H) as (n & Hn & Hr & Ht).
    exists (S n). split; [lia|]. split; [by rewrite Nat.add_succ_r|].
    intros [|j] Hj; [exists e; by rewrite Nat.add_0_r|].
    destruct (Ht j) as [e' He']; [lia|]. exists e'. by rewrite Nat.add_succ_r.
  - cbn [snd]. intros [= <-]. exists 0. split; [lia|]. split; [by rewrite Nat.add_0_r|].
    intros j Hj. lia.
Qed.

End Trace.

Lemma sum_powers_of_two d n :
  list_sum (List.map (fun i => d * 2 ^ i) (seq 0 n)) = d * (2 ^ n - 1).
Proof.
  induction n as [|n IH]; [simpl; lia|].
  rewrite seq_S, List.map_app, list_sum_app, IH. cbn [List.map list_sum Nat.add].
  rewrite Nat.pow_succ_r'.
  destruct (2 ^ n) as [|q] eqn:E; [by apply Nat.pow_nonzero in E|].
  replace (S q - 1) with q by lia. replace (2 * S q - 1) with (q + S q) by lia.
  unfold list_sum. cbn [fold_right]. rewrite Nat.mul_add_distr_l. lia.
Qed.

Lemma announced_after_first a :
  List.filter (fun a => (0 <? a)%nat) (seq 0 (S a)) = seq 1 a.
Proof.
  cbn [seq List.filter Nat.ltb Nat.leb]. generalize 0.
  induction a as [|a IH]; intros s; [done|]. cbn [seq List.filter]. by rewrite IH.
Qed.

(** X8: [retryWithBackoff] sleeps once after each failed attempt except the
    last of the budget, for [initialDelay * backoffMultiplier ^ attempt]
    milliseconds, and announces each attempt after the first to [onRetry].
    When the attempt [a] is the first that does not throw, the delays are
    those of the attempts [0..a-1] and the value of that attempt is
    returned; when all [maxRetries + 1] attempts throw, there are exactly
    [maxRetries] delays, which with the multiplier 2 of [fetchTranscript] add
    up to [initialDelay * (2 ^ maxRetries - 1)]. *)
Theorem X8_backoff_schedule (fn : nat -> load_outcome)
    (maxRetries initialDelay backoffMultiplier : nat) :
  (forall a d, a <= maxRetries ->
     (forall j, j < a -> exists e, fn j = Throws e) -> fn a = Returns d ->
     retryWithBackoff fn maxRetries initialDelay backoffMultiplier
     = (fst (retryWithBackoff fn maxRetries initialDelay backoffMultiplier), inr d) /\
     sleeps (fst (retryWithBackoff fn maxRetries initialDelay backoffMultiplier))
     = List.map (fun i => initialDelay * backoffMultiplier ^ i) (seq 0 a) /\
     announced (fst (retryWithBackoff fn maxRetries initialDelay backoffMultiplier))
     = seq 1 a) /\
  ((forall j, j <= maxRetries -> exists e, fn j = Throws e) ->
   sleeps (fst (retryWithBackoff fn maxRetries initialDelay backoffMultiplier))
   = List.map (fun i => initialDelay * backoffMultiplier ^ i) (seq 0 maxRetries) /\
   announced (fst (retryWithBackoff fn maxRetries initialDelay backoffMultiplier))
   = seq 1 maxRetries /\
   (backoffMultiplier = 2 ->
    list_sum (sleeps (fst (retryWithBackoff fn maxRetries initialDelay backoffMultiplier)))
    = initialDelay * (2 ^ maxRetries - 1))).
Proof.
  unfold retryWithBackoff. split.
  - intros a d Ha Hthrows Hret.
    pose proof (retry_loop_returns fn maxRetries initialDelay backoffMultiplier a
                  (S maxRetries) 0 "undefined" d ltac:(lia) Hthrows Hret) as R.
    destruct (retry_trace_returns fn maxRetries initialDelay backoffMultiplier a
                (S maxRetries) 0 "undefined" d eq_refl ltac:(lia) Hthrows Hret)
      as [T1 T2].
    destruct (retry_loop _ _ _ _ _ _ _) as [tr res]. cbn [fst snd] in *. subst res.
    split; [done|]. split; [exact T1|]. rewrite T2. apply announced_after_first.
  - intros Hthrows.
    destruct (retry_trace_throws fn maxRetries initialDelay backoffMultiplier
                maxRetries 0 "undefined" eq_refl) as [T1 T2].
    { intros j Hj. apply Hthrows. lia. }
    split; [exact T1|]. split; [rewrite T2; apply announced_after_first|].
    intros ->. rewrite T1. apply sum_powers_of_two.
Qed.

Lemma X8_witness :
  sleeps (fst (retryWithBackoff (fun _ => Throws "down") 3 1000 2)) = [1000; 2000; 4000] /\
  list_sum (sleeps (fst (retryWithBackoff (fun _ => Throws "down") 3 1000 2))) = 1000 * (2 ^ 3 - 1).
Proof.
  destruct (proj2 (X8_backoff_schedule (fun _ => Throws "down") 3 1000 2)) as (S & _ & T).
  { intros j _. by exists "down". }
  split; [exact S|exact (T eq_refl)].
Defined.

(** *** Extraction, again *)

(** What [extractVideoId] returns is made of 11 identifier characters. *)
Lemma extractVideoId_is_id s v : extractVideoId s = Some v -> is_id v = true.
Proof.
  unfold extractVideoId.
  destruct (String.eqb (trim s) ""); [done|]. rewrite test_bare_id.
  destruct (is_id s) eqn:B; [by intros [= <-]|].
  assert (P4 : YOUTUBE_URL_PATTERNS
               = [pattern_of Watch; pattern_of Short; pattern_of Embed; pattern_of Mobile])
    by reflexivity.
  rewrite P4. cbn [first_match]. unfold match1.
  assert (P : forall k o,
    match match exec (pattern_of k) s with Some st => Some (cap st) | None => None end with
    | Some (Some id) => Some id
    | Some None => None
    | None => o
    end = Some v -> is_id v = true \/ o = Some v).
  { intros k o. destruct (exec (pattern_of k) s) as [x|] eqn:E; [|by right].
    apply exec_inv in E as [_ (v' & C & I)]. rewrite C. intros [= <-]. by left. }
  intros H.
  apply (P Watch) in H as [|H]; [done|].
  apply (P Short) in H as [|H]; [done|].
  apply (P Embed) in H as [|H]; [done|].
  apply (P Mobile) in H as [|H]; [done|done].
Qed.

Lemma extractVideoId_bare v : is_id v = true -> extractVideoId v = Some v.
Proof.
  intros H. unfold extractVideoId.
  by rewrite (trim_not_empty v (is_id_not_blank v H)), test_bare_id, H.
Qed.

(** X9: extraction is idempotent and [fetchTranscript] only looks at what
    is extracted: an identifier that [extractVideoId] returns for an input
    is returned unchanged when it is given as the input, and
    [fetchTranscript] gives for it the result it gives for the input. *)
Theorem X9_extracted_id_stands_for_the_input (input v : string)
    (options : FetchTranscriptOptions) (load : nat -> load_outcome) :
  extractVideoId input = Some v ->
  extractVideoId v = Some v /\
  fetchTranscript v options load = fetchTranscript input options load.
Proof.
  intros H. pose proof (extractVideoId_is_id input v H) as I.
  pose proof (extractVideoId_bare v I) as B. split; [exact B|].
  unfold fetchTranscript. rewrite H, B.
  rewrite (trim_not_empty v (is_id_not_blank v I)).
  assert (String.eqb (trim input) "" = false) as ->; [|done].
  unfold extractVideoId in H. by destruct (String.eqb (trim input) "").
Qed.

Lemma X9_witness :
  extractVideoId "https://youtu.be/dQw4w9WgXcQ?t=5" = Some "dQw4w9WgXcQ" /\
  extractVideoId "dQw4w9WgXcQ" = Some "dQw4w9WgXcQ".
Proof.
  split; [reflexivity|].
  apply (X9_extracted_id_stands_for_the_input "https://youtu.be/dQw4w9WgXcQ?t=5"
           "dQw4w9WgXcQ" default_options (fun _ => Throws "down")).
  reflexivity.
Defined.

(** *** The result of a successful fetch *)

Lemma join_nonempty sep x l : x <> "" -> join sep (x :: l) <> "".
Proof.
  intros Hx. destruct l as [|y l]; [done|].
  change (join sep (x :: y :: l)) with (x +:+ sep +:+ join sep (y :: l)).
  destruct x; [done|]. discriminate.
Qed.

Lemma flat_text_blank_iff ds :
  flat_text ds = "" <-> forallb blank ds = true.
Proof.
  unfold flat_text. induction ds as [|d ds IH]; [done|].
  cbn [List.map List.filter forallb]. unfold blank at 1.
  destruct (pageContent d) as [c|].
  - destruct c as [|a c]; [exact IH|]. cbn [String.length Nat.ltb Nat.leb String.eqb andb].
    split; [|done]. intros H. by apply join_nonempty in H.
  - exact IH.
Qed.

Lemma fetchTranscript_id input options load r :
  fetchTranscript input options load = inr r ->
  extractVideoId input = Some (id r) /\ is_id (id r) = true.
Proof.
  unfold fetchTranscript.
  destruct (String.eqb (trim input) ""); [done|].
  destruct (extractVideoId input) as [vid|] eqn:E; [|done].
  destruct (snd _) as [msg|[[|d ds]|]]; try done. intros [= <-]. cbn [id].
  split; [done|]. by apply (extractVideoId_is_id input).
Qed.

(** X10: whenever [fetchTranscript] succeeds, the identifier of the result
    is the one extracted from the input and is made of 11 identifier
    characters; the passages of the result are those returned by the first
    attempt that did not throw, which lies within the budget, and there is
    at least one; the text is empty exactly when every passage is empty or
    without content. *)
Theorem X10_successful_fetch (input : string) (options : FetchTranscriptOptions)
    (load : nat -> load_outcome) (r : TranscriptResult) :
  fetchTranscript input options load = inr r ->
  extractVideoId input = Some (id r) /\ is_id (id r) = true /\
  docs r <> [] /\ text r = flat_text (docs r) /\
  (exists a, a <= maxRetries options /\ load a = Returns (Some (docs r)) /\
     forall j, j < a -> exists e, load j = Throws e) /\
  (text r = "" <-> forallb blank (docs r) = true).
Proof.
  unfold fetchTranscript.
  destruct (String.eqb (trim input) ""); [done|].
  destruct (extractVideoId input) as [vid|] eqn:E; [|done].
  unfold retryWithBackoff.
  destruct (snd (retry_loop _ _ _ _ _ _ _)) as [msg|[ds|]] eqn:R; [done| |done].
  destruct ds as [|d ds]; [done|]. intros [= <-]. cbn [id docs text].
  split; [done|]. split; [by apply (extractVideoId_is_id input)|].
  split; [done|]. split; [done|]. split; [|apply flat_text_blank_iff].
  apply retry_loop_inv in R as (n & Hn & Hr & Ht).
  exists n. split; [lia|]. split; [exact Hr|exact Ht].
Qed.

Lemma X10_witness :
  let load := fun attempt : nat =>
    if (attempt <? 1)%nat then Throws "network"
    else Returns (Some [{| pageContent := Some "never gonna" |};
                        {| pageContent := None |};
                        {| pageContent := Some "give you up" |}]) in
  fetchTranscript "https://youtu.be/dQw4w9WgXcQ" default_options load
  = inr {| id := "dQw4w9WgXcQ"; text := "never gonna give you up";
           docs := [{| pageContent := Some "never gonna" |};
                    {| pageContent := None |};
                    {| pageContent := Some "give you up" |}] |} /\
  is_id "dQw4w9WgXcQ" = true.
Proof.
  intros load.
  assert (H : fetchTranscript "https://youtu.be/dQw4w9WgXcQ" default_options load
  = inr {| id := "dQw4w9WgXcQ"; text := "never gonna give you up";
           docs := [{| pageContent := Some "never gonna" |};
                    {| pageContent := None |};
                    {| pageContent := Some "give you up" |}] |}) by reflexivity.
  split; [exact H|].
  exact (proj1 (proj2 (X10_successful_fetch _ _ _ _ H))).
Defined.

End LoaderExtras.

(** ** More on the selection of sentences, the batches and the query *)

Module CompressionExtras.
Import JsString Compression CompressionFacts.

Lemma insert_by_score_In x l y :
  In y (insert_by_score x l) <-> y = x \/ In y l.
Proof.
  induction l as [|z l IH]; cbn [insert_by_score In]; [intuition|].
  destruct (snd x <? snd z)%nat; cbn [In]; rewrite ?IH; intuition.
Qed.

Lemma sort_by_score_In l y : In y (sort_by_score l) <-> In y l.
Proof.
  induction l as [|x l IH]; cbn [sort_by_score In]; [done|].
  rewrite insert_by_score_In, IH. intuition.
Qed.

Lemma insert_by_score_descending x l :
  descending l -> descending (insert_by_score x l).
Proof.
  induction l as [|z l IH]; cbn [insert_by_score descending]; [by split|].
  intros [Hz Hl]. destruct (Nat.ltb_spec (snd x) (snd z)); cbn [descending].
  - split; [|by apply IH]. intros y Hy. apply insert_by_score_In in Hy as [->|Hy]; [lia|].
    by apply Hz.
  - split; [|by split]. intros y [<-|Hy]; [lia|]. specialize (Hz y Hy). lia.
Qed.

Lemma sort_by_score_descending l : descending (sort_by_score l).
Proof.
  induction l as [|x l IH]; cbn [sort_by_score]; [done|].
  by apply insert_by_score_descending.
Qed.

Lemma In_skipn {A} n (l : list A) y : In y (skipn n l) -> In y l.
Proof.
  revert l. induction n as [|n IH]; intros [|a l]; cbn [skipn In]; auto.
Qed.

Lemma In_firstn {A} n (l : list A) y : In y (firstn n l) -> In y l.
Proof.
  revert l. induction n as [|n IH]; intros [|a l]; cbn [firstn In]; [done..|].
  intros [->|H]; [by left|right; by apply IH].
Qed.

(** In a descending list, what is cut off scores no more than what is
    kept. *)
Lemma descending_cut l : descending l ->
  forall n x y, In x (firstn n l) -> In y (skipn n l) -> snd y <= snd x.
Proof.
  induction l as [|a l IH]; intros Hd n x y; [by destruct n|].
  destruct Hd as [Ha Hl]. destruct n as [|n]; [done|]. cbn [firstn skipn In].
  intros [<-|Hx] Hy; [apply Ha; by apply In_skipn in Hy|]. by apply (IH Hl n).
Qed.

Lemma score_positive terms s :
  1 <= score terms s <->
  exists term, In term terms /\ includes (toLowerCase s) term = true.
Proof.
  unfold score. split.
  - intros H.
    destruct (List.filter _ terms) as [|term l] eqn:E; [simpl in H; lia|].
    assert (I : In term (List.filter
                 (fun term => includes (toLowerCase s) term) terms))
      by (rewrite E; by left).
    exists term. by apply filter_In in I.
  - intros (term & Hin & Hinc).
    assert (I : In term (List.filter
                 (fun term => includes (toLowerCase s) term) terms))
      by (by apply filter_In).
    destruct (List.filter _ terms); [done|]. simpl. lia.
Qed.

Lemma extractRelevantSentences_top text query n :
  extractRelevantSentences text query n
  = join ". " (match topSentences text query n with
               | [] => firstn n (sentences text)
               | _ => topSentences text query n
               end) +:+ ".".
Proof.
  unfold extractRelevantSentences. fold (topSentences text query n).
  by destruct (topSentences text query n).
Qed.

(** X11: the selection of [extractRelevantSentences].  The text returned
    joins the selected sentences, or the leading sentences when none is
    selected.  At most [maxSentences] sentences are selected; each is a
    sentence of the text and contains, in lower case, a word of the query
    longer than three characters; a sentence of the text that contains
    more query words than a selected one is selected as well; and nothing
    is selected exactly when [maxSentences] is 0 or no sentence of the text
    contains a query word. *)
Theorem X11_selection_ranks_by_query_terms (text query : string) (maxSentences : nat) :
  let top := topSentences text query maxSentences in
  let terms := queryTerms query in
  extractRelevantSentences text query maxSentences
  = join ". " (match top with
               | [] => firstn maxSentences (sentences text)
               | _ => top
               end) +:+ "." /\
  length top <= maxSentences /\
  (forall s, In s top ->
     In s (sentences text) /\
     exists term, In term terms /\ 3 < String.length term /\
       includes (toLowerCase s) term = true) /\
  (forall s s', In s top -> In s' (sentences text) ->
     score terms s < score terms s' -> In s' top) /\
  (top = [] <->
   maxSentences = 0 \/ forall s, In s (sentences text) -> score terms s = 0).
Proof.
  intros top terms.
  set (scored := List.map (fun s => (s, score terms s)) (sentences text)).
  set (sorted := sort_by_score scored).
  assert (Top : top = List.map fst
                  (List.filter (fun s => (0 <? snd s)%nat) (firstn maxSentences sorted)))
    by reflexivity.
  assert (Scored : forall p, In p sorted -> In (fst p) (sentences text) /\
                                           snd p = score terms (fst p)).
  { intros p Hp. apply (proj1 (sort_by_score_In scored p)) in Hp.
    apply (proj1 (in_map_iff _ _ _)) in Hp as (s & <- & Hs). by split. }
  assert (Mem : forall s, In s top <->
            In (s, score terms s) (firstn maxSentences sorted) /\ 1 <= score terms s).
  { intros s. rewrite Top, in_map_iff. split.
    - intros (p & <- & Hp). apply filter_In in Hp as [Hp Hpos].
      apply Nat.ltb_lt in Hpos.
      destruct (Scored p) as [_ E]; [by eapply In_firstn|].
      destruct p as [s sc]; cbn [fst snd] in *. subst sc. split; [done|lia].
    - intros [Hin Hpos]. exists (s, score terms s). split; [done|].
      apply filter_In. split; [done|]. apply Nat.ltb_lt. cbn [snd]. lia. }
  split; [apply extractRelevantSentences_top|].
  split.
  { rewrite Top, length_map.
    etransitivity; [apply filter_length_le|]. apply firstn_le_length. }
  split.
  { intros s Hs. apply Mem in Hs as [Hin Hpos].
    destruct (Scored (s, score terms s)) as [Hsent _]; [by eapply In_firstn|].
    split; [exact Hsent|].
    apply score_positive in Hpos as (term & Hterm & Hinc).
    exists term. split; [done|]. split; [|done].
    apply filter_In in Hterm as [_ Hlen]. by apply Nat.ltb_lt in Hlen. }
  split.
  { intros s s' Hs Hs' Hlt. apply Mem in Hs as [Hin Hpos]. apply Mem.
    split; [|lia].
    assert (I : In (s', score terms s') sorted).
    { apply (proj2 (sort_by_score_In scored _)), in_map_iff. by exists s'. }
    rewrite <- (firstn_skipn maxSentences sorted) in I.
    apply in_app_or in I as [I|I]; [done|].
    pose proof (descending_cut sorted (sort_by_score_descending scored)
                  maxSentences _ _ Hin I) as Hle.
    cbn [snd] in Hle. lia. }
  split.
  - intros Hnil. destruct maxSentences as [|n]; [by left|]. right.
    intros s Hs. destruct (score terms s) as [|sc] eqn:Esc; [done|]. exfalso.
    assert (I : In (s, score terms s) sorted).
    { apply (proj2 (sort_by_score_In scored _)), in_map_iff. by exists s. }
    pose proof (sort_by_score_descending scored) as Hd. fold sorted in Hd.
    destruct sorted as [|h rest] eqn:Es; [done|].
    destruct Hd as [Hh _].
    assert (Hpos : 1 <= snd h).
    { destruct I as [->|I]; [cbn [snd]; lia|]. specialize (Hh _ I). cbn [snd] in Hh. lia. }
    rewrite Top in Hnil. cbn [firstn List.filter] in Hnil.
    assert ((0 <? snd h)%nat = true) as E by (apply Nat.ltb_lt; lia).
    rewrite E in Hnil. discriminate.
  - intros [->|Hzero]; [by rewrite Top|].
    destruct top as [|s rest] eqn:E; [done|]. exfalso.
    assert (Hs : In s (s :: rest)) by (by left).
    apply (proj1 (Mem s)) in Hs as [Hin Hpos].
    destruct (Scored (s, score terms s)) as [Hsent _]; [by eapply In_firstn|].
    specialize (Hzero s Hsent). cbn [fst] in Hzero. lia.
Qed.

(** *** The batches of [compressDocuments] *)

Section BatchFacts.

Context {D : Type}.
Variable model : string -> model_outcome.
Variable pageContent : D -> string.
Variable query : string.

Lemma compress_loop_ends (docs : list D) (maxConcurrent : nat) :
  1 <= maxConcurrent ->
  forall fuel i results, length docs <= i + fuel ->
  compress_loop model pageContent query docs maxConcurrent fuel i results
  = Some (results ++ List.map (compress_one model pageContent query) (skipn i docs)).
Proof.
  intros Hm. induction fuel as [|fuel IH]; intros i results Hlen.
  - cbn [compress_loop].
    destruct (Nat.ltb_spec i (length docs)); [lia|].
    rewrite skipn_all2 by lia. by rewrite app_nil_r.
  - cbn [compress_loop]. destruct (Nat.ltb_spec i (length docs)).
    + rewrite IH by lia. rewrite <- app_assoc, <- List.map_app. do 3 f_equal.
      rewrite Nat.add_comm, <- skipn_skipn. apply firstn_skipn.
    + rewrite skipn_all2 by lia. by rewrite app_nil_r.
Qed.

Lemma compress_loop_stalls (docs : list D) fuel : forall i results,
  i < length docs ->
  compress_loop model pageContent query docs 0 fuel i results = None.
Proof.
  induction fuel as [|fuel IH]; intros i results Hi; cbn [compress_loop];
    (destruct (Nat.ltb_spec i (length docs)); [|lia]); [done|].
  rewrite Nat.add_0_r. by apply IH.
Qed.

(** X12: with a batch size of at least 1, [compressDocuments] ends, within
    as many batches as there are documents, and returns one result for
    each document, in the order of the documents, whatever the batch size:
    the result of [compressDocument] on it with the two lengths; no result
    is longer than its document, and a result not marked as compressed is
    the text of its document.  With a batch size of 0 and a document to
    compress the loop never ends. *)
Theorem X12_batches_keep_every_document (docs : list D) (maxConcurrent fuel : nat) :
  (1 <= maxConcurrent -> length docs <= fuel ->
   compressDocuments model pageContent query docs maxConcurrent fuel
   = Some (List.map (compress_one model pageContent query) docs)) /\
  (maxConcurrent = 0 -> docs <> [] ->
   compressDocuments model pageContent query docs maxConcurrent fuel = None) /\
  (forall r, In r (List.map (compress_one model pageContent query) docs) ->
     In (doc r) docs /\
     originalLength r = String.length (pageContent (doc r)) /\
     compressedLength r = String.length (compressed r) /\
     compressedLength r <= originalLength r /\
     (wasCompressed r = false -> compressed r = pageContent (doc r))).
Proof.
  unfold compressDocuments. split; [|split].
  - intros Hm Hf. by rewrite compress_loop_ends by (done || lia).
  - intros -> Hne. apply compress_loop_stalls. destruct docs; [done|simpl; lia].
  - intros r Hr. apply in_map_iff in Hr as (d & <- & Hd).
    unfold compress_one. cbn [doc originalLength compressedLength compressed wasCompressed].
    split; [done|]. split; [done|]. split; [done|].
    split; [apply compressDocument_bound|].
    unfold compressDocument. destruct (model _) as [|response]; [done|].
    destruct (_ || _); [done|]. by destruct (shorter_by_a_fifth _ _).
Qed.

End BatchFacts.

Lemma X12_witness :
  let model := fun _ : string => ModelReturns (RString "NOT_RELEVANT") in
  compressDocuments model (fun d : string => d) "why?" ["one"; "two"; "three"; "four"] 3 4
  = Some (List.map (compress_one model (fun d : string => d) "why?")
            ["one"; "two"; "three"; "four"]).
Proof.
  intros model.
  apply (X12_batches_keep_every_document model (fun d : string => d) "why?"
           ["one"; "two"; "three"; "four"] 3 4); simpl; lia.
Defined.

End CompressionExtras.

Module RagExtras.
Import JsString Compression Rag CompressionExtras.

Lemma extractRelevantSentences_not_blank text query n :
  (0 <? String.length (trim (extractRelevantSentences text query n)))%nat = true.
Proof.
  rewrite extractRelevantSentences_top.
  set (body := join ". " _).
  assert (H : all_chars is_space (body +:+ ".") = false).
  { rewrite JsStringFacts.all_chars_app. apply andb_false_r. }
  apply ExtractFacts.trim_not_empty in H.
  by destruct (trim (body +:+ ".")).
Qed.

Lemma filter_all {A} (f : A -> bool) l :
  (forall x, In x l -> f x = true) -> List.filter f l = l.
Proof.
  induction l as [|a l IH]; intros H; [done|]. cbn [List.filter].
  rewrite (H a) by (by left). f_equal. apply IH. intros x Hx. apply H. by right.
Qed.

Section QueryFacts.

Context {Score : Type}.
Variable percent : Score -> string.

Lemma format_context_empty (rs : list (Document * Score)) :
  format_context percent rs = "" <-> rs = [].
Proof.
  split; [|by intros ->]. destruct rs as [|r rs]; [done|].
  unfold format_context. cbn [imap]. intros H. by apply LoaderExtras.join_nonempty in H.
Qed.

(** X13: what [queryRag] returns when the search answers.  Without
    compression the results are the passages of the search, all of them
    and in their order.  With compression they are the first [k] passages
    of the search, in their order and with their scores and start times,
    each with its text replaced by the selection of at most three
    sentences: the filter on empty selections never removes a passage,
    because a selection always ends with a full stop.  In both modes the
    context is the formatted list of the results, and it is empty exactly
    when there is no result. *)
Theorem X13_query_results (index : VectorIndex Score) (videoId question : string)
    (k : nat) (useCompression : bool) (rs : list (Document * Score)) :
  similaritySearchWithScore index videoId question
    (if useCompression then Nat.min (k * 2) 10 else k) = inr rs ->
  exists res, queryRag percent index videoId question k useCompression = inr res /\
    compressionUsed res = useCompression /\
    results res
    = (if useCompression then firstn k (List.map (compress_result question) rs) else rs) /\
    List.map snd (results res)
    = (if useCompression then firstn k (List.map snd rs) else List.map snd rs) /\
    List.map (fun r => startTime (fst r)) (results res)
    = (if useCompression then firstn k (List.map (fun r => startTime (fst r)) rs)
       else List.map (fun r => startTime (fst r)) rs) /\
    context res = format_context percent (results res) /\
    (context res = "" <-> results res = []).
Proof.
  intros H. unfold queryRag. rewrite H.
  set (processed := if useCompression && _ then _ else _).
  assert (P : processed
              = if useCompression then firstn k (List.map (compress_result question) rs)
                else rs).
  { unfold processed. destruct useCompression; [|done]. cbn [andb].
    destruct rs as [|r rs]; [by destruct k|].
    change (0 <? length (r :: rs))%nat with true. cbv iota.
    unfold quickCompress. rewrite List.map_map.
    rewrite filter_all; [done|].
    intros x Hx. apply in_map_iff in Hx as (y & <- & _). cbn [fst snd pageContent].
    apply extractRelevantSentences_not_blank. }
  eexists. split; [reflexivity|]. cbn [compressionUsed results context].
  split; [done|]. split; [exact P|]. rewrite P.
  split; [|split; [|split; [done|apply format_context_empty]]].
  - destruct useCompression; [|done]. by rewrite <- firstn_map, List.map_map.
  - destruct useCompression; [|done]. by rewrite <- firstn_map, List.map_map.
Qed.

End QueryFacts.

Lemma X13_witness :
  let rs := [({| pageContent := "Gradient descent follows the slope downhill. Thanks for watching";
                 startTime := Some 125 |}, 87%Z);
             ({| pageContent := "Hi"; startTime := None |}, 12%Z)] in
  let index : VectorIndex Z :=
    {| namespaceExists := fun _ => true;
       similaritySearchWithScore := fun _ _ _ => inr rs |} in
  exists res, queryRag (fun _ => "0.0") index "dQw4w9WgXcQ" "What is gradient descent?" 1 true
              = inr res /\
    results res
    = [({| pageContent := "Gradient descent follows the slope downhill.";
           startTime := Some 125 |}, 87%Z)].
Proof.
  intros rs index.
  destruct (X13_query_results (fun _ => "0.0") index "dQw4w9WgXcQ"
              "What is gradient descent?" 1 true rs eq_refl)
    as (res & E & _ & R & _).
  exists res. split; [exact E|]. rewrite R. reflexivity.
Defined.

(** X14: a timestamp is the number of whole minutes, a colon and the
    remaining seconds in exactly two digits; the minutes are not reduced
    to hours. *)
Theorem X14_timestamp_shape (minutes seconds : nat) :
  seconds < 60 ->
  formatTimestamp (60 * minutes + seconds)
  = show_nat minutes +:+ ":"
    +:+ String (digit (seconds / 10)) (String (digit (seconds mod 10)) "").
Proof.
  intros H. unfold formatTimestamp.
  replace ((60 * minutes + seconds) / 60) with minutes
    by (apply Nat.div_unique with seconds; lia).
  replace ((60 * minutes + seconds) mod 60) with seconds
    by (apply Nat.mod_unique with minutes; lia).
  do 2 f_equal.
  do 60 (destruct seconds as [|seconds]; [reflexivity|]). lia.
Qed.

Lemma X14_witness : formatTimestamp 3725 = "62:05".
Proof. apply (X14_timestamp_shape 62 5). lia. Defined.

End RagExtras.

(** ** More on the handler: bodies, tool results, tokens and markup *)

Module AskExtras.
Import JsString Sanitize Ask SanitizeFacts AskFacts SanitizeExtras.

(** *** Invalid bodies *)

(** X16: what a POST with an invalid body is answered, whatever the agent
    would do: a stream of one [error] event.  When the URL or the question
    is missing or blank, the event carries the generic message, since the
    message of the validation error holds no safe phrase; when the URL
    mentions neither [youtube.com] nor [youtu.be], or the question is
    longer than 500 characters, the event carries the message of the
    validation error.  A valid body is answered by what the agent does on
    the single message built from the URL and the question. *)
Theorem X16_invalid_bodies (agent : string -> agent_run) (req : request) :
  method req = "POST" ->
  (blank_field (url req) = true \/ blank_field (question req) = true ->
   handler agent req = EventStream [ErrorEvent generic_message]) /\
  (forall u q, url req = Some u -> question req = Some q ->
     blank_field (url req) = false -> blank_field (question req) = false ->
     (includes u "youtube.com" = false -> includes u "youtu.be" = false ->
      handler agent req
      = EventStream [ErrorEvent
          "Invalid YouTube URL. Please provide a valid youtube.com or youtu.be URL"]) /\
     (includes u "youtube.com" || includes u "youtu.be" = true ->
      500 < String.length q ->
      handler agent req
      = EventStream [ErrorEvent "Question is too long. Maximum 500 characters allowed"]) /\
     (includes u "youtube.com" || includes u "youtu.be" = true ->
      String.length q <= 500 ->
      forall agent' : string -> agent_run,
        agent' (user_message u q) = agent (user_message u q) ->
        handler agent' req = handler agent req)).
Proof.
  intros M. unfold handler. rewrite M. cbn [String.eqb Ascii.eqb Bool.eqb negb].
  assert (G1 : sanitizeErrorMessage
                 (ValidationError "URL parameter is required and cannot be empty")
               = generic_message) by (vm_compute; reflexivity).
  assert (G2 : sanitizeErrorMessage
                 (ValidationError "Question parameter is required and cannot be empty")
               = generic_message) by (vm_compute; reflexivity).
  assert (G3 : sanitizeErrorMessage
                 (ValidationError
                    "Invalid YouTube URL. Please provide a valid youtube.com or youtu.be URL")
               = "Invalid YouTube URL. Please provide a valid youtube.com or youtu.be URL")
    by (vm_compute; reflexivity).
  assert (G4 : sanitizeErrorMessage
                 (ValidationError "Question is too long. Maximum 500 characters allowed")
               = "Question is too long. Maximum 500 characters allowed")
    by (vm_compute; reflexivity).
  unfold validate, blank_field, on_error. split.
  - destruct (url req) as [u|]; [|by rewrite G1].
    destruct (String.eqb (trim u) ""); [by rewrite G1|].
    destruct (question req) as [q|]; [|by rewrite G2].
    destruct (String.eqb (trim q) ""); [by rewrite G2|].
    by intros [|].
  - intros u q -> -> -> ->. split; [|split].
    + intros -> ->. cbn [negb andb app]. by rewrite G3.
    + intros Hu Hq. apply orb_true_iff in Hu.
      assert (negb (includes u "youtube.com") && negb (includes u "youtu.be") = false)
        as -> by (destruct Hu as [-> | ->]; [done|apply andb_false_r]).
      assert ((500 <? String.length q)%nat = true) as -> by (by apply Nat.ltb_lt).
      cbn [app]. by rewrite G4.
    + intros Hu Hq agent' E. apply orb_true_iff in Hu.
      assert (negb (includes u "youtube.com") && negb (includes u "youtu.be") = false)
        as -> by (destruct Hu as [-> | ->]; [done|apply andb_false_r]).
      assert ((500 <? String.length q)%nat = false) as -> by (by apply Nat.ltb_ge).
      by rewrite E.
Qed.

Lemma X16_witness :
  handler (fun _ => {| start_error := None; chunks := []; stream_error := None |})
    {| method := "POST"; url := Some "  "; question := Some "What is said?" |}
  = EventStream [ErrorEvent generic_message].
Proof.
  apply (X16_invalid_bodies
           (fun _ => {| start_error := None; chunks := []; stream_error := None |})
           {| method := "POST"; url := Some "  "; question := Some "What is said?" |}
           eq_refl).
  left. reflexivity.
Defined.

(** *** One step of the loop, by the type of the last message *)

Lemma step_of_tool st c m :
  last c = Some m -> m_type m = "tool" -> step st c = handle_tool_result st m.
Proof.
  intros L T. unfold step. rewrite L.
  unfold handle_answer, is_answer, handle_tool_calls. rewrite T.
  cbn [String.eqb Ascii.eqb Bool.eqb andb].
  by destruct (handle_tool_result st m).
Qed.

Lemma step_of_other st c m :
  last c = Some m -> m_type m <> "tool" ->
  step st c =
  (let '(st1, ev1) := handle_answer st m in
   let '(st2, ev2) := handle_tool_calls st1 m in (st2, ev1 ++ ev2)).
Proof.
  intros L T. unfold step. rewrite L.
  destruct (handle_answer st m) as [st1 ev1].
  destruct (handle_tool_calls st1 m) as [st2 ev2].
  unfold handle_tool_result.
  destruct (String.eqb_spec (m_type m) "tool"); [done|]. by rewrite app_nil_r.
Qed.

Lemma tool_ends_app a b : tool_ends (a ++ b) = tool_ends a ++ tool_ends b.
Proof. apply omap_app. Qed.

Lemma ai_key_not_tool m x :
  m_type m = "ai" -> messageKey m <> "tool-" +:+ x.
Proof. unfold messageKey. intros ->. discriminate. Qed.

(** What a chunk whose last message is no tool message does to the keys:
    nothing, or it adds the key of an answer. *)
Lemma step_other_keys st c m :
  last c = Some m -> m_type m <> "tool" ->
  tool_ends (snd (step st c)) = [] /\
  (sentMessages (fst (step st c)) = sentMessages st \/
   (m_type m = "ai" /\
    sentMessages (fst (step st c)) = {[ messageKey m ]} ∪ sentMessages st)).
Proof.
  intros L T. rewrite (step_of_other st c m L T).
  unfold handle_answer, handle_tool_calls.
  destruct (is_answer m) eqn:A.
  - assert (Ty : m_type m = "ai").
    { unfold is_answer in A. apply andb_true_iff in A as [A _].
      apply andb_true_iff in A as [A _]. by apply String.eqb_eq in A. }
    rewrite Ty. cbn [String.eqb Ascii.eqb Bool.eqb].
    destruct (_ && _); destruct (m_tool_calls m) as [|tc l];
      try destruct (negb _); cbn [fst snd sentMessages app tool_ends omap]; auto.
  - destruct (String.eqb _ _); [|by auto].
    destruct (m_tool_calls m) as [|tc l]; [by auto|].
    destruct (negb _); cbn [fst snd sentMessages app tool_ends omap]; auto.
Qed.

(** *** Tool results *)

Lemma first_results_other k l : forall seen,
  (forall x, k <> "tool-" +:+ x) ->
  first_results ({[ k ]} ∪ seen) l = first_results seen l.
Proof.
  induction l as [|r l IH]; intros seen Hk; [done|]. cbn [first_results].
  destruct (bool_decide_reflect (toolKey (fst r) ∈ seen)) as [Hin|Hout].
  - rewrite bool_decide_eq_true_2 by set_solver. by apply IH.
  - rewrite bool_decide_eq_false_2.
    2:{ rewrite elem_of_union, elem_of_singleton. intros [E|]; [|done].
        symmetry in E. by apply Hk in E. }
    f_equal.
    replace ({[toolKey (fst r)]} ∪ ({[k]} ∪ seen))
      with ({[k]} ∪ ({[toolKey (fst r)]} ∪ seen))
      by (apply set_eq; intros x; rewrite !elem_of_union; tauto).
    by apply IH.
Qed.

Lemma tool_results_cons c chunks :
  tool_results (c :: chunks)
  = match last c with
    | Some m =>
        if String.eqb (m_type m) "tool"
        then (m_name m, m_content m) :: tool_results chunks
        else tool_results chunks
    | None => tool_results chunks
    end.
Proof.
  unfold tool_results. cbn [omap list_omap]. destruct (last c) as [m|]; [|done].
  by destruct (String.eqb _ _).
Qed.

(** The [tool_end] events of the loop are those of the first result under
    each key. *)
Lemma process_from_tool_ends chunks : forall st,
  tool_ends (snd (process_from st chunks))
  = List.map tool_end_of (first_results (sentMessages st) (tool_results chunks)).
Proof.
  induction chunks as [|c chunks IH]; intros st; [done|].
  cbn [process_from]. rewrite tool_results_cons.
  destruct (last c) as [m|] eqn:L.
  - destruct (String.eqb_spec (m_type m) "tool") as [T|T].
    + rewrite (step_of_tool st c m L T). unfold handle_tool_result.
      rewrite T. cbn [String.eqb Ascii.eqb Bool.eqb]. cbn [first_results fst].
      fold (toolKey (m_name m)).
      destruct (bool_decide (toolKey (m_name m) ∈ sentMessages st)); cbn [negb].
      * specialize (IH st). destruct (process_from st chunks) as [st2 ev2].
        cbn [snd app] in *. by rewrite IH.
      * match goal with
        | |- context [process_from ?s chunks] => specialize (IH s)
        end.
        destruct (process_from _ chunks) as [st2 ev2]. cbn [snd sentMessages] in *.
        rewrite tool_ends_app, IH. reflexivity.
    + destruct (step_other_keys st c m L T) as [E K].
      destruct (step st c) as [st1 ev1]. cbn [fst snd] in *.
      specialize (IH st1). destruct (process_from st1 chunks) as [st2 ev2].
      cbn [snd] in *. rewrite tool_ends_app, E, IH. cbn [app].
      destruct K as [->|[Ty ->]]; [done|].
      rewrite first_results_other; [done|]. intros x. by apply ai_key_not_tool.
  - unfold step. rewrite L. specialize (IH st).
    destruct (process_from st chunks) as [st2 ev2]. cbn [snd app] in *. by rewrite IH.
Qed.

Lemma first_results_keys l : forall seen,
  NoDup (List.map (fun r => toolKey (fst r)) (first_results seen l)) /\
  (forall r, r ∈ first_results seen l -> (toolKey (fst r) ∉ seen) /\ (r ∈ l)) /\
  (forall r, r ∈ l ->
     toolKey (fst r) ∈ seen \/
     exists r', r' ∈ first_results seen l /\ toolKey (fst r') = toolKey (fst r)).
Proof.
  induction l as [|r0 l IH]; intros seen.
  { split; [constructor|]. split; intros r Hr; by apply elem_of_nil in Hr. }
  cbn [first_results]. destruct (bool_decide_reflect (toolKey (fst r0) ∈ seen)) as [Hin|Hout].
  - destruct (IH seen) as (N & M & C). split; [done|]. split.
    + intros r Hr. destruct (M r Hr). split; [done|]. by apply elem_of_cons; right.
    + intros r Hr. apply elem_of_cons in Hr as [->|Hr]; [by left|by apply C].
  - destruct (IH ({[toolKey (fst r0)]} ∪ seen)) as (N & M & C). split; [|split].
    + cbn [List.map]. apply NoDup_cons. split; [|done].
      intros Hin. apply list_elem_of_In, in_map_iff in Hin as (r' & E & Hr').
      apply list_elem_of_In in Hr'.
      destruct (M r' Hr') as [Hn _]. apply Hn. rewrite E.
      apply elem_of_union. left. by apply elem_of_singleton.
    + intros r Hr. apply elem_of_cons in Hr as [->|Hr].
      * split; [done|]. by apply elem_of_cons; left.
      * destruct (M r Hr) as [Hn ?]. split; [|by apply elem_of_cons; right].
        intros Hs. apply Hn. apply elem_of_union. by right.
    + intros r Hr. apply elem_of_cons in Hr as [->|Hr].
      * right. exists r0. split; [|done]. by apply elem_of_cons; left.
      * destruct (C r Hr) as [Hs|(r' & Hr' & E)].
        -- apply elem_of_union in Hs as [Hs|Hs]; [|by left].
           apply elem_of_singleton in Hs. right. exists r0.
           split; [by apply elem_of_cons; left|done].
        -- right. exists r'. split; [by apply elem_of_cons; right|done].
Qed.

Lemma NoDup_map_weaken {A B C} (f : A -> B) (g : A -> C) (l : list A) :
  (forall x y, x ∈ l -> y ∈ l -> g x = g y -> f x = f y) ->
  NoDup (List.map f l) -> NoDup (List.map g l).
Proof.
  induction l as [|a l IH]; intros H N; [constructor|].
  cbn [List.map] in *. apply NoDup_cons in N as [N1 N2]. apply NoDup_cons. split.
  - intros Hin. apply list_elem_of_In, in_map_iff in Hin as (y & E & Hy). apply N1.
    apply list_elem_of_In, in_map_iff. exists y. split; [|done].
    apply list_elem_of_In in Hy. symmetry.
    apply H; [by apply elem_of_cons; left|by apply elem_of_cons; right|done].
  - apply IH; [|done]. intros x y Hx Hy. apply H; by apply elem_of_cons; right.
Qed.

(** X17: the [tool_end] events of a request are those of the first tool
    result met under each key [tool-<name>], in the order of the stream:
    the escaped name and the escaped content cut to 200 characters.  No
    key is reported twice, the key of every result met is reported, and a
    later result under a key already reported is never sent, whatever its
    content.  When every tool message bears a name, no tool name appears
    in two [tool_end] events. *)
Theorem X17_first_result_of_each_tool (chunks : list chunk) :
  let reported := first_results ∅ (tool_results chunks) in
  tool_ends (process chunks) = List.map tool_end_of reported /\
  NoDup (List.map (fun r => toolKey (fst r)) reported) /\
  (forall r, r ∈ reported -> r ∈ tool_results chunks) /\
  (forall r, r ∈ tool_results chunks ->
     exists r', r' ∈ reported /\ toolKey (fst r') = toolKey (fst r)) /\
  ((forall r, r ∈ tool_results chunks -> fst r <> None) ->
   NoDup (List.map fst (tool_ends (process chunks)))).
Proof.
  intros reported.
  assert (E : tool_ends (process chunks) = List.map tool_end_of reported)
    by apply process_from_tool_ends.
  destruct (first_results_keys (tool_results chunks) ∅) as (N & M & C).
  split; [exact E|]. split; [exact N|]. split; [intros r Hr; by apply M|]. split.
  - intros r Hr. destruct (C r Hr) as [Hin|?]; [|done]. by apply not_elem_of_empty in Hin.
  - intros Named. rewrite E, List.map_map.
    apply (NoDup_map_weaken (fun r => toolKey (fst r))); [|exact N].
    intros [x cx] [y cy] Hx Hy. cbn [tool_end_of fst snd].
    apply M in Hx as [_ Hx]. apply M in Hy as [_ Hy].
    apply Named in Hx. apply Named in Hy. cbn [fst] in *.
    destruct x as [x|]; [|done]. destruct y as [y|]; [|done]. cbn [or_else].
    intros H. destruct (String.eqb_spec x "") as [->|Nx];
      destruct (String.eqb_spec y "") as [->|Ny]; try done.
    + destruct y; [done|]. cbn in H. unfold escape_char in H.
      case_chars; discriminate H.
    + destruct x; [done|]. cbn in H. unfold escape_char in H.
      case_chars; discriminate H.
    + apply sanitizeHTML_inj in H. by rewrite H.
Qed.

(** *** Tokens *)

Lemma step_sent_mono st c : sentMessages st ⊆ sentMessages (fst (step st c)).
Proof.
  destruct (last c) as [m|] eqn:L; [|unfold step; by rewrite L].
  destruct (String.eqb_spec (m_type m) "tool") as [T|T].
  - rewrite (step_of_tool st c m L T). unfold handle_tool_result.
    destruct (String.eqb _ _); [|done]. destruct (negb _); [|done].
    cbn [fst sentMessages]. set_solver.
  - destruct (step_other_keys st c m L T) as [_ [->|[_ ->]]]; set_solver.
Qed.

(** What a chunk does to the tokens when its answer is a string. *)
Lemma step_plain_token st c :
  plain_answer c = true ->
  tokens (snd (step st c)) = [] \/
  exists s, tokens (snd (step st c)) = [sanitizeHTML s] /\
    ("ai-" +:+ json_string s ∉ sentMessages st) /\
    ("ai-" +:+ json_string s ∈ sentMessages (fst (step st c))).
Proof.
  unfold plain_answer. intros P.
  destruct (last c) as [m|] eqn:L; [|left; unfold step; by rewrite L].
  pose proof (step_sent_mono st c) as Mono.
  destruct (step_token st c m L) as (T1 & _ & _). rewrite T1.
  unfold handle_answer in *. destruct (is_answer m) eqn:A; [|by left].
  destruct (m_content m) as [|s|] eqn:Cm; [done| |done].
  assert (Ty : m_type m = "ai").
  { unfold is_answer in A. apply andb_true_iff in A as [A _].
    apply andb_true_iff in A as [A _]. by apply String.eqb_eq in A. }
  assert (Key : messageKey m = "ai-" +:+ json_string s).
  { unfold messageKey. by rewrite Ty, Cm. }
  cbn [content_text]. rewrite Key.
  destruct (bool_decide_reflect ("ai-" +:+ json_string s ∈ sentMessages st)) as [Hin|Hout];
    [rewrite andb_false_r; by left|].
  destruct (negb (String.eqb s "") && negb (String.eqb s (messageBuffer st))) eqn:G;
    [|by left].
  right. exists s. cbn [negb andb snd tokens omap]. split; [done|]. split; [done|].
  assert (Tn : m_type m <> "tool") by (rewrite Ty; discriminate).
  rewrite (step_of_other st c m L Tn). unfold handle_answer. rewrite A, Cm.
  cbn [content_text]. rewrite G, Key.
  assert (bool_decide ("ai-" +:+ json_string s ∈ sentMessages st) = false) as ->
    by (by apply bool_decide_eq_false).
  cbn [negb andb].
  pose proof (handle_tool_calls_token
    {| messageBuffer := s; lastToolName := lastToolName st;
       sentMessages := {["ai-" +:+ json_string s]} ∪ sentMessages st |} m) as (_ & S & _).
  destruct (handle_tool_calls _ m) as [st2 ev2]. cbn [fst snd sentMessages] in *.
  rewrite S. apply elem_of_union. left. by apply elem_of_singleton.
Qed.

Lemma process_from_plain_tokens chunks : forall st,
  forallb plain_answer chunks = true ->
  NoDup (tokens (snd (process_from st chunks))) /\
  forall t, t ∈ tokens (snd (process_from st chunks)) ->
    exists s, t = sanitizeHTML s /\ ("ai-" +:+ json_string s ∉ sentMessages st).
Proof.
  induction chunks as [|c chunks IH]; intros st P.
  { split; [constructor|]. intros t Ht. by apply elem_of_nil in Ht. }
  cbn [forallb] in P. apply andb_true_iff in P as [Pc P].
  cbn [process_from].
  pose proof (step_plain_token st c Pc) as S.
  pose proof (step_sent_mono st c) as Mono.
  destruct (step st c) as [st1 ev1]. cbn [fst snd] in *.
  destruct (IH st1 P) as [N M]. destruct (process_from st1 chunks) as [st2 ev2].
  cbn [fst snd] in *. rewrite tokens_app.
  destruct S as [->|(s & -> & Hout & Hin)]; cbn [app].
  - split; [done|]. intros t Ht. destruct (M t Ht) as (s & E & Hs).
    exists s. split; [done|]. intros Hs'. apply Hs. by apply Mono.
  - split.
    + apply NoDup_cons. split; [|done]. intros Ht.
      destruct (M _ Ht) as (s' & E & Hs). apply sanitizeHTML_inj in E. by subst s'.
    + intros t Ht. apply elem_of_cons in Ht as [->|Ht]; [by exists s|].
      destruct (M t Ht) as (s' & E & Hs). exists s'. split; [done|].
      intros Hs'. apply Hs. by apply Mono.
Qed.

(** X18: when every answer of the stream has a string as content, no two
    [token] events of a request carry the same text: an answer that was
    sent is never sent again, even when other answers came in between. *)
Theorem X18_no_answer_is_sent_twice (chunks : list chunk) :
  forallb plain_answer chunks = true ->
  NoDup (tokens (process chunks)).
Proof. intros P. by apply process_from_plain_tokens. Qed.

Lemma X18_witness :
  NoDup (tokens (process [[ai_says "A"]; [ai_says "AB"]; [ai_says "A"]])).
Proof.
  apply (X18_no_answer_is_sent_twice [[ai_says "A"]; [ai_says "AB"]; [ai_says "A"]]).
  reflexivity.
Defined.

(** *** No markup in what is written *)

Lemma handle_answer_clean st m :
  Forall (fun e => event_clean e = true) (snd (handle_answer st m)).
Proof.
  unfold handle_answer. destruct (is_answer m); [|constructor].
  destruct (_ && _); cbn [snd]; repeat constructor.
  apply sanitizeHTML_no_markup.
Qed.

Lemma handle_tool_calls_clean st m :
  forallb (fun tc => is_json (tc_args tc)) (m_tool_calls m) = true ->
  Forall (fun e => event_clean e = true) (snd (handle_tool_calls st m)).
Proof.
  intros J. unfold handle_tool_calls. destruct (String.eqb _ _); [|constructor].
  destruct (m_tool_calls m) as [|tc l]; [constructor|].
  cbn [forallb] in J. apply andb_true_iff in J as [J _].
  destruct (negb _); cbn [snd]; repeat constructor. cbn [event_clean].
  apply andb_true_iff. split; [apply sanitizeHTML_no_markup|].
  by apply sanitizeToolArgs_clean.
Qed.

Lemma handle_tool_result_clean st m :
  Forall (fun e => event_clean e = true) (snd (handle_tool_result st m)).
Proof.
  unfold handle_tool_result. destruct (String.eqb _ _); [|constructor].
  destruct (negb _); cbn [snd]; repeat constructor. cbn [event_clean].
  apply andb_true_iff. split; [apply andb_true_iff; split|].
  - apply sanitizeHTML_no_markup.
  - destruct (m_content m) as [|s|]; [done| |done].
    apply truncate_no_markup, sanitizeHTML_no_markup.
  - destruct (m_content m) as [|s|]; [done| |done].
    apply Nat.leb_le. apply (truncate_length (sanitizeHTML s) 200).
Qed.

Lemma process_from_clean chunks : forall st,
  json_calls chunks = true ->
  Forall (fun e => event_clean e = true) (snd (process_from st chunks)).
Proof.
  induction chunks as [|c chunks IH]; intros st J; [constructor|].
  cbn [json_calls forallb] in J. apply andb_true_iff in J as [Jc J].
  cbn [process_from].
  assert (S : Forall (fun e => event_clean e = true) (snd (step st c))).
  { unfold step. destruct (last c) as [m|] eqn:L; [|constructor].
    assert (Jm : forallb (fun tc => is_json (tc_args tc)) (m_tool_calls m) = true).
    { apply (proj1 (forallb_forall _ _) Jc). apply list_elem_of_In.
      by apply last_Some_elem_of. }
    pose proof (handle_answer_clean st m) as H1.
    destruct (handle_answer st m) as [st1 ev1].
    pose proof (handle_tool_calls_clean st1 m Jm) as H2.
    destruct (handle_tool_calls st1 m) as [st2 ev2].
    pose proof (handle_tool_result_clean st2 m) as H3.
    destruct (handle_tool_result st2 m) as [st3 ev3].
    cbn [snd] in *. by repeat apply Forall_app_2. }
  destruct (step st c) as [st1 ev1]. specialize (IH st1 J).
  destruct (process_from st1 chunks) as [st2 ev2]. cbn [snd] in *.
  by apply Forall_app_2.
Qed.

Lemma sanitizeErrorMessage_clean error : no_markup (sanitizeErrorMessage error) = true.
Proof.
  rewrite sanitizeErrorMessage_existsb. destruct (existsb _ _); [|reflexivity].
  apply sanitizeHTML_no_markup.
Qed.

(** X19: when the arguments of the tool calls are JSON values, every
    event that [handler] writes is free of markup: the text of a token, the
    name and every string of the arguments of a [tool_start], the name and
    the result of a [tool_end] and the message of an [error] hold none of
    the characters [<], [>], the quotes and [/]; and the result of a
    [tool_end] has at most 203 characters. *)
Theorem X19_events_hold_no_markup (agent : string -> agent_run) (req : request)
    (events : list event) :
  (forall msg, json_calls (chunks (agent msg)) = true) ->
  handler agent req = EventStream events ->
  Forall (fun e => event_clean e = true) events.
Proof.
  intros J. unfold handler, on_error.
  destruct (negb _); [done|].
  destruct (validate req) as [error|[u q]].
  { intros [= <-]. repeat constructor. apply sanitizeErrorMessage_clean. }
  destruct (start_error _) as [error|].
  { intros [= <-]. repeat constructor. apply sanitizeErrorMessage_clean. }
  pose proof (process_from_clean (chunks (agent (user_message u q))) initial (J _)) as P.
  destruct (stream_error _) as [error|]; intros [= <-]; apply Forall_app_2; try done;
    repeat constructor. apply sanitizeErrorMessage_clean.
Qed.

Lemma X19_witness :
  Forall (fun e => event_clean e = true)
    [ToolStart "fetch_transcript" (JObject [("videoUrlOrId", JString "&lt;b&gt;")]);
     ToolEnd "fetch_transcript" "&lt;i&gt;ok";
     Token "It is &lt;42&gt;.";
     Done].
Proof.
  apply (X19_events_hold_no_markup
           (fun _ => {| start_error := None;
                        chunks := [[{| m_type := "ai"; m_content := CString "";
                                       m_tool_calls :=
                                         [{| tc_name := "fetch_transcript";
                                             tc_args := JObject [("videoUrlOrId", JString "<b>")] |}];
                                       m_name := None |}];
                                   [{| m_type := "tool"; m_content := CString "<i>ok";
                                       m_tool_calls := [];
                                       m_name := Some "fetch_transcript" |}];
                                   [ai_says "It is <42>."]];
                        stream_error := None |})
           {| method := "POST"; url := Some "https://youtu.be/dQw4w9WgXcQ";
              question := Some "What is said?" |}).
  - intros msg. reflexivity.
  - reflexivity.
Defined.

End AskExtras.

(** ** The agent singleton *)

Module AgentManagerExtras.
Import AgentManager.

Section ManagerFacts.

Context {Agent : Type}.
Variable createYouTubeAgent : string -> Agent.

(** The state reached by a history: the model name is the configured
    one, a cached agent was created for it, and the agents created are at
    most one more than the calls that discard. *)
Lemma run_invariant (calls : list call) : forall (s : manager Agent * nat) name d,
  modelName (fst s) = name ->
  (forall a, agent (fst s) = Some a -> a = createYouTubeAgent name) ->
  snd s + (match agent (fst s) with Some _ => 0 | None => 1 end) <= d + 1 ->
  let s' := fold_left (apply_call createYouTubeAgent) calls s in
  let name' := fold_left (fun name c => match c with SetModelName n => n | _ => name end)
                 calls name in
  modelName (fst s') = name' /\
  (forall a, agent (fst s') = Some a -> a = createYouTubeAgent name') /\
  snd s' + (match agent (fst s') with Some _ => 0 | None => 1 end) <= d + discards calls + 1.
Proof.
  induction calls as [|c calls IH]; intros [m n] name d Hn Ha Hc.
  { cbn [fold_left discards List.filter length] in *. rewrite Nat.add_0_r. auto. }
  cbn [fold_left fst snd] in *.
  destruct c as [| |name0].
  - unfold apply_call, getAgent. cbn [fst snd].
    destruct (agent m) as [a|] eqn:E.
    + specialize (IH (m, n) name d). cbn [fst snd] in IH. rewrite E in IH.
      apply IH; auto.
    + specialize (IH ({| agent := Some (createYouTubeAgent (modelName m));
                         modelName := modelName m |}, S n) name d).
      cbn [fst snd agent modelName] in IH. apply IH; [done| |lia].
      intros a [= <-]. by rewrite Hn.
  - specialize (IH (resetAgent m, n) name (S d)).
    cbn [apply_call fst snd resetAgent agent modelName] in *.
    destruct IH as (I1 & I2 & I3); [done|done|destruct (agent m); lia|].
    split; [done|]. split; [done|].
    unfold discards in *. cbn [List.filter length]. lia.
  - specialize (IH (setModelName name0 m, n) name0 (S d)).
    cbn [apply_call fst snd] in *.
    destruct IH as (I1 & I2 & I3).
    + unfold setModelName. destruct (String.eqb_spec (modelName m) name0); [done|].
      reflexivity.
    + unfold setModelName. destruct (String.eqb_spec (modelName m) name0) as [E|E].
      * cbn [negb]. intros a Hm. rewrite <- E, Hn. by apply Ha.
      * cbn [negb resetAgent agent]. done.
    + unfold setModelName. destruct (String.eqb_spec (modelName m) name0) as [E|E];
        cbn [negb resetAgent agent]; [destruct (agent m); lia|lia].
    + split; [done|]. split; [done|].
      unfold discards in *. cbn [List.filter length]. lia.
Qed.

(** X20: after any history of calls on the singleton, [getAgent] returns
    an agent created for the model name configured last (the default when
    none was set): an agent kept from before is never stale.  A second
    [getAgent] in a row creates nothing and returns the same agent;
    setting the name that is already configured keeps the agent; and the
    agents created in a history are at most one more than its calls of
    [resetAgent] and [setModelName]. *)
Theorem X20_agent_is_never_stale (calls : list call) :
  let m := fst (run_calls createYouTubeAgent calls) in
  modelName m = configured calls /\
  fst (fst (getAgent createYouTubeAgent m)) = createYouTubeAgent (configured calls) /\
  (let m' := snd (fst (getAgent createYouTubeAgent m)) in
   getAgent createYouTubeAgent m'
   = (fst (fst (getAgent createYouTubeAgent m)), m', false)) /\
  setModelName (modelName m) m = m /\
  snd (run_calls createYouTubeAgent calls) <= discards calls + 1.
Proof.
  intros m.
  destruct (run_invariant calls (initial_manager, 0) "gpt-4o-mini" 0) as (I1 & I2 & I3);
    [done|done|cbn; lia|].
  fold (run_calls createYouTubeAgent calls) in I1, I2, I3. fold (configured calls) in I1, I2.
  fold m in I1, I2, I3.
  split; [exact I1|]. split; [|split; [|split]].
  - unfold getAgent. destruct (agent m) as [a|] eqn:E; cbn [fst].
    + by apply I2.
    + by rewrite I1.
  - unfold getAgent. by destruct (agent m) as [a|] eqn:E; cbn [fst snd agent]; rewrite ?E.
  - unfold setModelName. by rewrite String.eqb_refl.
  - cbn [Nat.add] in I3. destruct (agent m); lia.
Qed.

End ManagerFacts.

End AgentManagerExtras.

(** ** The tools and the reporting of their failures *)

Module ToolsExtras.
Import JsString Sanitize Loader Ask Tools LoaderExtras AskExtras.

Lemma is_id_not_empty v : is_id v = true -> String.eqb v "" = false.
Proof. intros H. apply ExtractFacts.is_id_length in H. by destruct v. Qed.

(** X21: the guards of the tools on a missing identifier never fire.
    [extract_video_id] answers with the identifier exactly when
    [extractVideoId] finds one, and the identifier it shows has 11
    identifier characters.  [fetch_transcript] and [index_content] throw
    what [fetchTranscript] throws and never [Failed to extract video ID];
    on success [fetch_transcript] hands on the transcript of
    [fetchTranscript] as its artifact, and [index_content] asks
    [indexTranscript] only about a namespace of 11 identifier characters. *)
Theorem X21_tool_guards_never_fire (input language : string)
    (load : nat -> load_outcome) :
  (extractVideoIdTool input
   = match extractVideoId input with
     | Some videoId => inr ("Extracted video ID: " +:+ videoId)
     | None => inl (new_VideoNotFoundError ("Could not extract video ID from URL: " +:+ input))
     end) /\
  (forall videoId, extractVideoId input = Some videoId -> is_id videoId = true) /\
  (fetchTranscriptTool input language load <> inl (new_Error "Failed to extract video ID")) /\
  (forall error,
     fetchTranscriptTool input language load = inl error <->
     exists message, fetchTranscript input default_options load = inl message /\
                     error = new_Error message) /\
  (forall content r,
     fetchTranscriptTool input language load = inr (content, r) ->
     fetchTranscript input default_options load = inr r /\ is_id (id r) = true) /\
  (forall index1 index2 : string -> string -> thrown + nat,
     (forall namespace text, is_id namespace = true ->
        index1 namespace text = index2 namespace text) ->
     indexContentTool input language load index1
     = indexContentTool input language load index2) /\
  (forall index error,
     indexContentTool input language load index = inl error ->
     (exists message, fetchTranscript input default_options load = inl message /\
                      error = new_Error message) \/
     (exists r, fetchTranscript input default_options load = inr r /\
                index (id r) (text r) = inl error)).
Proof.
  assert (Msg : forall message,
    fetchTranscript input default_options load = inl message ->
    message <> "Failed to extract video ID").
  { unfold fetchTranscript. intros message.
    destruct (String.eqb (trim input) ""); [by intros [= <-]|].
    destruct (extractVideoId input) as [vid|]; [|by intros [= <-]].
    destruct (snd _) as [m|[[|d ds]|]]; intros [= <-]; discriminate. }
  assert (Id : forall r, fetchTranscript input default_options load = inr r ->
                         is_id (id r) = true).
  { intros r H. by destruct (fetchTranscript_id input default_options load r H). }
  split; [|split; [|split; [|split; [|split; [|split]]]]].
  - unfold extractVideoIdTool. destruct (extractVideoId input) as [v|] eqn:E; [|done].
    by rewrite (is_id_not_empty v (extractVideoId_is_id input v E)).
  - apply extractVideoId_is_id.
  - unfold fetchTranscriptTool.
    destruct (fetchTranscript input default_options load) as [message|r] eqn:F.
    + intros [= E]. by apply (Msg message).
    + by rewrite (is_id_not_empty _ (Id r eq_refl)).
  - intros error. unfold fetchTranscriptTool.
    destruct (fetchTranscript input default_options load) as [message|r] eqn:F.
    + split; [intros [= <-]; by exists message|].
      by intros (message' & [= <-] & ->).
    + rewrite (is_id_not_empty _ (Id r eq_refl)). split; [done|].
      by intros (message' & [=] & _).
  - intros content r. unfold fetchTranscriptTool.
    destruct (fetchTranscript input default_options load) as [message|r'] eqn:F; [done|].
    rewrite (is_id_not_empty _ (Id r' eq_refl)). intros [= _ <-]. split; [done|].
    by apply Id.
  - intros index1 index2 H. unfold indexContentTool.
    destruct (fetchTranscript input default_options load) as [message|r] eqn:F; [done|].
    rewrite (is_id_not_empty _ (Id r eq_refl)). by rewrite (H _ _ (Id r eq_refl)).
  - intros index error. unfold indexContentTool.
    destruct (fetchTranscript input default_options load) as [message|r] eqn:F.
    + intros [= <-]. left. by exists message.
    + rewrite (is_id_not_empty _ (Id r eq_refl)).
      destruct (index _ _) as [error'|chunks] eqn:I; [|done].
      intros [= <-]. right. by exists r.
Qed.

(** *** Failures, as the client sees them *)

Lemma NoDup_map_eq {A B} (f : A -> B) (l : list A) x y :
  NoDup (List.map f l) -> x ∈ l -> y ∈ l -> f x = f y -> x = y.
Proof.
  induction l as [|a l IH]; intros N Hx Hy E; [by apply elem_of_nil in Hx|].
  cbn [List.map] in N. apply NoDup_cons in N as [N1 N2].
  apply elem_of_cons in Hx as [->|Hx]; apply elem_of_cons in Hy as [->|Hy]; auto.
  - exfalso. apply N1. rewrite E. apply list_elem_of_In, in_map.
    by apply list_elem_of_In.
  - exfalso. apply N1. rewrite <- E. apply list_elem_of_In, in_map.
    by apply list_elem_of_In.
Qed.

Lemma first_results_app_nameless pre c post : forall seen,
  toolKey None ∉ seen ->
  (forall r, r ∈ pre -> toolKey (fst r) <> toolKey None) ->
  (None, c) ∈ first_results seen (pre ++ (None, c) :: post).
Proof.
  induction pre as [|r pre IH]; intros seen Hs Hpre.
  - cbn [app first_results fst]. rewrite bool_decide_eq_false_2 by done.
    by apply elem_of_cons; left.
  - cbn [app first_results].
    assert (Hr : toolKey (fst r) <> toolKey None)
      by (apply Hpre; by apply elem_of_cons; left).
    assert (Hpre' : forall r', r' ∈ pre -> toolKey (fst r') <> toolKey None)
      by (intros r' Hr'; apply Hpre; by apply elem_of_cons; right).
    destruct (bool_decide _); [by apply IH|].
    apply elem_of_cons. right. apply IH; [|done].
    rewrite elem_of_union, elem_of_singleton. intros [E|E]; [by symmetry in E|done].
Qed.

(** X22: a tool that throws reaches the client through the middleware as
    a tool message without a name, whose content is the message built for
    the class of the error; [handler] reports it under the empty tool name
    and the key [tool-undefined].  So a request reports at most one
    nameless tool result: the first one of the stream, when no tool named
    [undefined] answered before it; the failures of later tool calls are
    not sent to the client. *)
Theorem X22_one_failure_is_reported (chunks : list chunk) :
  let reported := first_results ∅ (tool_results chunks) in
  (forall error,
     let m := wrapToolCall (inl error) in
     m_type m = "tool" /\ m_name m = None /\
     tool_end_of (m_name m, m_content m)
     = ("", truncate (sanitizeHTML (toolErrorMessage error)) 200)) /\
  (forall r1 r2, r1 ∈ reported -> r2 ∈ reported ->
     nameless r1 = true -> nameless r2 = true -> r1 = r2) /\
  (forall pre c post,
     tool_results chunks = pre ++ (None, c) :: post ->
     (forall r, r ∈ pre -> fst r <> None /\ fst r <> Some "undefined") ->
     (None, c) ∈ reported /\
     forall r, r ∈ reported -> nameless r = true -> r = (None, c)).
Proof.
  intros reported.
  destruct (first_results_keys (tool_results chunks) ∅) as (N & M & C).
  fold reported in N, M, C.
  assert (One : forall r1 r2, r1 ∈ reported -> r2 ∈ reported ->
                  nameless r1 = true -> nameless r2 = true -> r1 = r2).
  { intros [n1 c1] [n2 c2] H1 H2. unfold nameless. cbn [fst].
    destruct n1; [done|]. destruct n2; [done|]. intros _ _.
    by apply (NoDup_map_eq (fun r => toolKey (fst r)) reported). }
  split; [by intros error|]. split; [exact One|].
  intros pre c post E Hpre.
  assert (In : (None, c) ∈ reported).
  { unfold reported. rewrite E. apply first_results_app_nameless.
    - apply not_elem_of_empty.
    - intros [n x] Hr. destruct (Hpre _ Hr) as [H1 H2]. cbn [fst] in *.
      destruct n as [n|]; [|done]. unfold toolKey. intros K.
      apply H2. f_equal. by simplify_eq. }
  split; [exact In|]. intros r Hr Hn. by apply One.
Qed.

End ToolsExtras.

(** ** The identifier of a client *)

Module ClientIdentifierExtras.
Import JsString Regex Sanitize ClientIdentifier.

(** *** Anchored patterns *)

Lemma test_bos r s :
  test (Seq Bos r) s
  = succeeded (m (Seq Bos r) Some {| pos := 0; rest := s; cap := None |}).
Proof.
  unfold test, exec. destruct s as [|c s]; cbn [search_from].
  - by destruct (m (Seq Bos r) Some _).
  - destruct (m (Seq Bos r) Some _); [done|]. by rewrite RegexFacts.search_from_bos.
Qed.

Lemma succeeded_alt a b k st :
  succeeded (m (Alt a b) k st) = succeeded (m a k st) || succeeded (m b k st).
Proof. cbn [m]. by destruct (m a k st). Qed.

Lemma succeeded_opt r k st :
  succeeded (k st) = true -> succeeded (m (Opt r) k st) = true.
Proof. intros H. cbn [m]. by destruct (m r k st). Qed.

Lemma succeeded_opt_l r k st :
  succeeded (m r k st) = true -> succeeded (m (Opt r) k st) = true.
Proof. intros H. cbn [m]. by destruct (m r k st). Qed.

(** The search for one of three anchored alternatives succeeds when the
    last one matches at the start. *)
Lemma test_third_alternative a b c s :
  succeeded (m (Seq Bos c) Some {| pos := 0; rest := s; cap := None |}) = true ->
  test (Alt a (Alt b (Seq Bos c))) s = true.
Proof.
  intros H. unfold test, exec.
  assert (E : succeeded (m (Alt a (Alt b (Seq Bos c))) Some
                           {| pos := 0; rest := s; cap := None |}) = true).
  { rewrite !succeeded_alt, H. by rewrite !orb_true_r. }
  destruct s; cbn [search_from];
    by destruct (m (Alt a (Alt b (Seq Bos c))) Some _).
Qed.

(** *** Octets *)

(** A run of at most [n] characters of the class is matched by [c{0,n}]
    whenever what follows is matched. *)
Lemma upto_accepts p n : forall o k i t c,
  all_chars p o = true -> String.length o <= n ->
  succeeded (k {| pos := String.length o + i; rest := t; cap := c |}) = true ->
  succeeded (m (upto n p) k {| pos := i; rest := o +:+ t; cap := c |}) = true.
Proof.
  induction n as [|n IH]; intros o k i t c P L K.
  - destruct o; [|cbn in L; lia]. exact K.
  - cbn [upto]. destruct o as [|a o]; [by apply succeeded_opt|].
    cbn [all_chars] in P. apply andb_true_iff in P as [Pa P].
    cbn [String.length] in L, K.
    apply succeeded_opt_l. rewrite ExtractFacts.m_seq.
    cbn [m rest pos cap String.append]. rewrite Pa.
    apply IH; [done|lia|]. by rewrite Nat.add_succ_r.
Qed.

(** An octet is matched by [\d{1,3}] whenever what follows is matched. *)
Lemma between1_accepts o k i t c :
  octet o = true ->
  succeeded (k {| pos := String.length o + i; rest := t; cap := c |}) = true ->
  succeeded (m (between1 3 digit) k {| pos := i; rest := o +:+ t; cap := c |}) = true.
Proof.
  unfold octet. intros O K. apply andb_true_iff in O as [L D].
  apply andb_true_iff in L as [L1 L3]. apply Nat.leb_le in L1, L3.
  destruct o as [|a o]; [cbn in L1; lia|].
  cbn [all_chars] in D. apply andb_true_iff in D as [Da D].
  cbn [String.length] in L3, K.
  unfold between1. change (3 - 1) with 2.
  change (m (Seq (Cls digit) (upto 2 digit)) k)
    with (m (Cls digit) (m (upto 2 digit) k)).
  cbn [m rest pos cap String.append]. rewrite Da.
  apply upto_accepts; [done|lia|]. by rewrite Nat.add_succ_r.
Qed.

Lemma group_accepts o k i t c :
  octet o = true ->
  succeeded (k {| pos := S (String.length o + i); rest := t; cap := c |}) = true ->
  succeeded (m (Seq (between1 3 digit) (Chr ".")) k
               {| pos := i; rest := o +:+ String "." t; cap := c |}) = true.
Proof.
  intros O K.
  change (m (Seq (between1 3 digit) (Chr ".")) k)
    with (m (between1 3 digit) (m (Chr ".") k)).
  apply between1_accepts; [done|]. by cbn [m rest pos cap Ascii.eqb Bool.eqb].
Qed.

Lemma ipv4Regex_accepts o1 o2 o3 o4 :
  octet o1 = true -> octet o2 = true -> octet o3 = true -> octet o4 = true ->
  test ipv4Regex (o1 +:+ String "." (o2 +:+ String "." (o3 +:+ String "." o4))) = true.
Proof.
  intros O1 O2 O3 O4. unfold ipv4Regex. cbn [seqs]. rewrite test_bos.
  cbn [m pos Nat.eqb rep].
  change (m (Seq (Seq (between1 3 digit) (Chr "."))
               (Seq (Seq (between1 3 digit) (Chr "."))
                  (Seq (Seq (between1 3 digit) (Chr ".")) Eps)))
            (m (Seq (between1 3 digit) (Seq Eos Eps)) Some))
    with (m (Seq (between1 3 digit) (Chr "."))
            (m (Seq (between1 3 digit) (Chr "."))
               (m (Seq (between1 3 digit) (Chr "."))
                  (m (between1 3 digit) (m Eos Some))))).
  apply group_accepts; [done|]. apply group_accepts; [done|].
  apply group_accepts; [done|].
  rewrite <- (JsStringFacts.app_nil_r o4). apply between1_accepts; [done|]. done.
Qed.

(** *** Splitting *)

Lemma split_on_not_nil sep s : split_on sep s <> [].
Proof.
  destruct s as [|c s]; [done|]. cbn [split_on].
  destruct (Ascii.eqb c sep); [done|]. by destruct (split_on sep s).
Qed.

Lemma split_on_app sep a b :
  split_on sep (a +:+ String sep b) = split_on sep a ++ split_on sep b.
Proof.
  induction a as [|c a IH]; cbn [String.append split_on].
  - by rewrite Ascii.eqb_refl.
  - destruct (Ascii.eqb c sep); [by rewrite IH|]. rewrite IH.
    pose proof (split_on_not_nil sep a). by destruct (split_on sep a).
Qed.

Lemma split_on_plain sep a :
  all_chars (fun c => negb (Ascii.eqb c sep)) a = true -> split_on sep a = [a].
Proof.
  induction a as [|c a IH]; cbn [all_chars split_on]; [done|].
  intros H. apply andb_true_iff in H as [Hc Ha]. apply negb_true_iff in Hc.
  by rewrite Hc, IH.
Qed.

Lemma all_chars_impl (p q : ascii -> bool) s :
  (forall c, p c = true -> q c = true) -> all_chars p s = true -> all_chars q s = true.
Proof.
  intros H. induction s as [|c s IH]; cbn [all_chars]; [done|].
  intros Hs. apply andb_true_iff in Hs as [Hc Hs]. by rewrite (H c Hc), IH.
Qed.

Lemma digit_not_dot c : digit c = true -> negb (Ascii.eqb c ".") = true.
Proof. destruct (Ascii.eqb_spec c ".") as [->|]; [by vm_compute|done]. Qed.

Lemma octet_no_dot o :
  octet o = true -> all_chars (fun c => negb (Ascii.eqb c ".")) o = true.
Proof.
  unfold octet. intros H. apply andb_true_iff in H as [_ D].
  by apply (all_chars_impl digit _ o digit_not_dot).
Qed.

Lemma digit_not_space c : digit c = true -> is_space c = false.
Proof.
  unfold digit, is_space. intros H. apply andb_true_iff in H as [H1 H2].
  apply Nat.leb_le in H1, H2.
  destruct (Nat.leb_spec 9 (nat_of_ascii c)), (Nat.leb_spec (nat_of_ascii c) 13),
    (Nat.eqb_spec (nat_of_ascii c) 32), (Nat.eqb_spec (nat_of_ascii c) 160);
    cbn; try done; lia.
Qed.

Lemma parseInt_octet o :
  octet o = true -> parseInt o = Some (Z.of_nat (digits_value 0 o)).
Proof.
  intros O. unfold octet in O. apply andb_true_iff in O as [L D].
  destruct o as [|a o]; [done|]. cbn [all_chars] in D.
  apply andb_true_iff in D as [Da D]. unfold parseInt. cbn [trimStart].
  rewrite (digit_not_space a Da).
  assert (Hm : a <> "-"%char) by (intros ->; by vm_compute in Da).
  assert (Hp : a <> "+"%char) by (intros ->; by vm_compute in Da).
  assert (E : match String a o with
              | String "-" t' => (true, t')
              | String "+" t' => (false, t')
              | _ => (false, String a o)
              end = (false, String a o)).
  { destruct a as [[] [] [] [] [] [] [] []]; try done; by destruct Hm || by destruct Hp. }
  rewrite E. by rewrite Da.
Qed.

(** X24: what [isValidIp] accepts.  A dotted quad of four groups of one
    to three digits is valid exactly when each group is at most 255.  Every
    text that starts with [fe80:] is valid, whatever follows the prefix.
    The empty text is not valid. *)
Theorem X24_valid_addresses :
  (forall o1 o2 o3 o4,
     octet o1 = true -> octet o2 = true -> octet o3 = true -> octet o4 = true ->
     isValidIp (o1 +:+ String "." (o2 +:+ String "." (o3 +:+ String "." o4)))
     = forallb (fun o => (digits_value 0 o <=? 255)%nat) [o1; o2; o3; o4]) /\
  (forall rest, isValidIp ("fe80:" +:+ rest) = true) /\
  isValidIp "" = false.
Proof.
  split; [|split].
  - intros o1 o2 o3 o4 O1 O2 O3 O4. unfold isValidIp.
    rewrite (ipv4Regex_accepts o1 o2 o3 o4 O1 O2 O3 O4). cbn [negb andb].
    rewrite !split_on_app, (split_on_plain "." o4) by (by apply octet_no_dot).
    rewrite !split_on_plain by (by apply octet_no_dot).
    cbn [app forallb]. rewrite !parseInt_octet by done.
    assert (R : forall n : nat,
              ((0 <=? Z.of_nat n) && (Z.of_nat n <=? 255))%Z = (n <=? 255)%nat).
    { intros n. destruct (Nat.leb_spec n 255), (Z.leb_spec 0 (Z.of_nat n)),
        (Z.leb_spec (Z.of_nat n) 255); cbn; try done; lia. }
    by rewrite !R.
  - intros rest. unfold isValidIp.
    assert (T4 : test ipv4Regex ("fe80:" +:+ rest) = false).
    { unfold ipv4Regex. cbn [seqs]. by rewrite test_bos. }
    assert (T6 : test ipv6Regex ("fe80:" +:+ rest) = true).
    { unfold ipv6Regex. cbn [seqs]. by apply test_third_alternative. }
    by rewrite T4, T6.
  - by vm_compute.
Qed.

(** *** The identifier *)

Lemma or_else_unknown a : or_else a "unknown" <> "".
Proof.
  unfold or_else. destruct a as [s|]; [|done].
  by destruct (String.eqb_spec s "").
Qed.

Lemma isValidIp_not_empty ip : isValidIp ip = true -> ip <> "".
Proof. intros H ->. by vm_compute in H. Qed.

Lemma identifier_cases trustProxy req :
  getClientIdentifier trustProxy req = or_else (remoteAddress req) "unknown" \/
  (trustProxy = true /\ isValidIp (getClientIdentifier trustProxy req) = true).
Proof.
  unfold getClientIdentifier. destruct trustProxy; cbn [negb]; [|by left].
  destruct (x_forwarded_for req) as [[s|l]|]; [| |by left].
  - destruct s as [|c s]; [by left|].
    destruct (_ <? _)%nat; [by left|].
    destruct (isValidIp _) eqn:V; cbn [negb]; [|by left]. by right.
  - destruct (head l) as [[|c s]|]; [by left| |by left].
    destruct (_ <? _)%nat; [by left|].
    destruct (isValidIp _) eqn:V; cbn [negb]; [|by left]. by right.
Qed.

Lemma identifier_of_header ips req :
  x_forwarded_for req = Some (HString ips) -> ips <> "" ->
  getClientIdentifier true req
  = let ipList := List.map trim (split_on "," ips) in
    if (2 <? length ipList)%nat then or_else (remoteAddress req) "unknown"
    else
      let clientIp := match ipList with ip :: _ => ip | [] => "" end in
      if isValidIp clientIp then clientIp else or_else (remoteAddress req) "unknown".
Proof.
  intros H N. unfold getClientIdentifier. rewrite H. cbn [negb].
  destruct ips as [|c s]; [done|]. cbv zeta.
  destruct (_ <? _)%nat; [done|]. by destruct (isValidIp _).
Qed.

(** X23: the identifier under which a request is counted.  It is never
    empty.  Without a trusted proxy it is the address of the connection, or
    [unknown], whatever the headers say.  With one, it is that address or
    a text that [isValidIp] accepts: for a header with one entry, or with
    two entries separated by a comma, the first entry without its
    surrounding white space when it is valid, whatever the second entry and
    the address of the connection are; for a header with more than two
    entries, the address of the connection. *)
Theorem X23_client_identifier (trustProxy : bool) (req : request) :
  let direct := or_else (remoteAddress req) "unknown" in
  getClientIdentifier trustProxy req <> "" /\
  (trustProxy = false -> getClientIdentifier trustProxy req = direct) /\
  (getClientIdentifier trustProxy req = direct \/
   isValidIp (getClientIdentifier trustProxy req) = true) /\
  (forall a, x_forwarded_for req = Some (HString a) ->
     no_comma a = true -> isValidIp (trim a) = true ->
     getClientIdentifier true req = trim a) /\
  (forall a b, x_forwarded_for req = Some (HString (a +:+ String "," b)) ->
     no_comma a = true -> no_comma b = true -> isValidIp (trim a) = true ->
     getClientIdentifier true req = trim a) /\
  (forall a b c,
     x_forwarded_for req = Some (HString (a +:+ String "," (b +:+ String "," c))) ->
     getClientIdentifier true req = direct).
Proof.
  intros direct.
  split; [|split; [|split; [|split; [|split]]]].
  - destruct (identifier_cases trustProxy req) as [->|[_ V]];
      [apply or_else_unknown|by apply isValidIp_not_empty].
  - by intros ->.
  - destruct (identifier_cases trustProxy req) as [->|[_ V]]; auto.
  - intros a H Ca V.
    assert (N : a <> "").
    { intros ->. by vm_compute in V. }
    rewrite (identifier_of_header a req H N), (split_on_plain "," a Ca).
    cbn [List.map length Nat.ltb Nat.leb]. cbv zeta. by rewrite V.
  - intros a b H Ca Cb V.
    assert (N : a +:+ String "," b <> "") by (by destruct a).
    rewrite (identifier_of_header _ req H N), split_on_app.
    rewrite (split_on_plain "," a Ca), (split_on_plain "," b Cb).
    cbn [app List.map length Nat.ltb Nat.leb]. cbv zeta. by rewrite V.
  - intros a b c H.
    assert (N : a +:+ String "," (b +:+ String "," c) <> "") by (by destruct a).
    rewrite (identifier_of_header _ req H N), !split_on_app.
    pose proof (split_on_not_nil "," a) as Na.
    pose proof (split_on_not_nil "," b) as Nb.
    pose proof (split_on_not_nil "," c) as Nc.
    destruct (split_on "," a) as [|pa la]; [done|].
    destruct (split_on "," b) as [|pb lb]; [done|].
    destruct (split_on "," c) as [|pc lc]; [done|].
    cbv zeta. rewrite !length_map, !length_app. cbn [length].
    assert ((2 <? S (length la) + (S (length lb) + S (length lc)))%nat = true)
      as -> by (apply Nat.ltb_lt; lia).
    done.
Qed.

(** No name of a member of [Object.prototype] is an address that
    [isValidIp] accepts: the identifier of a request is such a name only
    when the address of the connection is one. *)
Lemma identifier_is_no_member_name (trustProxy : bool) (req : request) :
  JsObject.inherited (or_else (remoteAddress req) "unknown") = false ->
  JsObject.inherited (getClientIdentifier trustProxy req) = false.
Proof.
  intros H. destruct (identifier_cases trustProxy req) as [->|[_ V]]; [done|].
  clear H. destruct (JsObject.inherited _) eqn:I; [|done].
  unfold JsObject.inherited in I. apply existsb_exists in I as (n & Hin & E).
  apply String.eqb_eq in E. subst n. unfold JsObject.prototype_members in Hin.
  cbn [In] in Hin.
  repeat (destruct Hin as [E|Hin]; [rewrite <- E in V; by vm_compute in V|]).
  done.
Qed.

End ClientIdentifierExtras.

(** ** The page of the client *)

Module ClientExtras.
Import JsString Sanitize Ask Client AskFacts ClientIdentifierExtras.

(** *** Lines *)

Lemma or_else_last (l : list string) : or_else (last l) "" = List.last l "".
Proof.
  induction l as [|x [|y l] IH]; [done| |exact IH].
  cbn [last List.last or_else]. by destruct (String.eqb_spec x "").
Qed.

(** The last piece of a split holds no separator. *)
Lemma split_on_last sep s :
  all_chars (fun c => negb (Ascii.eqb c sep)) (List.last (split_on sep s) "") = true.
Proof.
  induction s as [|c s IH]; [done|]. cbn [split_on].
  destruct (Ascii.eqb c sep) eqn:E.
  - pose proof (split_on_not_nil sep s). by destruct (split_on sep s).
  - pose proof (split_on_not_nil sep s).
    destruct (split_on sep s) as [|p [|q ps]]; [done| |exact IH].
    cbn [List.last all_chars] in *. by rewrite E, IH.
Qed.

(** Splitting a text in two parts: the complete lines of the first part,
    then the split of its last piece followed by the second part. *)
Lemma split_on_append sep x : forall y,
  split_on sep (x +:+ y)
  = removelast (split_on sep x) ++ split_on sep (List.last (split_on sep x) "" +:+ y).
Proof.
  induction x as [|c x IH]; intros y; [done|].
  cbn [String.append split_on]. pose proof (split_on_not_nil sep x) as Nx.
  destruct (Ascii.eqb c sep) eqn:E.
  - rewrite IH. destruct (split_on sep x) as [|p ps]; [done|]. reflexivity.
  - rewrite IH. destruct (split_on sep x) as [|p [|q ps]]; [done| |reflexivity].
    cbn [removelast List.last app String.append split_on]. by rewrite E.
Qed.

Lemma removelast_app_nonempty {A} (l l' : list A) :
  l' <> [] -> removelast (l ++ l') = l ++ removelast l'.
Proof. intros H. by apply removelast_app. Qed.

Lemma payloads_app a b : payloads (a ++ b) = payloads a ++ payloads b.
Proof. unfold payloads. by rewrite List.filter_app, List.map_app. Qed.

Lemma received_app a b : received (a ++ b) = received a +:+ received b.
Proof.
  induction a as [|x a IH]; [done|]. cbn [app received fold_right] in *.
  fold (received (a ++ b)). fold (received a). by rewrite IH, JsStringFacts.app_assoc.
Qed.

Lemma read_loop_lines chunks : forall buffer,
  all_chars (fun c => negb (Ascii.eqb c "010")) buffer = true ->
  read_loop buffer chunks
  = payloads (removelast (split_on "010" (buffer +:+ received chunks))).
Proof.
  induction chunks as [|chunk chunks IH]; intros buffer B.
  - cbn [read_loop received fold_right]. rewrite JsStringFacts.app_nil_r.
    by rewrite (split_on_plain "010" buffer B).
  - cbn [read_loop read_step received fold_right]. fold (received chunks).
    rewrite or_else_last, IH by apply split_on_last.
    rewrite <- payloads_app. f_equal.
    rewrite <- removelast_app_nonempty by apply split_on_not_nil.
    by rewrite <- split_on_append, JsStringFacts.app_assoc.
Qed.

(** X25: the page handles the lines of the text received, whatever way
    the network cuts the text into chunks: the payloads given to the parser
    are those of the lines that end with a line feed, in their order, and
    two ways of cutting the same text give the same payloads.  A text left
    after the last line feed is never handled. *)
Theorem X25_lines_do_not_depend_on_chunks (chunks : list string) :
  read_loop "" chunks = payloads (removelast (split_on "010" (received chunks))) /\
  (forall chunks', received chunks' = received chunks ->
     read_loop "" chunks' = read_loop "" chunks) /\
  (forall text tail,
     received chunks = text +:+ String "010" tail ->
     all_chars (fun c => negb (Ascii.eqb c "010")) tail = true ->
     read_loop "" chunks = payloads (split_on "010" text)).
Proof.
  assert (R : forall cs, read_loop "" cs
                         = payloads (removelast (split_on "010" (received cs)))).
  { intros cs. by rewrite read_loop_lines. }
  split; [apply R|]. split.
  - intros chunks' E. by rewrite !R, E.
  - intros text tail E T. rewrite R, E, split_on_app.
    rewrite (split_on_plain "010" tail T).
    by rewrite removelast_app_nonempty, app_nil_r.
Qed.

(** *** What is shown *)

Lemma join_empty_cons x l : join "" (x :: l) = x +:+ join "" l.
Proof. destruct l; [by rewrite JsStringFacts.app_nil_r|done]. Qed.

Lemma join_empty_app a b : join "" (a ++ b) = join "" a +:+ join "" b.
Proof.
  induction a as [|x a IH]; [done|]. cbn [app].
  by rewrite !join_empty_cons, IH, JsStringFacts.app_assoc.
Qed.

(** The events of the loop add their tokens to the answer. *)
Lemma show_body body : forall v,
  Forall (fun e => is_terminator e = false) body ->
  answer (fold_left on_event body v) = answer v +:+ join "" (tokens body).
Proof.
  induction body as [|e body IH]; intros v F.
  - cbn. by rewrite JsStringFacts.app_nil_r.
  - apply Forall_cons in F as [Fe F]. cbn [fold_left]. rewrite IH by done.
    destruct e as [c|t a|t r| |msg]; try done; cbn [on_event answer].
    change (tokens (Token c :: body)) with (c :: tokens body).
    by rewrite join_empty_cons, JsStringFacts.app_assoc.
Qed.

(** X26: what the page shows for a response of [handler], when every
    event written is received and parsed.  After a stream that ends with
    [done] the answer is the texts of the tokens put together, and the
    status is [Done!]; after a stream that ends with an [error] the answer
    is [Error: ] and the sanitized message, whatever tokens came before,
    and the status is empty. *)
Theorem X26_page_after_a_response (agent : string -> agent_run) (req : request)
    (events : list event) :
  handler agent req = EventStream events ->
  (exists body, events = body ++ [Done] /\
     show events = {| answer := join "" (tokens events); status := "Done!" |}) \/
  (exists body message, events = body ++ [ErrorEvent message] /\
     show events = {| answer := "Error: " +:+ message; status := "" |}).
Proof.
  unfold handler, on_error. destruct (negb _); [done|].
  assert (E : forall body message,
    show (body ++ [ErrorEvent message])
    = {| answer := "Error: " +:+ message; status := "" |}).
  { intros body message. unfold show. by rewrite fold_left_app. }
  destruct (validate req) as [error|[u q]].
  { intros [= <-]. right. by exists [], (sanitizeErrorMessage error). }
  destruct (start_error _) as [error|].
  { intros [= <-]. right. by exists [], (sanitizeErrorMessage error). }
  destruct (stream_error _) as [error|]; intros [= <-].
  { right. eexists _, _. split; [done|]. apply E. }
  left. eexists. split; [done|].
  unfold show. rewrite fold_left_app. cbn [fold_left on_event].
  rewrite show_body by apply process_from_events. cbn [starting answer String.append].
  f_equal. rewrite tokens_app. cbn [tokens omap].
  change (tokens [Done]) with (@nil string). by rewrite app_nil_r.
Qed.

Lemma X26_witness :
  exists body, [Token "It is 42."; Done] = body ++ [Done] /\
    show [Token "It is 42."; Done] = {| answer := "It is 42."; status := "Done!" |}.
Proof.
  destruct (X26_page_after_a_response
              (fun _ => {| start_error := None; chunks := [[ai_says "It is 42."]];
                           stream_error := None |})
              {| method := "POST"; url := Some "https://youtu.be/dQw4w9WgXcQ";
                 question := Some "What is said?" |}
              [Token "It is 42."; Done] eq_refl)
    as [(body & E & S)|(body & message & E & S)].
  - exists body. split; [exact E|exact S].
  - exfalso. destruct body as [|e1 [|e2 [|e3 body]]]; discriminate E.
Defined.

End ClientExtras.
